(** * rx888_stream: firmware upload (ezusb.c) and bulk streaming (my_usb_example.c)

    A shallow embedding of the two cores of the program:
    - [ezusb_install_firmware]: the parser of a Cypress FX3 firmware image,
      fused with the chunked upload over vendor control transfers;
    - [transfer_callback] and the streaming part of [main]: the queue of
      asynchronous bulk transfers, its statistics window and its shutdown.

    C integers are integers of [Z] with the wrap-around of their width
    written out; the USB transport, the clock, the allocator and the
    interrupt signal are inputs of the model. *)

From Stdlib Require Import ZArith List Lia Bool Strings.Byte.
From Stdlib Require Import Floats.SpecFloat.
From Stdlib Require Import Rbase Rfunctions Lra Psatz.
From stdpp Require Import base numbers list gmap.

Open Scope Z_scope.

(** ** Machine integers *)

Definition uint8_t (x : Z) : Z := x mod 2 ^ 8.
Definition uint16_t (x : Z) : Z := x mod 2 ^ 16.
(** [unsigned int] and [uint32_t] *)
Definition unsigned (x : Z) : Z := x mod 2 ^ 32.
(** [size_t] of the 64-bit targets the Makefile builds for *)
Definition size_t (x : Z) : Z := x mod 2 ^ 64.
(** [int]: an increment or decrement past the range wraps in two's
    complement, as the compiled code of the targets does. *)
Definition int (x : Z) : Z := (x + 2 ^ 31) mod 2 ^ 32 - 2 ^ 31.

(** ** ezusb.c *)

(** The value of an [unsigned char]. *)
Definition uchar (b : byte) : Z := Z.of_N (Byte.to_N b).

(** The value of the [unsigned char] at [x[i]]. *)
Definition byte_at (x : list byte) (i : Z) : Z :=
  uchar (nth (Z.to_nat i) x x00).

(** [RL32(x)], with [x] the pointer [firmware + off]: each byte is cast to
    [unsigned] and shifted in 32 bits. *)
Definition RL32 (firmware : list byte) (off : Z) : Z :=
  Z.lor
    (Z.lor
       (Z.lor (unsigned (Z.shiftl (byte_at firmware (off + 3)) 24))
              (unsigned (Z.shiftl (byte_at firmware (off + 2)) 16)))
       (unsigned (Z.shiftl (byte_at firmware (off + 1)) 8)))
    (byte_at firmware off).

Definition MIN (a b : Z) : Z := if a <? b then a else b.

Definition FW_CHUNKSIZE : Z := 4 * 1024.

(** libusb.h: [LIBUSB_REQUEST_TYPE_VENDOR = 0x02 << 5] and
    [LIBUSB_ENDPOINT_OUT = 0x00]. *)
Definition LIBUSB_REQUEST_TYPE_VENDOR : Z := Z.shiftl 0x02 5.
Definition LIBUSB_ENDPOINT_OUT : Z := 0x00.
Definition LIBUSB_ENDPOINT_IN : Z := 0x80.

(** One call of [libusb_control_transfer] as the device sees it: the setup
    fields, the [wLength] bytes at the data pointer and the timeout (ms). *)
Record control_transfer : Type := ControlTransfer {
  bmRequestType : Z;
  bRequest : Z;
  wValue : Z;
  wIndex : Z;
  data : list byte;
  wLength : Z;
  timeout : Z
}.

(** The bytes [buf[ptr .. ptr + n)]. *)
Definition bytes_at (buf : list byte) (ptr n : Z) : list byte :=
  firstn (Z.to_nat n) (skipn (Z.to_nat ptr) buf).

(** The arguments of [libusb_control_transfer] converted to the types of
    its prototype ([uint8_t], [uint8_t], [uint16_t], [uint16_t],
    [unsigned char *], [uint16_t], [unsigned int]); the data pointer is
    [buf + ptr]. *)
Definition control_request (request_type request value index : Z)
    (buf : list byte) (ptr length tmo : Z) : control_transfer :=
  {| bmRequestType := uint8_t request_type;
     bRequest := uint8_t request;
     wValue := uint16_t value;
     wIndex := uint16_t index;
     data := bytes_at buf ptr (uint16_t length);
     wLength := uint16_t length;
     timeout := unsigned tmo |}.

(** What [ezusb_install_firmware] prints before it returns; every message
    but the last goes with the return value -1. *)
Inductive install_msg : Type :=
  | FailedToLocate
  | SizeExceedsLimit
  | InvalidSignature
  | UnableToSend (ret : Z)
  | FileTruncated
  | UploadDone.

Definition install_return (m : install_msg) : Z :=
  match m with
  | UploadDone => 0
  | _ => -1
  end.

(** How the [do ... while] loop over the chunks of a segment ends. *)
Inductive send_exit : Type :=
  | Sent
  | SendFailed (ret : Z).

(** A segment of the image: load address, offset of its payload in the
    file and payload length in bytes. *)
Record segment : Type := Segment {
  seg_addr : Z;
  seg_offset : Z;
  seg_length : Z
}.

Definition max_size : Z := 0x86000.

(** Line 160: [RL32(firmware + offset) << 2], a shift of an [unsigned]. *)
Definition segment_sublength (firmware : list byte) (offset : Z) : Z :=
  unsigned (Z.shiftl (RL32 firmware offset) 2).

Section Install.

(** The device behind [hdl]: the return value of
    [libusb_control_transfer] for a request, given the requests issued
    before it. A negative value is a libusb error code. *)
Variable transport : list control_transfer -> control_transfer -> Z.

(** The request of one pass of the [do ... while] loop (lines 171-176). *)
Definition chunk_transfer (firmware : list byte)
    (addr offset sublength suboffset : Z) : control_transfer :=
  let chunksize := MIN (size_t (sublength - suboffset)) FW_CHUNKSIZE in
  control_request
    (Z.lor LIBUSB_REQUEST_TYPE_VENDOR LIBUSB_ENDPOINT_OUT) 0xa0
    (Z.land (size_t (addr + suboffset)) 0xffff)
    (Z.shiftr (size_t (addr + suboffset)) 16)
    firmware (size_t (offset + suboffset)) chunksize 100.

(** Lines 170-185: the [do ... while] loop; [hist] holds the transfers
    issued so far, the result lists the transfers issued by the loop. *)
Fixpoint send_segment (fuel : nat) (firmware : list byte)
    (addr offset sublength suboffset : Z) (hist : list control_transfer)
    : option (send_exit * list control_transfer) :=
  match fuel with
  | O => None
  | S fuel' =>
      let chunksize := MIN (size_t (sublength - suboffset)) FW_CHUNKSIZE in
      let req := chunk_transfer firmware addr offset sublength suboffset in
      let ret := transport hist req in
      if ret <? 0 then Some (SendFailed ret, [req])
      else
        let suboffset' := size_t (suboffset + chunksize) in
        if suboffset' <? sublength then
          match send_segment fuel' firmware addr offset sublength suboffset'
                  (hist ++ [req]) with
          | Some (e, tr) => Some (e, req :: tr)
          | None => None
          end
        else Some (Sent, [req])
  end.

(** Lines 191-198: the test after the loop. *)
Definition after_loop (length offset : Z) : install_msg :=
  if offset <? length then FileTruncated else UploadDone.

(** Lines 149-188: the [while (offset < length)] loop. *)
Fixpoint upload_loop (fuel : nat) (firmware : list byte)
    (length offset : Z) (hist : list control_transfer)
    : option (install_msg * list control_transfer) :=
  match fuel with
  | O => None
  | S fuel' =>
      if offset <? length then
        if size_t (offset + 4) =? length then
          (* Skip checksum *)
          Some (after_loop length (size_t (offset + 4)), [])
        else if length <? size_t (offset + 8) then
          Some (after_loop length offset, [])
        else
          let sublength := segment_sublength firmware offset in
          let offset1 := size_t (offset + 4) in
          let addr := RL32 firmware offset1 in
          let offset2 := size_t (offset1 + 4) in
          if sublength >? size_t (length - offset2) then
            Some (after_loop length offset2, [])
          else
            match send_segment (S (Z.to_nat sublength)) firmware addr
                    offset2 sublength 0 hist with
            | None => None
            | Some (SendFailed ret, tr) => Some (UnableToSend ret, tr)
            | Some (Sent, tr) =>
                match upload_loop fuel' firmware length
                        (size_t (offset2 + sublength)) (hist ++ tr) with
                | Some (m, tr') => Some (m, tr ++ tr')
                | None => None
                end
            end
      else Some (after_loop length offset, [])
  end.

(** Lines 141-142: the signature test. *)
Definition bad_signature (firmware : list byte) (length : Z) : bool :=
  (length <? 4)
  || negb (byte_at firmware 0 =? uchar "C")
  || negb (byte_at firmware 1 =? uchar "Y")
  || negb (byte_at firmware 3 =? 0xb0).

(** [ezusb_install_firmware(hdl, filename)]. The file system is the
    input [file]: [None] when [fopen] fails, else the content of the
    file, which [malloc] finds room for and [fread] delivers in full.
    The result is the message printed last and the control transfers
    issued, in order; [None] stands for a loop that has not ended within
    its fuel. *)
Definition ezusb_install_firmware (file : option (list byte))
    : option (install_msg * list control_transfer) :=
  match file with
  | None => Some (FailedToLocate, [])
  | Some buf =>
      let filesize := Z.of_nat (length buf) in
      if filesize >? max_size then Some (SizeExceedsLimit, [])
      else
        let firmware := buf in
        let length := filesize in
        if bad_signature firmware length then Some (InvalidSignature, [])
        else upload_loop (S (Z.to_nat length)) firmware length 4 []
  end.

End Install.

(** The segments the loop of [ezusb_install_firmware] accepts, in file
    order: the loop of lines 149-188 with the transfers left out. *)
Fixpoint parse_loop (fuel : nat) (firmware : list byte) (length offset : Z)
    : option (list segment) :=
  match fuel with
  | O => None
  | S fuel' =>
      if offset <? length then
        if size_t (offset + 4) =? length then Some []
        else if length <? size_t (offset + 8) then Some []
        else
          let sublength := segment_sublength firmware offset in
          let offset1 := size_t (offset + 4) in
          let addr := RL32 firmware offset1 in
          let offset2 := size_t (offset1 + 4) in
          if sublength >? size_t (length - offset2) then Some []
          else
            match parse_loop fuel' firmware length
                    (size_t (offset2 + sublength)) with
            | Some segs => Some (Segment addr offset2 sublength :: segs)
            | None => None
            end
      else Some []
  end.

Definition parse (firmware : list byte) : option (list segment) :=
  let length := Z.of_nat (length firmware) in
  parse_loop (S (Z.to_nat length)) firmware length 4.

(** ** The upload of one segment, chunk by chunk

    The transfers the uploader owes for a segment, stated on the segment
    alone: chunk [k] starts at byte [4096 * k] of the payload. *)

Definition ceil_div (a b : Z) : Z := (a + b - 1) / b.

(** The number of passes of the [do ... while] loop: it runs once even
    for an empty payload. *)
Definition chunk_count (byteLength : Z) : nat :=
  Z.to_nat (Z.max 1 (ceil_div byteLength FW_CHUNKSIZE)).

Definition chunk_request (firmware : list byte) (seg : segment) (k : nat)
    : control_transfer :=
  let chunkOffset := FW_CHUNKSIZE * Z.of_nat k in
  let address := seg_addr seg + chunkOffset in
  let n := Z.min FW_CHUNKSIZE (seg_length seg - chunkOffset) in
  {| bmRequestType := 0x40;
     bRequest := 0xa0;
     wValue := Z.land address 0xffff;
     wIndex := Z.land (Z.shiftr address 16) 0xffff;
     data := bytes_at firmware (seg_offset seg + chunkOffset) n;
     wLength := n;
     timeout := 100 |}.

Definition segment_transfers (firmware : list byte) (seg : segment)
    : list control_transfer :=
  map (chunk_request firmware seg) (seq 0 (chunk_count (seg_length seg))).

(** A segment that lies inside an image of [length] bytes. *)
Definition segment_in_image (length : Z) (seg : segment) : Prop :=
  0 <= seg_addr seg < 2 ^ 32 /\
  12 <= seg_offset seg /\
  0 <= seg_length seg /\
  seg_offset seg + seg_length seg <= length.

(** A device that accepts every control transfer. *)
Definition accepting (transport : list control_transfer -> control_transfer -> Z)
    : Prop :=
  forall hist req, 0 <= transport hist req.

(** What the loop of [ezusb_install_firmware] has issued when it ends
    with message [m], in terms of the segments [segs] it went through. *)
Definition upload_outcome
    (transport : list control_transfer -> control_transfer -> Z)
    (firmware : list byte) (segs : list segment)
    (m : install_msg) (tr : list control_transfer) : Prop :=
  match m with
  | UploadDone | FileTruncated =>
      tr = flat_map (segment_transfers firmware) segs
  | UnableToSend ret =>
      (exists h r, transport h r = ret /\ ret < 0) /\
      tr `prefix_of` flat_map (segment_transfers firmware) segs
  | _ => False
  end.

(** A device that returns the number of bytes of every transfer. *)
Definition accept_all : list control_transfer -> control_transfer -> Z :=
  fun _ req => Z.max 0 (wLength req).

(** *** Images

    One segment of 4 bytes at address 0. *)
Definition scenario_A_image : list byte :=
  ["C"; "Y"; x00; xb0; x01; x00; x00; x00; x00; x00; x00; x00;
   xde; xad; xbe; xef]%byte.

(** One segment of 0 bytes at address 0x40000100. *)
Definition empty_segment_image : list byte :=
  ["C"; "Y"; x00; xb0; x00; x00; x00; x00; x00; x01; x00; x40]%byte.

(** A segment header that declares 4 bytes and ends the file. *)
Definition header_at_end_image : list byte :=
  ["C"; "Y"; x00; xb0; x01; x00; x00; x00; x00; x00; x00; x00]%byte.

(** A segment header that declares 0x40000000 words, then the 4 bytes of
    a checksum. *)
Definition wrapped_length_image : list byte :=
  ["C"; "Y"; x00; xb0; x00; x00; x00; x40; x00; x01; x00; x40;
   x01; x02; x03; x04]%byte.

(** The same with 0xb1 in place of the marker 0xb0. *)
Definition bad_marker_image : list byte :=
  ["C"; "Y"; x00; xb1; x01; x00; x00; x00; x00; x00; x00; x00;
   xde; xad; xbe; xef]%byte.

(** ** my_usb_example.c: the globals and the completion callback *)

(** libusb.h: [enum libusb_transfer_status]. *)
Inductive libusb_transfer_status : Type :=
  | LIBUSB_TRANSFER_COMPLETED
  | LIBUSB_TRANSFER_ERROR
  | LIBUSB_TRANSFER_TIMED_OUT
  | LIBUSB_TRANSFER_CANCELLED
  | LIBUSB_TRANSFER_STALL
  | LIBUSB_TRANSFER_NO_DEVICE
  | LIBUSB_TRANSFER_OVERFLOW.

Definition completed (s : libusb_transfer_status) : bool :=
  match s with
  | LIBUSB_TRANSFER_COMPLETED => true
  | _ => false
  end.

(** ezusb.h: the commands [main] sends. *)
Inductive FX3Command : Type :=
  | STARTFX3
  | STOPFX3
  | STARTADC.

Record timeval : Type := Timeval {
  tv_sec : Z;
  tv_usec : Z
}.

(** What the callback reads of a [struct libusb_transfer]: which of the
    [transfers[slot]] it is, its status and the bytes received ([int]). *)
Record libusb_transfer : Type := Transfer {
  slot : nat;
  status : libusb_transfer_status;
  actual_length : Z
}.

(** The global variables of my_usb_example.c that the streaming code
    reads or writes. *)
Record globals : Type := Globals {
  queuedepth : Z;
  success_count : Z;
  failure_count : Z;
  transfer_size : Z;
  transfer_index : Z;
  stop_transfers : bool;
  xfers_in_progress : Z;
  tv_start : timeval;
  tv_end : timeval
}.

(** The values the globals are initialised with; the source sets
    [queuedepth] to 16. *)
Definition initial_globals (qd : Z) : globals :=
  {| queuedepth := qd;
     success_count := 0;
     failure_count := 0;
     transfer_size := 0;
     transfer_index := 0;
     stop_transfers := false;
     xfers_in_progress := 0;
     tv_start := Timeval 0 0;
     tv_end := Timeval 0 0 |}.

(** *** The data rate, in IEEE 754 binary64 *)

Definition double : Type := spec_float.
Definition double_of_Z (n : Z) : double := binary_normalize 53 1024 n 0 false.
Definition double_div (x y : double) : double := SFdiv 53 1024 x y.

(** The conversion [(uint32_t)x] truncates toward zero; it is undefined
    ([None]) for a value out of range, an infinity or a NaN. *)
Definition uint32_of_double (x : double) : option Z :=
  match x with
  | S754_zero _ => Some 0
  | S754_finite s m e =>
      let a := if 0 <=? e then Z.pos m * 2 ^ e else Z.pos m / 2 ^ (- e) in
      let v := if s then - a else a in
      if (0 <=? v) && (v <? 2 ^ 32) then Some v else None
  | _ => None
  end.

(** Lines 81-82: the difference of two [struct timeval] in microseconds,
    converted to [unsigned int]. *)
Definition elapsed_usec (t0 t1 : timeval) : Z :=
  unsigned ((tv_sec t1 - tv_sec t0) * 1000000 + (tv_usec t1 - tv_usec t0)).

(** Lines 85-86: the figure printed after "Data Rate:". *)
Definition data_rate (size elapsed_time : Z) : option Z :=
  uint32_of_double
    (double_div (double_div (double_of_Z size) (double_of_Z 1024))
                (double_div (double_of_Z elapsed_time) (double_of_Z 1000000))).

(** *** What the program does that can be observed *)

Inductive origin : Type :=
  | FromMain
  | FromCallback.

Inductive event : Type :=
  (** "Failed to allocate buffers and transfers" *)
  | EvAllocFailed
  (** a call of [free_transfer_buffers] *)
  | EvFreeTransferBuffers
  (** a call of [libusb_submit_transfer(transfers[slot])] and its result *)
  | EvSubmit (o : origin) (slot : nat) (ret : Z)
  (** a call of [command_send] *)
  | EvCommand (cmd : FX3Command) (arg : Z)
  (** a call of [libusb_handle_events] *)
  | EvHandleEvents
  (** [sig_hdlr] has set [stop_transfers] *)
  | EvStop
  (** "Transfer callback status ... received ... bytes." *)
  | EvTransferStatus (s : libusb_transfer_status) (received : Z)
  (** the arguments of the two [printf] of lines 83-86, "Transfer Counts:
      ... pass ... fail. ... per pass" and "Data Rate: ... KBps"; both
      print with [%d] *)
  | EvReport (pass fail per_pass : Z) (rate : option Z).

(** Lines 66-78: the counters. *)
Definition count_completion (g : globals) (transfer : libusb_transfer) : globals :=
  let ok := completed (status transfer) in
  let size := if ok then actual_length transfer else 0 in
  {| queuedepth := queuedepth g;
     success_count :=
       if ok then unsigned (success_count g + 1) else success_count g;
     failure_count :=
       if ok then failure_count g else unsigned (failure_count g + 1);
     transfer_size := unsigned (transfer_size g + size);
     transfer_index := unsigned (transfer_index g + 1);
     stop_transfers := stop_transfers g;
     xfers_in_progress := int (xfers_in_progress g - 1);
     tv_start := tv_start g;
     tv_end := tv_end g |}.

Definition status_message (transfer : libusb_transfer) : list event :=
  if completed (status transfer) then []
  else [EvTransferStatus (status transfer) (actual_length transfer)].

(** Lines 79-90: the end of a window; [now] is what [gettimeofday]
    returns. *)
Definition window_report (g : globals) (transfer : libusb_transfer)
    (now : timeval) : globals * list event :=
  if transfer_index g =? queuedepth g then
    let elapsed_time := elapsed_usec (tv_start g) now in
    ({| queuedepth := queuedepth g;
        success_count := success_count g;
        failure_count := failure_count g;
        transfer_size := 0;
        transfer_index := 0;
        stop_transfers := stop_transfers g;
        xfers_in_progress := xfers_in_progress g;
        tv_start := now;
        tv_end := now |},
     [EvReport (success_count g) (failure_count g) (actual_length transfer)
        (data_rate (transfer_size g) elapsed_time)])
  else (g, []).

(** Lines 92-95: the resubmission; [submit_ret] is what
    [libusb_submit_transfer] returns. *)
Definition resubmit (g : globals) (transfer : libusb_transfer)
    (submit_ret : Z) : globals * list event :=
  if stop_transfers g then (g, [])
  else
    ({| queuedepth := queuedepth g;
        success_count := success_count g;
        failure_count := failure_count g;
        transfer_size := transfer_size g;
        transfer_index := transfer_index g;
        stop_transfers := stop_transfers g;
        xfers_in_progress :=
          if submit_ret =? 0 then int (xfers_in_progress g + 1)
          else xfers_in_progress g;
        tv_start := tv_start g;
        tv_end := tv_end g |},
     [EvSubmit FromCallback (slot transfer) submit_ret]).

(** [transfer_callback(transfer)]: the new globals and what it printed
    and submitted. *)
Definition transfer_callback (g : globals) (transfer : libusb_transfer)
    (now : timeval) (submit_ret : Z) : globals * list event :=
  let g1 := count_completion g transfer in
  let '(g2, report) := window_report g1 transfer now in
  let '(g3, submitted) := resubmit g2 transfer submit_ret in
  (g3, status_message transfer ++ report ++ submitted).

(** One completion as the callback sees it: the transfer, the clock and
    the result of the resubmission. *)
Record completion : Type := Completion {
  c_transfer : libusb_transfer;
  c_now : timeval;
  c_submit_ret : Z
}.

(** The callback run on a sequence of completions. *)
Fixpoint run_callbacks (g : globals) (cs : list completion)
    : globals * list event :=
  match cs with
  | [] => (g, [])
  | c :: cs' =>
      let '(g1, ev1) :=
        transfer_callback g (c_transfer c) (c_now c) (c_submit_ret c) in
      let '(g2, ev2) := run_callbacks g1 cs' in
      (g2, ev1 ++ ev2)
  end.

(** The bytes a sequence of completions adds to [transfer_size]. *)
Definition received (c : completion) : Z :=
  if completed (status (c_transfer c)) then actual_length (c_transfer c) else 0.

Definition window_bytes (cs : list completion) : Z :=
  unsigned (fold_right Z.add 0 (map received cs)).

Definition is_report (e : event) : bool :=
  match e with
  | EvReport _ _ _ _ => true
  | _ => false
  end.

Definition reports (evs : list event) : list event := List.filter is_report evs.

(** The callback is about to close a window. *)
Definition at_boundary (g : globals) : bool :=
  unsigned (transfer_index g + 1) =? queuedepth g.

(** What lines 92-95 submit. *)
Definition callback_submits (g : globals) (t : libusb_transfer) (ret : Z) : list event :=
  if stop_transfers g then [] else [EvSubmit FromCallback (slot t) ret].

Definition is_submit (o : origin) (e : event) : Prop :=
  exists i ret, e = EvSubmit o i ret.

(** A window of 16 transfers of 64 KiB that ends one second after the
    start of the session. *)
Definition full_window : list completion :=
  repeat (Completion (Transfer 0 LIBUSB_TRANSFER_COMPLETED 65536) (Timeval 1 0) 0) 16.

Definition one_success : completion :=
  Completion (Transfer 0 LIBUSB_TRANSFER_COMPLETED 65536) (Timeval 1 0) 0.

(** ** my_usb_example.c: the streaming session of [main] *)

(** An array of pointers obtained from [calloc]: the pointer is NULL, or
    points to the array, whose entries are NULL ([false]) or allocated
    ([true]), or dangles after [free]. *)
Inductive pointer_array : Type :=
  | Null
  | Live (entries : list bool)
  | Freed.

Record memory : Type := Memory {
  databuffers : pointer_array;
  transfers : pointer_array
}.

(** The results of the allocator: of the two [calloc], and of [malloc]
    and [libusb_alloc_transfer] for each index. *)
Record allocator : Type := Allocator {
  calloc_databuffers : bool;
  calloc_transfers : bool;
  malloc_ok : nat -> bool;
  alloc_transfer_ok : nat -> bool
}.

(** The number of allocations that have not been released. *)
Definition live_in (a : pointer_array) : nat :=
  match a with
  | Live entries => S (List.length (List.filter id entries))
  | _ => 0
  end.

Definition live_blocks (m : memory) : nat :=
  (live_in (databuffers m) + live_in (transfers m))%nat.

(** Lines 250-257: the loop that fills the two arrays, [n] passes from
    index [i]; the last component is [allocfail]. *)
Fixpoint allocate_loop (a : allocator) (n i : nat) (db tr : list bool)
    : list bool * list bool * bool :=
  match n with
  | O => (db, tr, false)
  | S n' =>
      let db' := <[i := malloc_ok a i]> db in
      let tr' := <[i := alloc_transfer_ok a i]> tr in
      if negb (malloc_ok a i) || negb (alloc_transfer_ok a i)
      then (db', tr', true)
      else allocate_loop a n' (S i) db' tr'
  end.

(** Lines 243-261. *)
Definition allocate (qd : Z) (a : allocator) : memory * bool :=
  let n := Z.to_nat qd in
  if calloc_databuffers a && calloc_transfers a then
    let '(db, tr, allocfail) :=
      allocate_loop a n 0 (replicate n false) (replicate n false) in
    (Memory (Live db) (Live tr), allocfail)
  else
    (Memory (if calloc_databuffers a then Live (replicate n false) else Null)
            (if calloc_transfers a then Live (replicate n false) else Null),
     true).

(** [free_transfer_buffers]: an array that is not NULL has its entries
    released and set to NULL, then is released itself; reading an array
    that has been released already is undefined ([None]). *)
Definition free_array (a : pointer_array) : option pointer_array :=
  match a with
  | Null => Some Null
  | Live _ => Some Freed
  | Freed => None
  end.

Definition free_transfer_buffers (m : memory) : option memory :=
  match free_array (databuffers m), free_array (transfers m) with
  | Some db, Some tr => Some (Memory db tr)
  | _, _ => None
  end.

(** Where [main] is. *)
Inductive place : Type :=
  (** in the loop of lines 270-277, at index [i] *)
  | Submitting (i : nat)
  (** in [libusb_handle_events], called from the loop of lines 287-290 *)
  | Dispatching
  (** in [libusb_handle_events], called from the loop of lines 295-299 *)
  | Draining
  (** past line 304 *)
  | Drained
  (** after an access to memory that is NULL or released *)
  | Undefined.

(** A state of the session: the globals, the memory, the transfers the
    transport holds, what happened so far and where [main] is. *)
Record session : Type := Session {
  vars : globals;
  mem : memory;
  pending : gset nat;
  trace : list event;
  at_ : place
}.

(** What the environment does. A step that the environment cannot take
    in a state leaves the state as it is. A callback is one step, run to
    its end inside [libusb_handle_events]; a signal is taken between two
    steps. *)
Inductive label : Type :=
  (** [libusb_submit_transfer] returns in the loop of lines 270-277 *)
  | SubmitReturns (ret : Z)
  (** the transport runs the callback of a transfer it holds *)
  | Completes (c : completion)
  (** [libusb_handle_events] returns *)
  | HandleEventsReturns
  (** SIGINT: [sig_hdlr] runs *)
  | Signal.

Definition set_stop (g : globals) : globals :=
  {| queuedepth := queuedepth g;
     success_count := success_count g;
     failure_count := failure_count g;
     transfer_size := transfer_size g;
     transfer_index := transfer_index g;
     stop_transfers := true;
     xfers_in_progress := xfers_in_progress g;
     tv_start := tv_start g;
     tv_end := tv_end g |}.

Definition set_tv_start (g : globals) (now : timeval) : globals :=
  {| queuedepth := queuedepth g;
     success_count := success_count g;
     failure_count := failure_count g;
     transfer_size := transfer_size g;
     transfer_index := transfer_index g;
     stop_transfers := stop_transfers g;
     xfers_in_progress := xfers_in_progress g;
     tv_start := now;
     tv_end := tv_end g |}.

Definition incr_xfers (g : globals) : globals :=
  {| queuedepth := queuedepth g;
     success_count := success_count g;
     failure_count := failure_count g;
     transfer_size := transfer_size g;
     transfer_index := transfer_index g;
     stop_transfers := stop_transfers g;
     xfers_in_progress := int (xfers_in_progress g + 1);
     tv_start := tv_start g;
     tv_end := tv_end g |}.

(** [sig_hdlr]. *)
Definition sig_hdlr (s : session) : session :=
  {| vars := set_stop (vars s);
     mem := mem s;
     pending := pending s;
     trace := trace s ++ [EvStop];
     at_ := at_ s |}.

(** Lines 279-288: the two commands, then the first call of
    [libusb_handle_events]. *)
Definition enter_dispatch (s : session) : session :=
  {| vars := vars s;
     mem := mem s;
     pending := pending s;
     trace := trace s ++ [EvCommand STARTADC (150 * 1000 * 1000);
                          EvCommand STARTFX3 0; EvHandleEvents];
     at_ := Dispatching |}.

(** The head of the loop of lines 270-277 at index [i]. *)
Definition submit_loop (s : session) (i : nat) : session :=
  if Z.of_nat i <? queuedepth (vars s) then
    {| vars := vars s; mem := mem s; pending := pending s;
       trace := trace s; at_ := Submitting i |}
  else enter_dispatch s.

(** [transfers[i]] can be filled and submitted: both arrays can be read
    and the transfer structure is there. *)
Definition slot_ready (m : memory) (i : nat) : bool :=
  match databuffers m, transfers m with
  | Live _, Live tr => bool_decide (tr !! i = Some true)
  | _, _ => false
  end.

(** Lines 271-276: one pass of the loop. *)
Definition submit_initial (s : session) (i : nat) (ret : Z) : session :=
  if slot_ready (mem s) i then
    submit_loop
      {| vars := if ret =? 0 then incr_xfers (vars s) else vars s;
         mem := mem s;
         pending := if ret =? 0 then {[i]} ∪ pending s else pending s;
         trace := trace s ++ [EvSubmit FromMain i ret];
         at_ := at_ s |}
      (S i)
  else
    {| vars := vars s; mem := mem s; pending := pending s;
       trace := trace s; at_ := Undefined |}.

(** The transport takes the transfer back and runs [transfer_callback]
    on it; a resubmission that succeeds hands it to the transport again. *)
Definition complete (s : session) (c : completion) : session :=
  let i := slot (c_transfer c) in
  if bool_decide (i ∈ pending s) then
    let '(g, evs) :=
      transfer_callback (vars s) (c_transfer c) (c_now c) (c_submit_ret c) in
    {| vars := g;
       mem := mem s;
       pending :=
         if negb (stop_transfers (vars s)) && (c_submit_ret c =? 0)
         then pending s
         else pending s ∖ {[i]};
       trace := trace s ++ evs;
       at_ := at_ s |}
  else s.

(** Lines 301-304: the end of the session. *)
Definition finish (s : session) : session :=
  match free_transfer_buffers (mem s) with
  | Some m =>
      {| vars := vars s; mem := m; pending := pending s;
         trace := trace s ++ [EvFreeTransferBuffers; EvCommand STOPFX3 0];
         at_ := Drained |}
  | None =>
      {| vars := vars s; mem := mem s; pending := pending s;
         trace := trace s ++ [EvFreeTransferBuffers];
         at_ := Undefined |}
  end.

(** The head of the loop of lines 295-299. *)
Definition drain_loop (s : session) : session :=
  if xfers_in_progress (vars s) =? 0 then finish s
  else
    {| vars := vars s; mem := mem s; pending := pending s;
       trace := trace s ++ [EvHandleEvents]; at_ := Draining |}.

(** The test of the loop of lines 287-290, and line 293. *)
Definition dispatch_loop (s : session) : session :=
  if stop_transfers (vars s) then
    drain_loop {| vars := set_stop (vars s); mem := mem s;
                  pending := pending s; trace := trace s; at_ := at_ s |}
  else
    {| vars := vars s; mem := mem s; pending := pending s;
       trace := trace s ++ [EvHandleEvents]; at_ := Dispatching |}.

Definition step (s : session) (l : label) : session :=
  match at_ s, l with
  | Drained, _ | Undefined, _ => s
  | _, Signal => sig_hdlr s
  | Submitting i, SubmitReturns ret => submit_initial s i ret
  | Dispatching, Completes c | Draining, Completes c => complete s c
  | Dispatching, HandleEventsReturns => dispatch_loop s
  | Draining, HandleEventsReturns => drain_loop s
  | _, _ => s
  end.

Definition run (s : session) (ls : list label) : session := fold_left step ls s.

(** Lines 243-268: the allocation, the release after a failed
    allocation, which does not leave [main], and [gettimeofday]; then
    the loop of the first submissions begins. *)
Definition start (qd : Z) (a : allocator) (now : timeval) : session :=
  let '(m, allocfail) := allocate qd a in
  let s0 :=
    {| vars := set_tv_start (initial_globals qd) now;
       mem := m; pending := ∅; trace := []; at_ := Submitting 0 |} in
  if allocfail then
    match free_transfer_buffers m with
    | Some m' =>
        submit_loop
          {| vars := vars s0; mem := m'; pending := ∅;
             trace := [EvAllocFailed; EvFreeTransferBuffers];
             at_ := Submitting 0 |} 0
    | None =>
        {| vars := vars s0; mem := m; pending := ∅;
           trace := [EvAllocFailed; EvFreeTransferBuffers];
           at_ := Undefined |}
    end
  else submit_loop s0 0.

(** The state after the first [n] steps of an unending environment. *)
Definition run_stream (s : session) (env : nat -> label) (n : nat) : session :=
  run s (map env (seq 0 n)).

(** An allocator that never fails. *)
Definition allocator_ok : allocator :=
  {| calloc_databuffers := true; calloc_transfers := true;
     malloc_ok := fun _ => true; alloc_transfer_ok := fun _ => true |}.

(** *** Invariants of the session *)

(** The invariant of the session: the counter counts the transfers the
    transport holds, all of them below [qd]. *)
Definition session_inv (qd : Z) (s : session) : Prop :=
  queuedepth (vars s) = qd /\
  (forall i, i ∈ pending s -> Z.of_nat i < qd) /\
  xfers_in_progress (vars s) = int (Z.of_nat (size (pending s))) /\
  match at_ s with
  | Submitting i => Z.of_nat i < qd /\ forall j, j ∈ pending s -> (j < i)%nat
  | _ => True
  end.

(** [main] is in one of its two loops around [libusb_handle_events]. *)
Definition dispatching (s : session) : Prop :=
  at_ s = Dispatching \/ at_ s = Draining.

(** The transport completes every transfer it holds, sooner or later. *)
Definition eventually_completes (s : session) (env : nat -> label) : Prop :=
  forall n i, i ∈ pending (run_stream s env n) ->
    exists m c, (n <= m)%nat /\ env m = Completes c /\ slot (c_transfer c) = i.

(** The stop flag is set and [main] is past the first submissions. *)
Definition stopping (s : session) : Prop :=
  stop_transfers (vars s) = true /\
  (dispatching s \/ (at_ s = Drained \/ at_ s = Undefined) /\ pending s = ∅).

(** Both arrays and every entry allocated. *)
Definition all_allocated (n : nat) : memory :=
  Memory (Live (replicate n true)) (Live (replicate n true)).

Definition in_submit_loop (s : session) : Prop := exists i, at_ s = Submitting i.

(** Until the session has drained, every buffer is still allocated. *)
Definition mem_inv (n : nat) (s : session) : Prop :=
  match at_ s with
  | Drained => xfers_in_progress (vars s) = 0 /\ live_blocks (mem s) = 0%nat
  | Undefined => False
  | _ => mem s = all_allocated n /\ ~ In EvFreeTransferBuffers (trace s)
  end.

(** *** Environments *)

(** The transport completes slot 0 again and again. *)
Definition slot0_completes : nat -> label :=
  fun _ => Completes (Completion (Transfer 0 LIBUSB_TRANSFER_COMPLETED 512)
                        (Timeval 1 0) 0).

Definition completion_of (i : nat) (sec : Z) : completion :=
  Completion (Transfer i LIBUSB_TRANSFER_COMPLETED 131072) (Timeval sec 0) 0.

(** Two transfers queued, one completion, then SIGINT and the drain. *)
Definition interrupted_session : list label :=
  [SubmitReturns 0; SubmitReturns 0; Completes (completion_of 0 1);
   HandleEventsReturns; Signal; Completes (completion_of 1 2);
   HandleEventsReturns; Completes (completion_of 0 3); HandleEventsReturns].

(** The first [malloc] of a data buffer fails. *)
Definition failing_allocator : allocator :=
  {| calloc_databuffers := true; calloc_transfers := true;
     malloc_ok := fun i => negb (i =? 0)%nat; alloc_transfer_ok := fun _ => true |}.

(** ** More of ezusb.c *)

(** Every request of [tr], issued after [hist] and the requests before
    it, was accepted by the device. *)
Fixpoint all_accepted (transport : list control_transfer -> control_transfer -> Z)
    (hist tr : list control_transfer) : Prop :=
  match tr with
  | [] => True
  | req :: rest =>
      0 <= transport hist req /\ all_accepted transport (hist ++ [req]) rest
  end.

(** How a loop that issues [tr] after [hist] ends: every request
    accepted, or all but the last, which returned [ret]. *)
Definition stops_at_failure (transport : list control_transfer -> control_transfer -> Z)
    (hist tr : list control_transfer) (ret : Z) : Prop :=
  exists tr' req,
    tr = tr' ++ [req] /\ all_accepted transport hist tr' /\
    transport (hist ++ tr') req = ret /\ ret < 0.

(** The offset behind the last of [segs], when the first header is at
    [offset]: a header takes 8 bytes. *)
Fixpoint segments_end (offset : Z) (segs : list segment) : Z :=
  match segs with
  | [] => offset
  | seg :: rest => segments_end (offset + 8 + seg_length seg) rest
  end.

(** The segments lie back to back from [offset] on, each payload 8 bytes
    behind the end of the payload before it. *)
Fixpoint laid_out (offset : Z) (segs : list segment) : Prop :=
  match segs with
  | [] => True
  | seg :: rest =>
      seg_offset seg = offset + 8 /\
      laid_out (seg_offset seg + seg_length seg) rest
  end.

(** What libusb answers to [ezusb_upload_firmware]: the return values of
    [libusb_open], [libusb_kernel_driver_active],
    [libusb_detach_kernel_driver] and [libusb_set_configuration]. *)
Record usb_host : Type := UsbHost {
  open_ret : Z;
  kernel_driver_active : Z;
  detach_ret : Z;
  set_configuration_ret : Z
}.

(** The calls of libusb that [ezusb_upload_firmware] and
    [usb_match_manuf_prod] make. *)
Inductive host_event : Type :=
  | HostOpen
  | HostDetachKernelDriver
  | HostSetConfiguration (configuration : Z)
  | HostControl (t : control_transfer)
  | HostGetDeviceDescriptor
  | HostGetStringDescriptor (index : Z)
  | HostClose.

(** [ezusb_upload_firmware(dev, configuration, filename)], as compiled
    where [__APPLE__] is not defined: the return value and the calls
    made, in order. *)
Definition ezusb_upload_firmware (host : usb_host)
    (transport : list control_transfer -> control_transfer -> Z)
    (configuration : Z) (file : option (list byte))
    : option (Z * list host_event) :=
  if open_ret host <? 0 then Some (-1, [HostOpen])
  else
    let detach :=
      if kernel_driver_active host =? 1 then [HostDetachKernelDriver] else [] in
    if (kernel_driver_active host =? 1) && (detach_ret host <? 0)
    then Some (-1, [HostOpen] ++ detach)
    else
      let opened := [HostOpen] ++ detach ++ [HostSetConfiguration configuration] in
      if set_configuration_ret host <? 0 then Some (-1, opened)
      else
        match ezusb_install_firmware transport file with
        | None => None
        | Some (m, tr) =>
            if install_return m <? 0
            then Some (-1, opened ++ map HostControl tr)
            else Some (0, opened ++ map HostControl tr ++ [HostClose])
        end.

(** A device that rejects the second control transfer it gets. *)
Definition reject_second : list control_transfer -> control_transfer -> Z :=
  fun hist _ => if Nat.eqb (length hist) 1 then -1 else 0.

(** Two segments of 4 bytes, at addresses 0 and 0x100, and a checksum. *)
Definition two_segment_image : list byte :=
  ["C"; "Y"; x00; xb0;
   x01; x00; x00; x00; x00; x00; x00; x00; xde; xad; xbe; xef;
   x01; x00; x00; x00; x00; x01; x00; x00; xca; xfe; xba; xbe;
   x11; x22; x33; x44]%byte.

(** A host on which every call succeeds, with no kernel driver bound. *)
Definition host_ok : usb_host :=
  {| open_ret := 0; kernel_driver_active := 0; detach_ret := 0;
     set_configuration_ret := 0 |}.

(** What [usb_match_manuf_prod] reads of the device: the result of
    [libusb_open], the two string indexes of the device descriptor, and
    what [libusb_get_string_descriptor_ascii] leaves in [strdesc] for an
    index ([None] where it returns a negative value). *)
Record usb_device : Type := UsbDevice {
  dev_open_ret : Z;
  iManufacturer : Z;
  iProduct : Z;
  string_descriptor_ascii : Z -> option (list byte)
}.

(** [strcmp]: the difference of the first two bytes that differ, 0 when
    both strings end first; a string ends at its NUL byte, which is also
    what lies behind the last byte of the list. *)
Fixpoint strcmp (s1 s2 : list byte) : Z :=
  match s1, s2 with
  | [], [] => 0
  | [], c2 :: _ => 0 - uchar c2
  | c1 :: _, [] => uchar c1
  | c1 :: r1, c2 :: r2 =>
      if uchar c1 =? uchar c2
      then (if uchar c1 =? 0 then 0 else strcmp r1 r2)
      else uchar c1 - uchar c2
  end.

(** The bytes of a C string, up to its NUL. *)
Fixpoint c_str (s : list byte) : list byte :=
  match s with
  | [] => []
  | c :: r => if uchar c =? 0 then [] else c :: c_str r
  end.

(** The loop [while (!ret)] of [usb_match_manuf_prod]: [ret], whether
    [hdl] is not NULL, and the calls made. *)
Fixpoint usb_match_loop (fuel : nat) (dev : usb_device)
    (manufacturer product : list byte) (ret hdl : bool)
    (evs : list host_event) : option (bool * bool * list host_event) :=
  if ret then Some (ret, hdl, evs)
  else
    match fuel with
    | O => None
    | S fuel' =>
        let evs1 := evs ++ [HostGetDeviceDescriptor; HostOpen] in
        if negb (dev_open_ret dev =? 0) then Some (false, hdl, evs1)
        else
          let evs2 := evs1 ++ [HostGetStringDescriptor (iManufacturer dev)] in
          match string_descriptor_ascii dev (iManufacturer dev) with
          | None => Some (false, true, evs2)
          | Some strdesc =>
              if negb (strcmp strdesc manufacturer =? 0)
              then Some (false, true, evs2)
              else
                let evs3 := evs2 ++ [HostGetStringDescriptor (iProduct dev)] in
                match string_descriptor_ascii dev (iProduct dev) with
                | None => Some (false, true, evs3)
                | Some strdesc =>
                    if negb (strcmp strdesc product =? 0)
                    then Some (false, true, evs3)
                    else usb_match_loop fuel' dev manufacturer product
                           true true evs3
                end
          end
    end.

(** [usb_match_manuf_prod(dev, manufacturer, product)]: the result and
    the calls made, in order. *)
Definition usb_match_manuf_prod (fuel : nat) (dev : usb_device)
    (manufacturer product : list byte) : option (bool * list host_event) :=
  match usb_match_loop fuel dev manufacturer product false false [] with
  | None => None
  | Some (ret, hdl, evs) => Some (ret, evs ++ if hdl then [HostClose] else [])
  end.

(** ** More of my_usb_example.c *)

(** The slots [main] submitted, in order. *)
Definition main_submits (evs : list event) : list nat :=
  flat_map (fun e => match e with EvSubmit FromMain i _ => [i] | _ => [] end) evs.

(** The commands sent, in order. *)
Definition commands (evs : list event) : list (FX3Command * Z) :=
  flat_map (fun e => match e with EvCommand c arg => [(c, arg)] | _ => [] end) evs.

(** The commands of a whole session. *)
Definition session_commands : list (FX3Command * Z) :=
  [(STARTADC, 150 * 1000 * 1000); (STARTFX3, 0); (STOPFX3, 0)].

(** The order of the actions of [main]: the slots in order, the two start
    commands behind the last of them, the stop command at the end. *)
Definition main_order (qd : Z) (s : session) : Prop :=
  queuedepth (vars s) = qd /\
  match at_ s with
  | Submitting i =>
      main_submits (trace s) = seq 0 i /\ Z.of_nat i < qd /\
      commands (trace s) = []
  | Dispatching | Draining =>
      main_submits (trace s) = seq 0 (Z.to_nat qd) /\
      commands (trace s) = take 2 session_commands
  | Drained =>
      main_submits (trace s) = seq 0 (Z.to_nat qd) /\
      commands (trace s) = session_commands
  | Undefined =>
      exists k, main_submits (trace s) = seq 0 k /\ Z.of_nat k <= qd /\
        (commands (trace s) = [] \/
         k = Z.to_nat qd /\ commands (trace s) = take 2 session_commands)
  end.

Definition is_status (e : event) : bool :=
  match e with
  | EvTransferStatus _ _ => true
  | _ => false
  end.

(** The lines "Transfer callback status ..." of a log. *)
Definition status_messages (evs : list event) : list event :=
  List.filter is_status evs.

(** The completions with status [LIBUSB_TRANSFER_COMPLETED], and the
    others. *)
Definition successes (cs : list completion) : list completion :=
  List.filter (fun c => completed (status (c_transfer c))) cs.

Definition failures (cs : list completion) : list completion :=
  List.filter (fun c => negb (completed (status (c_transfer c)))) cs.

(** [main] has not stopped and has not released anything. *)
Definition running (s : session) : Prop :=
  stop_transfers (vars s) = false /\
  at_ s <> Drained /\ at_ s <> Draining /\
  ~ In EvStop (trace s) /\
  ~ In (EvCommand STOPFX3 0) (trace s).

(** The first index below [n], from [i] on, at which [malloc] or
    [libusb_alloc_transfer] fails. *)
Fixpoint first_failure (a : allocator) (n i : nat) : option nat :=
  match n with
  | O => None
  | S n' =>
      if malloc_ok a i && alloc_transfer_ok a i
      then first_failure a n' (S i)
      else Some i
  end.

(** A session in which every resubmission fails. *)
Definition failing_resubmissions : list label :=
  [SubmitReturns 0; SubmitReturns 0;
   Completes (Completion (Transfer 0 LIBUSB_TRANSFER_COMPLETED 512) (Timeval 1 0) (-1));
   Completes (Completion (Transfer 1 LIBUSB_TRANSFER_ERROR 0) (Timeval 1 0) (-1))].

(** A device with the strings "ab" and "c". *)
Definition named_device : usb_device :=
  {| dev_open_ret := 0; iManufacturer := 1; iProduct := 2;
     string_descriptor_ascii := fun i =>
       if i =? 1 then Some ["a"; "b"; x00]%byte
       else if i =? 2 then Some ["c"; x00]%byte else None |}.

(** ** The data rate, in real numbers *)

(** The real number a mantissa and an exponent stand for. *)
Definition F2R (m e : Z) : R := (IZR m * powerRZ 2 e)%R.

(** [z] is [x] up to the rounding of one operation. *)
Definition close (z x : R) : Prop :=
  (z * (1 - / IZR (2 ^ 52)) <= x <= z * (1 + / IZR (2 ^ 52)))%R.

(** What [printf] shows for a 32-bit argument under [%d]: the argument
    read as an [int]. *)
Definition printf_d (x : Z) : Z := int x.

(** ** More images *)

(** A segment header that declares 0x40000001 words at address
    0x40000100, 4 bytes of payload and the 4 bytes of a checksum. *)
Definition wrapped_payload_image : list byte :=
  ["C"; "Y"; x00; xb0; x01; x00; x00; x40; x00; x01; x00; x40;
   xde; xad; xbe; xef; x01; x02; x03; x04]%byte.

(** ** More of the session *)

(** *** SIGINT while the callback runs

    [sig_hdlr] is installed by [sigaction] with an empty mask and runs
    where the signal finds the program, also inside [transfer_callback].
    It writes [stop_transfers] and nothing else, and the callback reads
    the flag once, in the test of line 92. A signal that arrives before
    that test acts on the callback as one that arrives before the
    callback, and a signal after the call of line 93 as one that arrives
    after the callback: these are steps [Signal] and [Completes] of
    [step]. What is left is the signal between the test of line 92 and
    the call of line 93: the test has read the flag as it was, the
    handler sets it, and the call of line 93 follows. *)
Inductive async_label : Type :=
  (** a step in which no signal arrives inside a callback *)
  | Sync (l : label)
  (** the transport runs the callback of a transfer it holds, and SIGINT
      arrives [S again] times between the test of line 92 and line 93 *)
  | CompletesInterrupted (c : completion) (again : nat).

(** The callback with [sig_hdlr] run between line 92 and line 93. *)
Definition complete_interrupted (s : session) (c : completion) (again : nat)
    : session :=
  let i := slot (c_transfer c) in
  if bool_decide (i ∈ pending s) then
    let g1 := count_completion (vars s) (c_transfer c) in
    let '(g2, report) := window_report g1 (c_transfer c) (c_now c) in
    let '(g3, submitted) := resubmit g2 (c_transfer c) (c_submit_ret c) in
    {| vars := set_stop g3;
       mem := mem s;
       pending :=
         if negb (stop_transfers (vars s)) && (c_submit_ret c =? 0)
         then pending s
         else pending s ∖ {[i]};
       trace := trace s ++ status_message (c_transfer c) ++ report
                  ++ replicate (S again) EvStop ++ submitted;
       at_ := at_ s |}
  else s.

Definition step_async (s : session) (l : async_label) : session :=
  match l with
  | Sync l => step s l
  | CompletesInterrupted c again =>
      match at_ s with
      | Dispatching | Draining => complete_interrupted s c again
      | _ => s
      end
  end.

Definition run_async (s : session) (ls : list async_label) : session :=
  fold_left step_async ls s.

Definition is_interrupted (l : async_label) : bool :=
  match l with
  | Sync _ => false
  | CompletesInterrupted _ _ => true
  end.

Definition is_callback_submit (e : event) : bool :=
  match e with
  | EvSubmit FromCallback _ _ => true
  | _ => false
  end.

(** The number of submissions by the callback among [evs]. *)
Definition count_callback_submits (evs : list event) : nat :=
  length (List.filter is_callback_submit evs).

(** What the trace of a session looks like; [k] bounds the submissions
    of the callback after a stop. *)
Definition trace_ok (k : nat) (s : session) : Prop :=
  (stop_transfers (vars s) = false -> ~ In EvStop (trace s)) /\
  (forall t1 t2, trace s = t1 ++ EvStop :: t2 ->
     (count_callback_submits t2 <= k)%nat) /\
  (in_submit_loop s -> ~ In EvHandleEvents (trace s)) /\
  (forall t1 t2, trace s = t1 ++ EvHandleEvents :: t2 ->
     Forall (fun e => ~ is_submit FromMain e) t2).

(** 1 when a signal arrives inside a callback, between line 92 and
    line 93, and else 0. *)
Definition interruptions (ls : list async_label) : nat :=
  if existsb is_interrupted ls then 1%nat else 0%nat.

(** SIGINT before the first submissions of [main]. *)
Definition early_signal : list label :=
  [Signal; SubmitReturns 0; SubmitReturns 0].

(** Two transfers queued; SIGINT arrives in the callback of the first
    completion, after its test of the flag; then the drain. *)
Definition raced_session : list async_label :=
  [Sync (SubmitReturns 0); Sync (SubmitReturns 0);
   CompletesInterrupted (completion_of 0 1) 0;
   Sync HandleEventsReturns;
   Sync (Completes (completion_of 1 2)); Sync HandleEventsReturns;
   Sync (Completes (completion_of 0 3)); Sync HandleEventsReturns].

(** * Facts *)

(** ** Bytes and machine integers *)

Lemma uchar_range b : 0 <= uchar b < 256.
Proof.
  unfold uchar. pose proof (Byte.to_N_bounded b). lia.
Qed.

Lemma uchar_inj b c : uchar b = uchar c -> b = c.
Proof.
  unfold uchar. intros H. apply N2Z.inj in H.
  pose proof (Byte.of_to_N b) as Hb. pose proof (Byte.of_to_N c) as Hc.
  rewrite H in Hb. congruence.
Qed.

Lemma byte_at_range x i : 0 <= byte_at x i < 256.
Proof. apply uchar_range. Qed.

Lemma lor_shifted hi lo n :
  0 <= n -> 0 <= hi -> 0 <= lo < 2 ^ n -> Z.lor (hi * 2 ^ n) lo = hi * 2 ^ n + lo.
Proof.
  intros Hn Hhi Hlo.
  assert (Hland : Z.land (hi * 2 ^ n) lo = 0).
  { apply Z.bits_inj'. intros i Hi. rewrite Z.land_spec, Z.bits_0.
    destruct (Z.lt_ge_cases i n).
    - rewrite Z.mul_pow2_bits_low by lia. reflexivity.
    - destruct (Z.eq_dec lo 0) as [->|Hne].
      + rewrite Z.bits_0. apply andb_false_r.
      + rewrite (Z.bits_above_log2 lo i); [apply andb_false_r | lia |].
        apply Z.log2_lt_pow2; [lia|].
        apply Z.lt_le_trans with (2 ^ n); [lia|].
        apply Z.pow_le_mono_r; lia. }
  rewrite Z.add_nocarry_lxor by exact Hland.
  apply Z.lxor_lor in Hland. symmetry. exact Hland.
Qed.

Lemma RL32_value firmware off :
  RL32 firmware off =
    byte_at firmware off + 2 ^ 8 * byte_at firmware (off + 1)
    + 2 ^ 16 * byte_at firmware (off + 2) + 2 ^ 24 * byte_at firmware (off + 3).
Proof.
  unfold RL32, unsigned.
  pose proof (byte_at_range firmware off).
  pose proof (byte_at_range firmware (off + 1)).
  pose proof (byte_at_range firmware (off + 2)).
  pose proof (byte_at_range firmware (off + 3)).
  rewrite !Z.shiftl_mul_pow2 by lia.
  rewrite !Z.mod_small by lia.
  rewrite (lor_shifted (byte_at firmware (off + 3)) _ 24) by lia.
  replace (byte_at firmware (off + 3) * 2 ^ 24 + byte_at firmware (off + 2) * 2 ^ 16)
    with ((byte_at firmware (off + 3) * 2 ^ 8 + byte_at firmware (off + 2)) * 2 ^ 16) by lia.
  rewrite (lor_shifted _ _ 16) by lia.
  replace ((byte_at firmware (off + 3) * 2 ^ 8 + byte_at firmware (off + 2)) * 2 ^ 16
           + byte_at firmware (off + 1) * 2 ^ 8)
    with (((byte_at firmware (off + 3) * 2 ^ 8 + byte_at firmware (off + 2)) * 2 ^ 8
           + byte_at firmware (off + 1)) * 2 ^ 8) by lia.
  rewrite (lor_shifted _ _ 8) by lia.
  lia.
Qed.

Lemma RL32_range firmware off : 0 <= RL32 firmware off < 2 ^ 32.
Proof.
  rewrite RL32_value.
  pose proof (byte_at_range firmware off).
  pose proof (byte_at_range firmware (off + 1)).
  pose proof (byte_at_range firmware (off + 2)).
  pose proof (byte_at_range firmware (off + 3)).
  lia.
Qed.

Lemma segment_sublength_value firmware off :
  segment_sublength firmware off = (RL32 firmware off * 4) mod 2 ^ 32.
Proof.
  unfold segment_sublength, unsigned. rewrite Z.shiftl_mul_pow2 by lia. reflexivity.
Qed.

Lemma segment_sublength_range firmware off :
  0 <= segment_sublength firmware off < 2 ^ 32.
Proof. unfold segment_sublength, unsigned. apply Z.mod_pos_bound. lia. Qed.

Lemma chunk_count_lt len k :
  0 <= len ->
  (k < chunk_count len)%nat <-> (k = 0%nat \/ FW_CHUNKSIZE * Z.of_nat k < len).
Proof.
  intros Hlen. unfold chunk_count, ceil_div, FW_CHUNKSIZE.
  pose proof (Z.div_mod (len + 4 * 1024 - 1) (4 * 1024)) as Hd.
  pose proof (Z.mod_pos_bound (len + 4 * 1024 - 1) (4 * 1024)) as Hm.
  lia.
Qed.

Lemma chunk_count_pos len : (0 < chunk_count len)%nat.
Proof. unfold chunk_count. lia. Qed.

Lemma chunk_count_bound len : 0 <= len -> (chunk_count len <= S (Z.to_nat len))%nat.
Proof.
  intros Hlen. unfold chunk_count, ceil_div, FW_CHUNKSIZE.
  pose proof (Z.div_mod (len + 4 * 1024 - 1) (4 * 1024)) as Hd.
  pose proof (Z.mod_pos_bound (len + 4 * 1024 - 1) (4 * 1024)) as Hm.
  lia.
Qed.

Lemma land_ffff x : Z.land x 0xffff = x mod 2 ^ 16.
Proof. change 0xffff with (Z.ones 16). apply Z.land_ones. lia. Qed.

Section InstallFacts.
Variable transport : list control_transfer -> control_transfer -> Z.

Lemma chunk_transfer_request firmware length seg k :
  segment_in_image length seg -> length <= max_size ->
  (k < chunk_count (seg_length seg))%nat ->
  chunk_transfer firmware (seg_addr seg) (seg_offset seg) (seg_length seg)
    (FW_CHUNKSIZE * Z.of_nat k) = chunk_request firmware seg k.
Proof.
  intros (Ha & Ho & Hl & Hol) Hmax Hk.
  apply chunk_count_lt in Hk; [|exact Hl].
  unfold max_size in Hmax. unfold FW_CHUNKSIZE in *.
  unfold chunk_transfer, chunk_request, control_request, FW_CHUNKSIZE.
  assert (Hs : 0 <= 4 * 1024 * Z.of_nat k <= seg_length seg) by lia.
  unfold size_t, MIN.
  rewrite !(Z.mod_small _ (2 ^ 64)) by lia.
  assert (Hn : (if seg_length seg - 4 * 1024 * Z.of_nat k <? 4 * 1024
                then seg_length seg - 4 * 1024 * Z.of_nat k else 4 * 1024)
               = Z.min (4 * 1024) (seg_length seg - 4 * 1024 * Z.of_nat k)).
  { destruct (Z.ltb_spec (seg_length seg - 4 * 1024 * Z.of_nat k) (4 * 1024)); lia. }
  rewrite Hn.
  unfold uint16_t, uint8_t, unsigned.
  rewrite !land_ffff, Z.mod_mod by lia.
  rewrite (Z.mod_small (Z.min _ _)) by lia.
  reflexivity.
Qed.

(** The result of the [do ... while] loop started at chunk [k]. *)
Lemma send_segment_from firmware length seg :
  segment_in_image length seg -> length <= max_size ->
  forall fuel k hist,
    (k < chunk_count (seg_length seg))%nat ->
    (chunk_count (seg_length seg) - k <= fuel)%nat ->
    exists e tr,
      send_segment transport fuel firmware (seg_addr seg) (seg_offset seg)
        (seg_length seg) (FW_CHUNKSIZE * Z.of_nat k) hist = Some (e, tr) /\
      match e with
      | Sent =>
          tr = map (chunk_request firmware seg)
                 (seq k (chunk_count (seg_length seg) - k))
      | SendFailed ret =>
          (exists h r, transport h r = ret /\ ret < 0) /\
          tr `prefix_of` map (chunk_request firmware seg)
                 (seq k (chunk_count (seg_length seg) - k))
      end.
Proof.
  intros Hseg Hmax. induction fuel as [|fuel IH]; intros k hist Hk Hfuel.
  - lia.
  - cbn [send_segment].
    rewrite (chunk_transfer_request firmware length seg k Hseg Hmax Hk).
    set (req := chunk_request firmware seg k).
    replace (chunk_count (seg_length seg) - k)%nat
      with (S (chunk_count (seg_length seg) - S k))%nat by lia.
    cbn [seq map]. fold req.
    destruct (Z.ltb_spec (transport hist req) 0) as [Hneg|Hpos].
    + exists (SendFailed (transport hist req)), [req]. split; [reflexivity|].
      split; [eauto|].
      exists (map (chunk_request firmware seg)
                (seq (S k) (chunk_count (seg_length seg) - S k))).
      reflexivity.
    + destruct Hseg as (Ha & Ho & Hl & Hol).
      pose proof (proj1 (chunk_count_lt (seg_length seg) k Hl) Hk) as Hk'.
      pose proof (chunk_count_lt (seg_length seg) (S k) Hl) as HSk.
      unfold max_size in Hmax. unfold FW_CHUNKSIZE in *.
      assert (Hnext :
        size_t (4 * 1024 * Z.of_nat k
                + MIN (size_t (seg_length seg - 4 * 1024 * Z.of_nat k)) (4 * 1024))
        = if 4 * 1024 * Z.of_nat (S k) <? seg_length seg
          then 4 * 1024 * Z.of_nat (S k) else seg_length seg).
      { unfold size_t, MIN. rewrite (Z.mod_small (_ - _)) by lia.
        destruct (Z.ltb_spec (seg_length seg - 4 * 1024 * Z.of_nat k) (4 * 1024));
          destruct (Z.ltb_spec (4 * 1024 * Z.of_nat (S k)) (seg_length seg));
          rewrite Z.mod_small by lia; lia. }
      rewrite Hnext.
      destruct (Z.ltb_spec (4 * 1024 * Z.of_nat (S k)) (seg_length seg)) as [Hlt|Hge].
      * rewrite (proj2 (Z.ltb_lt _ _) Hlt).
        assert (HkS : (S k < chunk_count (seg_length seg))%nat) by (apply HSk; lia).
        destruct (IH (S k) (hist ++ [req]) HkS ltac:(lia)) as (e & tr & Hrun & Hres).
        unfold FW_CHUNKSIZE in Hrun. rewrite Hrun.
        exists e, (req :: tr). split; [reflexivity|].
        destruct e as [|ret].
        -- rewrite Hres. reflexivity.
        -- destruct Hres as [Hret Hpre]. split; [exact Hret|].
           apply prefix_cons. exact Hpre.
      * rewrite (proj2 (Z.ltb_ge _ _) (Z.le_refl _)).
        exists Sent, [req]. split; [reflexivity|].
        assert (Hlast : (chunk_count (seg_length seg) - S k = 0)%nat).
        { destruct (decide (S k < chunk_count (seg_length seg))%nat) as [Hc|Hc];
            [apply HSk in Hc; lia | lia]. }
        rewrite Hlast. reflexivity.
Qed.

Lemma send_segment_whole firmware length seg hist fuel :
  segment_in_image length seg -> length <= max_size ->
  (chunk_count (seg_length seg) <= fuel)%nat ->
  exists e tr,
    send_segment transport fuel firmware (seg_addr seg) (seg_offset seg)
      (seg_length seg) 0 hist = Some (e, tr) /\
    match e with
    | Sent => tr = segment_transfers firmware seg
    | SendFailed ret =>
        (exists h r, transport h r = ret /\ ret < 0) /\
        tr `prefix_of` segment_transfers firmware seg
    end.
Proof.
  intros Hseg Hmax Hfuel.
  pose proof (send_segment_from firmware length seg Hseg Hmax fuel 0%nat hist
                (chunk_count_pos _) ltac:(lia)) as H.
  change (FW_CHUNKSIZE * Z.of_nat 0) with 0 in H.
  rewrite Nat.sub_0_r in H. exact H.
Qed.

Lemma after_loop_outcome firmware length offset :
  upload_outcome transport firmware [] (after_loop length offset) [].
Proof. unfold after_loop. destruct (offset <? length); reflexivity. Qed.

Lemma upload_loop_run firmware length :
  length <= max_size ->
  forall fuel offset hist,
    4 <= offset <= length ->
    (Z.to_nat (length - offset) < fuel)%nat ->
    exists segs m tr,
      parse_loop fuel firmware length offset = Some segs /\
      upload_loop transport fuel firmware length offset hist = Some (m, tr) /\
      Forall (segment_in_image length) segs /\
      upload_outcome transport firmware segs m tr.
Proof.
  intros Hmax. unfold max_size in Hmax.
  induction fuel as [|fuel IH]; intros offset hist Hoff Hfuel; [lia|].
  cbn [parse_loop upload_loop].
  destruct (Z.ltb_spec offset length) as [Hlt|Hge].
  2:{ exists [], (after_loop length offset), []. repeat split; auto using after_loop_outcome. }
  unfold size_t. rewrite !(Z.mod_small (offset + _)) by lia.
  destruct (Z.eqb_spec (offset + 4) length) as [Hck|Hck].
  { exists [], (after_loop length (offset + 4)), [].
    repeat split; auto using after_loop_outcome. }
  destruct (Z.ltb_spec length (offset + 8)) as [Hshort|Hhdr].
  { exists [], (after_loop length offset), []. repeat split; auto using after_loop_outcome. }
  rewrite !(Z.mod_small (offset + 4 + 4)) by lia.
  rewrite (Z.mod_small (length - _)) by lia.
  set (sublength := segment_sublength firmware offset).
  set (addr := RL32 firmware (offset + 4)).
  pose proof (segment_sublength_range firmware offset) as Hsub. fold sublength in Hsub.
  pose proof (RL32_range firmware (offset + 4)) as Haddr. fold addr in Haddr.
  destruct (Z.gtb_spec sublength (length - (offset + 4 + 4))) as [Hbig|Hfit].
  { exists [], (after_loop length (offset + 4 + 4)), [].
    repeat split; auto using after_loop_outcome. }
  set (seg := Segment addr (offset + 4 + 4) sublength).
  assert (Hseg : segment_in_image length seg).
  { unfold segment_in_image, seg; cbn. lia. }
  destruct (send_segment_whole firmware length seg hist (S (Z.to_nat sublength))
              Hseg ltac:(unfold max_size; lia)
              ltac:(apply chunk_count_bound; lia))
    as (e & tr & Hsend & Hres).
  cbn [seg_addr seg_offset seg_length seg] in Hsend. rewrite Hsend.
  rewrite (Z.mod_small (offset + 4 + 4 + sublength)) by lia.
  destruct (IH (offset + 4 + 4 + sublength) (hist ++ tr) ltac:(lia) ltac:(lia))
    as (segs & m & tr' & Hparse & Hup & Hall & Hout).
  rewrite Hparse. fold seg.
  destruct e as [|ret].
  - rewrite Hup. exists (seg :: segs), m, (tr ++ tr').
    split; [reflexivity|]. split; [reflexivity|]. split; [constructor; assumption|].
    subst tr. unfold upload_outcome in *. cbn [flat_map].
    destruct m; try contradiction.
    + destruct Hout as [Hret Hpre]. split; [exact Hret|].
      apply prefix_app. exact Hpre.
    + rewrite Hout. reflexivity.
    + rewrite Hout. reflexivity.
  - exists (seg :: segs), (UnableToSend ret), tr.
    split; [reflexivity|]. split; [reflexivity|]. split; [constructor; assumption|].
    destruct Hres as [Hret Hpre]. split; [exact Hret|].
    cbn [flat_map]. apply prefix_app_r. exact Hpre.
Qed.
End InstallFacts.

Section InstallTheorems.
Variable transport : list control_transfer -> control_transfer -> Z.

Lemma bad_signature_false_length firmware length :
  bad_signature firmware length = false -> 4 <= length.
Proof.
  unfold bad_signature. rewrite !orb_false_iff. intros [[[H _] _] _].
  apply Z.ltb_ge in H. exact H.
Qed.

Lemma install_run image :
  Z.of_nat (length image) <= max_size ->
  bad_signature image (Z.of_nat (length image)) = false ->
  exists segs m tr,
    parse image = Some segs /\
    ezusb_install_firmware transport (Some image) = Some (m, tr) /\
    Forall (segment_in_image (Z.of_nat (length image))) segs /\
    upload_outcome transport image segs m tr.
Proof.
  intros Hmax Hsig. unfold parse, ezusb_install_firmware.
  destruct (Z.gtb_spec (Z.of_nat (length image)) max_size) as [Hgt|_]; [lia|].
  rewrite Hsig.
  pose proof (bad_signature_false_length _ _ Hsig) as Hlen.
  apply upload_loop_run; [exact Hmax | lia | lia].
Qed.

Lemma install_total file :
  exists m tr, ezusb_install_firmware transport file = Some (m, tr).
Proof.
  destruct file as [image|]; [|eexists _, _; reflexivity].
  destruct (Z.gtb_spec (Z.of_nat (length image)) max_size) as [Hgt|Hle].
  - unfold ezusb_install_firmware.
    rewrite (proj2 (Z.gtb_gt _ _)) by lia. eexists _, _; reflexivity.
  - destruct (bad_signature image (Z.of_nat (length image))) eqn:Hsig.
    + unfold ezusb_install_firmware.
      destruct (Z.gtb_spec (Z.of_nat (length image)) max_size); [lia|].
      rewrite Hsig. eexists _, _; reflexivity.
    + destruct (install_run image Hle Hsig) as (segs & m & tr & _ & Hrun & _).
      eauto.
Qed.
End InstallTheorems.

Lemma bytes_at_app buf p a b :
  0 <= p -> 0 <= a -> 0 <= b ->
  bytes_at buf p a ++ bytes_at buf (p + a) b = bytes_at buf p (a + b).
Proof.
  intros Hp Ha Hb. unfold bytes_at.
  rewrite !Z2Nat.inj_add by lia.
  rewrite <- drop_drop. apply take_take_drop.
Qed.

Lemma bytes_at_length buf p n :
  0 <= p -> 0 <= n -> p + n <= Z.of_nat (length buf) ->
  Z.of_nat (length (bytes_at buf p n)) = n.
Proof.
  intros Hp Hn Hle. unfold bytes_at.
  rewrite length_take, length_drop. lia.
Qed.

(** The chunks of a segment, in order, are its payload. *)
Lemma chunks_cover_payload firmware seg :
  0 <= seg_offset seg -> 0 <= seg_length seg ->
  concat (map data (segment_transfers firmware seg))
  = bytes_at firmware (seg_offset seg) (seg_length seg).
Proof.
  intros Ho Hl. unfold segment_transfers.
  assert (Hgen : forall n k,
    (k < chunk_count (seg_length seg))%nat ->
    (n = chunk_count (seg_length seg) - k)%nat ->
    concat (map data (map (chunk_request firmware seg) (seq k n)))
    = bytes_at firmware (seg_offset seg + FW_CHUNKSIZE * Z.of_nat k)
        (seg_length seg - FW_CHUNKSIZE * Z.of_nat k)).
  { induction n as [|n IH]; intros k Hk Hn; [lia|].
    cbn [seq map concat]. 
    pose proof (proj1 (chunk_count_lt (seg_length seg) k Hl) Hk) as Hk'.
    pose proof (chunk_count_lt (seg_length seg) (S k) Hl) as HSk.
    destruct n as [|n].
    - cbn [seq map concat]. rewrite app_nil_r.
      cbn [chunk_request data]. f_equal.
      unfold FW_CHUNKSIZE in *.
      destruct (decide (S k < chunk_count (seg_length seg))%nat) as [Hc|Hc]; [lia|].
      assert (~ (4 * 1024 * Z.of_nat (S k) < seg_length seg)) by tauto.
      lia.
    - rewrite (IH (S k)) by lia.
      assert (HkS : (S k < chunk_count (seg_length seg))%nat) by lia.
      apply HSk in HkS. destruct HkS as [?|HkS]; [lia|].
      cbn [chunk_request data]. unfold FW_CHUNKSIZE in *.
      rewrite Z.min_l by lia.
      replace (seg_offset seg + 4 * 1024 * Z.of_nat (S k))
        with (seg_offset seg + 4 * 1024 * Z.of_nat k + 4 * 1024) by lia.
      rewrite bytes_at_app by lia. f_equal. lia. }
  rewrite (Hgen (chunk_count (seg_length seg)) 0%nat (chunk_count_pos _)) by lia.
  unfold FW_CHUNKSIZE. f_equal; lia.
Qed.

Lemma accept_all_accepting : accepting accept_all.
Proof. intros h r. unfold accept_all. lia. Defined.

Lemma segment_transfers_length firmware seg :
  length (segment_transfers firmware seg) = chunk_count (seg_length seg).
Proof. unfold segment_transfers. rewrite length_map, length_seq. reflexivity. Qed.

Lemma segment_transfers_lookup firmware seg k t :
  segment_transfers firmware seg !! k = Some t ->
  (k < chunk_count (seg_length seg))%nat /\ t = chunk_request firmware seg k.
Proof.
  unfold segment_transfers. intros H.
  apply list_lookup_fmap_Some in H as (i & Ht & Hi).
  apply lookup_seq in Hi as [-> Hlt]. split; [lia | rewrite Ht; reflexivity].
Qed.

(** C1, as amended: on a device that accepts every transfer, the transfers
    of an upload are those of the parsed segments, in file order and with
    none for the trailing checksum. A segment of [byteLength] bytes takes
    [max 1 (ceil (byteLength / 4096))] transfers: every chunk but the last
    carries 4096 bytes, the chunks together are the payload, and an empty
    segment is sent as one transfer of 0 bytes. *)
Theorem upload_chunks_per_segment transport image :
  accepting transport ->
  Z.of_nat (length image) <= max_size ->
  bad_signature image (Z.of_nat (length image)) = false ->
  exists segs m,
    parse image = Some segs /\
    ezusb_install_firmware transport (Some image)
      = Some (m, flat_map (segment_transfers image) segs) /\
    (m = UploadDone \/ m = FileTruncated) /\
    Forall (fun seg =>
      length (segment_transfers image seg)
        = Z.to_nat (Z.max 1 (ceil_div (seg_length seg) 4096)) /\
      concat (map data (segment_transfers image seg))
        = bytes_at image (seg_offset seg) (seg_length seg) /\
      (forall k t, segment_transfers image seg !! k = Some t ->
         Z.of_nat (length (data t)) = wLength t /\
         wLength t = if decide (S k < length (segment_transfers image seg))%nat
                     then 4096 else seg_length seg - 4096 * Z.of_nat k) /\
      (seg_length seg = 0 ->
         exists t, segment_transfers image seg = [t] /\ wLength t = 0 /\ data t = []))
      segs.
Proof.
  intros Hacc Hmax Hsig.
  destruct (install_run transport image Hmax Hsig) as (segs & m & tr & Hparse & Hrun & Hall & Hout).
  exists segs, m. split; [exact Hparse|].
  assert (Hm : (m = UploadDone \/ m = FileTruncated)
               /\ tr = flat_map (segment_transfers image) segs).
  { unfold upload_outcome in Hout. destruct m; try contradiction; auto.
    destruct Hout as [(h & r & Hret & Hneg) _]. specialize (Hacc h r). lia. }
  destruct Hm as [Hm ->]. split; [exact Hrun|]. split; [exact Hm|].
  eapply Forall_impl; [exact Hall|]. cbv beta.
  intros seg (Ha & Ho & Hl & Hol).
  split; [apply segment_transfers_length|].
  split; [apply chunks_cover_payload; lia|].
  split.
  - intros k t Hk. apply segment_transfers_lookup in Hk as [Hk ->].
    rewrite segment_transfers_length.
    pose proof (proj1 (chunk_count_lt (seg_length seg) k Hl) Hk) as Hk'.
    pose proof (chunk_count_lt (seg_length seg) (S k) Hl) as HSk.
    cbn [chunk_request data wLength]. unfold FW_CHUNKSIZE in *.
    split.
    + apply bytes_at_length; lia.
    + destruct (decide (S k < chunk_count (seg_length seg))%nat) as [Hc|Hc].
      * apply HSk in Hc. lia.
      * assert (~ (4 * 1024 * Z.of_nat (S k) < seg_length seg)) by tauto. lia.
  - intros Hz. exists (chunk_request image seg 0). 
    unfold segment_transfers. rewrite Hz. split; [reflexivity|].
    cbn [chunk_request data wLength]. rewrite Hz. split; reflexivity.
Qed.

Lemma upload_chunks_per_segment_witness :
  accepting accept_all /\
  Z.of_nat (length scenario_A_image) <= max_size /\
  bad_signature scenario_A_image (Z.of_nat (length scenario_A_image)) = false /\
  exists segs m,
    parse scenario_A_image = Some segs /\
    ezusb_install_firmware accept_all (Some scenario_A_image)
      = Some (m, flat_map (segment_transfers scenario_A_image) segs).
Proof.
  assert (H1 : accepting accept_all) by exact accept_all_accepting.
  assert (H2 : Z.of_nat (length scenario_A_image) <= max_size)
    by (vm_compute; discriminate).
  assert (H3 : bad_signature scenario_A_image
                 (Z.of_nat (length scenario_A_image)) = false) by reflexivity.
  split; [exact H1|]. split; [exact H2|]. split; [exact H3|].
  destruct (upload_chunks_per_segment accept_all scenario_A_image H1 H2 H3)
    as (segs & m & Hp & Hi & _).
  exists segs, m. split; assumption.
Defined.

(** An image whose only segment has 0 bytes: the [do ... while] loop runs
    once, so one transfer is issued where [ceil (0 / 4096)] is 0. *)
Lemma empty_segment_is_sent :
  exists seg tr,
    parse empty_segment_image = Some [seg] /\
    seg_length seg = 0 /\
    ezusb_install_firmware accept_all (Some empty_segment_image)
      = Some (UploadDone, tr) /\
    length tr = 1%nat /\
    length tr <> Z.to_nat (ceil_div (seg_length seg) 4096).
Proof.
  eexists _, _. split; [vm_compute; reflexivity|].
  split; [reflexivity|]. split; [vm_compute; reflexivity|].
  split; [reflexivity|]. vm_compute. discriminate.
Qed.

Lemma byte_at_lookup image i b :
  (0 <= i) -> image !! Z.to_nat i = Some b -> byte_at image i = uchar b.
Proof.
  intros Hi Hb. unfold byte_at. rewrite nth_lookup, Hb. reflexivity.
Qed.

Lemma byte_at_neq image (i : nat) b :
  (i < length image)%nat -> image !! i <> Some b ->
  (byte_at image (Z.of_nat i) =? uchar b) = false.
Proof.
  intros Hi Hb. apply Z.eqb_neq. intros Heq.
  destruct (lookup_lt_is_Some_2 image i Hi) as [c Hc].
  rewrite (byte_at_lookup image (Z.of_nat i) c) in Heq;
    [| lia | rewrite Nat2Z.id; exact Hc].
  apply uchar_inj in Heq. congruence.
Qed.

(** C3: an image shorter than 4 bytes, or whose byte 0 is not 'C', or
    whose byte 1 is not 'Y', or whose byte 3 is not 0xb0, makes the
    install fail with -1 before any control transfer; the message is the
    one of the invalid signature for every image that the size limit,
    tested before, lets through. *)
Theorem invalid_signature_rejected transport image :
  ((length image < 4)%nat \/ image !! 0%nat <> Some "C"%byte \/
   image !! 1%nat <> Some "Y"%byte \/ image !! 3%nat <> Some xb0) ->
  exists m,
    ezusb_install_firmware transport (Some image) = Some (m, []) /\
    install_return m = -1 /\
    (Z.of_nat (length image) <= max_size -> m = InvalidSignature).
Proof.
  intros Hbad. unfold ezusb_install_firmware.
  destruct (Z.gtb_spec (Z.of_nat (length image)) max_size) as [Hgt|Hle].
  { exists SizeExceedsLimit. split; [reflexivity|]. split; [reflexivity|]. lia. }
  assert (Hsig : bad_signature image (Z.of_nat (length image)) = true).
  { unfold bad_signature.
    destruct (Z.ltb_spec (Z.of_nat (length image)) 4) as [Hlt|Hge]; [reflexivity|].
    cbn [orb].
    destruct Hbad as [Hbad|[Hbad|[Hbad|Hbad]]]; [lia | | |].
    - pose proof (byte_at_neq image 0 "C" ltac:(lia) Hbad) as E.
      change (Z.of_nat 0) with 0 in E. rewrite E. reflexivity.
    - pose proof (byte_at_neq image 1 "Y" ltac:(lia) Hbad) as E.
      change (Z.of_nat 1) with 1 in E. rewrite E.
      cbn [negb]. rewrite orb_true_r. reflexivity.
    - pose proof (byte_at_neq image 3 xb0 ltac:(lia) Hbad) as E.
      change (Z.of_nat 3) with 3 in E. change (uchar xb0) with 0xb0 in E.
      rewrite E. cbn [negb]. rewrite orb_true_r. reflexivity. }
  rewrite Hsig. exists InvalidSignature. auto.
Qed.

Lemma invalid_signature_rejected_witness :
  exists m,
    ezusb_install_firmware accept_all (Some bad_marker_image) = Some (m, []) /\
    install_return m = -1 /\
    (Z.of_nat (length bad_marker_image) <= max_size -> m = InvalidSignature).
Proof.
  apply (invalid_signature_rejected accept_all bad_marker_image).
  right. right. right. vm_compute. discriminate.
Defined.

(** C8: every control transfer of an upload, on any device, is the chunk
    [k] of a parsed segment: request type vendor, host to device, request
    0xa0, the low 16 bits of [seg_addr + 4096 * k] in [wValue], its bits
    16 to 31 in [wIndex], the bytes of the chunk as data and a timeout of
    100 ms. *)
Theorem firmware_chunk_wire_format transport file m tr t :
  ezusb_install_firmware transport file = Some (m, tr) ->
  In t tr ->
  exists image segs seg k,
    file = Some image /\ parse image = Some segs /\ In seg segs /\
    (k < chunk_count (seg_length seg))%nat /\
    let chunkOffset := 4096 * Z.of_nat k in
    let address := seg_addr seg + chunkOffset in
    bmRequestType t = Z.lor LIBUSB_REQUEST_TYPE_VENDOR LIBUSB_ENDPOINT_OUT /\
    Z.land (Z.shiftr (bmRequestType t) 5) 3 = 2 /\
    Z.testbit (bmRequestType t) 7 = false /\
    bRequest t = 0xa0 /\
    wValue t = address mod 2 ^ 16 /\
    wIndex t = (address / 2 ^ 16) mod 2 ^ 16 /\
    wLength t = Z.min 4096 (seg_length seg - chunkOffset) /\
    data t = bytes_at image (seg_offset seg + chunkOffset) (wLength t) /\
    Z.of_nat (length (data t)) = wLength t /\
    timeout t = 100.
Proof.
  intros Hrun Hin.
  destruct file as [image|]; [|cbn in Hrun; injection Hrun as _ <-; destruct Hin].
  destruct (Z.gtb_spec (Z.of_nat (length image)) max_size) as [Hgt|Hle].
  { unfold ezusb_install_firmware in Hrun.
    rewrite (proj2 (Z.gtb_gt _ _)) in Hrun by lia.
    injection Hrun as _ <-; destruct Hin. }
  destruct (bad_signature image (Z.of_nat (length image))) eqn:Hsig.
  { unfold ezusb_install_firmware in Hrun.
    destruct (Z.gtb_spec (Z.of_nat (length image)) max_size); [lia|].
    rewrite Hsig in Hrun. injection Hrun as _ <-; destruct Hin. }
  destruct (install_run transport image Hle Hsig)
    as (segs & m' & tr' & Hparse & Hrun' & Hall & Hout).
  rewrite Hrun in Hrun'. injection Hrun' as <- <-.
  assert (Hin' : In t (flat_map (segment_transfers image) segs)).
  { unfold upload_outcome in Hout. destruct m; try contradiction.
    - destruct Hout as [_ [rest ->]]. apply in_or_app. left. exact Hin.
    - rewrite <- Hout. exact Hin.
    - rewrite <- Hout. exact Hin. }
  apply in_flat_map in Hin' as (seg & Hseg & Ht).
  unfold segment_transfers in Ht. apply in_map_iff in Ht as (k & <- & Hk).
  apply in_seq in Hk.
  exists image, segs, seg, k.
  split; [reflexivity|]. split; [exact Hparse|]. split; [exact Hseg|].
  split; [lia|].
  rewrite Forall_forall in Hall.
  destruct (Hall seg ltac:(apply list_elem_of_In; exact Hseg)) as (Ha & Ho & Hl & Hol).
  pose proof (proj1 (chunk_count_lt (seg_length seg) k Hl) ltac:(lia)) as Hk'.
  unfold FW_CHUNKSIZE in *.
  cbn [chunk_request bmRequestType bRequest wValue wIndex wLength data timeout].
  unfold FW_CHUNKSIZE.
  rewrite !land_ffff, !Z.shiftr_div_pow2 by lia.
  repeat split; try reflexivity.
  apply bytes_at_length; lia.
Qed.

Lemma firmware_chunk_wire_format_witness :
  exists t,
    ezusb_install_firmware accept_all (Some scenario_A_image) = Some (UploadDone, [t]) /\
    bRequest t = 0xa0 /\ wValue t = 0 /\ wIndex t = 0 /\ timeout t = 100 /\
    data t = [xde; xad; xbe; xef] /\
    exists image segs seg k,
      Some scenario_A_image = Some image /\ parse image = Some segs /\
      In seg segs /\ (k < chunk_count (seg_length seg))%nat /\
      wLength t = Z.min 4096 (seg_length seg - 4096 * Z.of_nat k).
Proof.
  eexists. split; [vm_compute; reflexivity|].
  do 5 (split; [reflexivity|]).
  destruct (firmware_chunk_wire_format accept_all (Some scenario_A_image) UploadDone
              _ _ ltac:(vm_compute; reflexivity) ltac:(left; reflexivity))
    as (image & segs & seg & k & H1 & H2 & H3 & H4 & H5).
  exists image, segs, seg, k. cbv zeta in H5.
  repeat split; try assumption. tauto.
Defined.

Lemma parse_loop_fields firmware length :
  length <= max_size ->
  forall fuel offset segs,
    4 <= offset <= length ->
    parse_loop fuel firmware length offset = Some segs ->
    Forall (fun seg =>
      seg_length seg = segment_sublength firmware (seg_offset seg - 8) /\
      seg_addr seg = RL32 firmware (seg_offset seg - 4)) segs.
Proof.
  intros Hmax. unfold max_size in Hmax.
  induction fuel as [|fuel IH]; intros offset segs Hoff Hp; [discriminate|].
  cbn [parse_loop] in Hp.
  destruct (Z.ltb_spec offset length) as [Hlt|Hge]; [|injection Hp as <-; constructor].
  unfold size_t in Hp. rewrite !(Z.mod_small (offset + _)) in Hp by lia.
  destruct (Z.eqb_spec (offset + 4) length); [injection Hp as <-; constructor|].
  destruct (Z.ltb_spec length (offset + 8)); [injection Hp as <-; constructor|].
  rewrite !(Z.mod_small (offset + 4 + 4)) in Hp by lia.
  rewrite (Z.mod_small (length - _)) in Hp by lia.
  pose proof (segment_sublength_range firmware offset) as Hsub.
  destruct (Z.gtb_spec (segment_sublength firmware offset) (length - (offset + 4 + 4)));
    [injection Hp as <-; constructor|].
  rewrite (Z.mod_small (offset + 4 + 4 + _)) in Hp by lia.
  destruct (parse_loop fuel firmware length _) as [rest|] eqn:Hrest; [|discriminate].
  injection Hp as <-. constructor.
  - cbn. split; f_equal; lia.
  - eapply IH; [|exact Hrest]. lia.
Qed.

Lemma parse_first_segment image segs0 :
  12 <= Z.of_nat (length image) <= max_size ->
  segment_sublength image 4 <= Z.of_nat (length image) - 12 ->
  parse image = Some segs0 ->
  exists segs,
    segs0 = Segment (RL32 image 8) 12 (segment_sublength image 4) :: segs.
Proof.
  intros Hlen Hfit Hparse. unfold parse in Hparse. unfold max_size in Hlen.
  cbn [parse_loop] in Hparse.
  destruct (Z.ltb_spec 4 (Z.of_nat (length image))) as [_|?]; [|lia].
  unfold size_t in Hparse. rewrite !(Z.mod_small (4 + _)) in Hparse by lia.
  destruct (Z.eqb_spec (4 + 4) (Z.of_nat (length image))) as [?|_]; [lia|].
  destruct (Z.ltb_spec (Z.of_nat (length image)) (4 + 8)) as [?|_]; [lia|].
  rewrite !(Z.mod_small (4 + 4 + 4)) in Hparse by lia.
  rewrite (Z.mod_small (Z.of_nat (length image) - _)) in Hparse by lia.
  destruct (Z.gtb_spec (segment_sublength image 4)
              (Z.of_nat (length image) - (4 + 4 + 4))) as [?|_]; [lia|].
  destruct (parse_loop _ image _ _) as [segs|]; [|discriminate].
  injection Hparse as <-. exists segs. reflexivity.
Qed.

(** C9: the byte length of a segment is [(encodedLength * 4) mod 2 ^ 32];
    from [encodedLength = 2 ^ 30] on it is less than the product. An image
    whose first header declares [2 ^ 30] words or more, with the byte
    length after the wrap-around inside the file, is accepted by
    [ezusb_install_firmware] though the length declared exceeds the
    file: on a device that accepts every transfer the install issues,
    first of all, the transfers of a segment of that shorter length,
    which carry the bytes that follow the header. *)
Theorem byteLength_wraps transport image :
  let length := Z.of_nat (length image) in
  let encodedLength := RL32 image 4 in
  let byteLength := (encodedLength * 4) mod 2 ^ 32 in
  let seg := Segment (RL32 image 8) 12 byteLength in
  segment_sublength image 4 = byteLength /\
  (2 ^ 30 <= encodedLength ->
     byteLength = encodedLength * 4 - 2 ^ 32 * (encodedLength / 2 ^ 30) /\
     byteLength < encodedLength * 4) /\
  (encodedLength = 2 ^ 30 -> byteLength = 0) /\
  (accepting transport ->
   length <= max_size -> bad_signature image length = false ->
   exists m segs0,
     parse image = Some segs0 /\
     ezusb_install_firmware transport (Some image)
       = Some (m, flat_map (segment_transfers image) segs0) /\
     (m = UploadDone \/ m = FileTruncated) /\
     Forall (fun s =>
       seg_length s = (RL32 image (seg_offset s - 8) * 4) mod 2 ^ 32 /\
       seg_addr s = RL32 image (seg_offset s - 4)) segs0 /\
     (2 ^ 30 <= encodedLength -> 12 + byteLength <= length ->
      length < encodedLength * 4 /\
      exists segs,
        segs0 = seg :: segs /\
        segment_transfers image seg <> [] /\
        concat (map data (segment_transfers image seg))
          = bytes_at image 12 byteLength)).
Proof.
  cbv zeta. pose proof (RL32_range image 4) as Hr.
  rewrite segment_sublength_value.
  split; [reflexivity|]. split; [|split].
  - intros Hbig.
    pose proof (Z.div_mod (RL32 image 4 * 4) (2 ^ 32) ltac:(lia)) as Hd.
    replace (RL32 image 4 / 2 ^ 30) with (RL32 image 4 * 4 / 2 ^ 32).
    + assert (1 <= RL32 image 4 * 4 / 2 ^ 32).
      { apply Z.div_le_lower_bound; lia. }
      lia.
    + change (2 ^ 32) with (2 ^ 30 * 4).
      rewrite Z.div_mul_cancel_r by lia. reflexivity.
  - intros ->. reflexivity.
  - intros Hacc Hmax Hsig.
    pose proof (Z.mod_pos_bound (RL32 image 4 * 4) (2 ^ 32) ltac:(lia)) as Hmod.
    pose proof (bad_signature_false_length _ _ Hsig) as Hlen4.
    destruct (install_run transport image Hmax Hsig)
      as (segs0 & m & tr & Hparse & Hrun & Hin & Hout).
    assert (Hm : (m = UploadDone \/ m = FileTruncated) /\
                 tr = flat_map (segment_transfers image) segs0).
    { destruct m; cbn in Hout; try contradiction; auto.
      destruct Hout as [(h & r & Hret & Hneg) _].
      specialize (Hacc h r). lia. }
    destruct Hm as [Hm ->].
    exists m, segs0. split; [exact Hparse|]. split; [exact Hrun|].
    split; [exact Hm|]. split.
    + pose proof Hparse as Hp. unfold parse in Hp.
      pose proof (parse_loop_fields image _ Hmax _ 4 segs0 ltac:(lia) Hp) as Hf.
      eapply Forall_impl; [exact Hf|]. intros s [Hl Ha]. cbv beta.
      rewrite Hl, segment_sublength_value. split; [reflexivity | exact Ha].
    + intros Hbig Hfit. split; [unfold max_size in Hmax; lia|].
      destruct (parse_first_segment image segs0) as (segs & Heq);
        [lia | rewrite segment_sublength_value; lia | exact Hparse |].
      rewrite segment_sublength_value in Heq.
      exists segs. split; [exact Heq|]. split.
      * intros Hnil. apply (f_equal (@List.length _)) in Hnil.
        rewrite segment_transfers_length in Hnil.
        pose proof (chunk_count_pos ((RL32 image 4 * 4) mod 2 ^ 32)).
        cbn in Hnil. lia.
      * apply (chunks_cover_payload image
                 (Segment (RL32 image 8) 12 ((RL32 image 4 * 4) mod 2 ^ 32)));
          cbn [seg_offset seg_length]; lia.
Qed.

Lemma byteLength_wraps_witness :
  2 ^ 30 <= RL32 wrapped_payload_image 4 /\
  Z.of_nat (length wrapped_payload_image) < RL32 wrapped_payload_image 4 * 4 /\
  ezusb_install_firmware accept_all (Some wrapped_payload_image)
  = Some (UploadDone,
          [ControlTransfer 0x40 0xa0 0x0100 0x4000 [xde; xad; xbe; xef]%byte 4 100]) /\
  ezusb_install_firmware accept_all (Some wrapped_length_image)
  = Some (UploadDone, [ControlTransfer 0x40 0xa0 0x0100 0x4000 [] 0 100]).
Proof.
  assert (Hbig : 2 ^ 30 <= RL32 wrapped_payload_image 4) by (vm_compute; discriminate).
  split; [exact Hbig|].
  destruct (byteLength_wraps accept_all wrapped_payload_image) as (_ & _ & _ & H).
  destruct (H accept_all_accepting ltac:(vm_compute; discriminate) eq_refl)
    as (m & segs0 & _ & _ & _ & _ & Hfirst).
  destruct (Hfirst Hbig ltac:(vm_compute; discriminate)) as (Hlong & _).
  split; [exact Hlong|]. split; vm_compute; reflexivity.
Defined.

(** The test that stops the loop at a segment longer than the rest of the
    file, and what the function reports then. *)
Lemma oversized_segment_stops transport firmware length offset hist fuel :
  length <= max_size -> 4 <= offset -> offset + 8 <= length ->
  segment_sublength firmware offset > length - (offset + 8) ->
  upload_loop transport (S fuel) firmware length offset hist
  = Some (if offset + 8 <? length then FileTruncated else UploadDone, []).
Proof.
  unfold max_size. intros Hmax Hoff Hhdr Hbig. cbn [upload_loop].
  unfold size_t. rewrite !(Z.mod_small (offset + _)) by lia.
  rewrite !(Z.mod_small (offset + 4 + 4)) by lia.
  rewrite (Z.mod_small (length - _)) by lia.
  destruct (Z.ltb_spec offset length); [|lia].
  destruct (Z.eqb_spec (offset + 4) length); [lia|].
  destruct (Z.ltb_spec length (offset + 8)); [lia|].
  destruct (Z.gtb_spec (segment_sublength firmware offset) (length - (offset + 4 + 4)));
    [|lia].
  unfold after_loop. replace (offset + 4 + 4) with (offset + 8) by lia. reflexivity.
Qed.

(** C2, at the image [header_at_end_image]: the header declares 4 bytes
    where 0 remain; no transfer is issued, and the install ends with
    "Firmware upload done." and the return value 0. *)
Theorem header_at_end_reports_success :
  segment_sublength header_at_end_image 4 = 4 /\
  Z.of_nat (length header_at_end_image) - (4 + 8) = 0 /\
  ezusb_install_firmware accept_all (Some header_at_end_image)
    = Some (UploadDone, []) /\
  install_return UploadDone = 0.
Proof. repeat split; vm_compute; reflexivity. Qed.

(** ** The statistics of the callback *)

Lemma callback_globals g t now ret :
  let g' := fst (transfer_callback g t now ret) in
  queuedepth g' = queuedepth g /\
  stop_transfers g' = stop_transfers g /\
  success_count g'
    = (if completed (status t) then unsigned (success_count g + 1)
       else success_count g) /\
  failure_count g'
    = (if completed (status t) then failure_count g
       else unsigned (failure_count g + 1)) /\
  transfer_index g'
    = (if at_boundary g then 0 else unsigned (transfer_index g + 1)) /\
  transfer_size g'
    = (if at_boundary g then 0
       else unsigned (transfer_size g
                      + received (Completion t now ret))) /\
  tv_start g' = (if at_boundary g then now else tv_start g).
Proof.
  cbv zeta.
  unfold transfer_callback, window_report, resubmit, at_boundary, received,
    count_completion.
  cbn [transfer_index queuedepth c_transfer].
  destruct (unsigned (transfer_index g + 1) =? queuedepth g);
    cbn [stop_transfers]; destruct (stop_transfers g); cbn;
    repeat split; reflexivity.
Qed.

Lemma callback_reports g t now ret :
  reports (snd (transfer_callback g t now ret))
  = if at_boundary g then
      [EvReport (success_count (fst (transfer_callback g t now ret)))
         (failure_count (fst (transfer_callback g t now ret)))
         (actual_length t)
         (data_rate (unsigned (transfer_size g + received (Completion t now ret)))
            (elapsed_usec (tv_start g) now))]
    else [].
Proof.
  unfold transfer_callback, window_report, resubmit, at_boundary, received,
    status_message, reports, count_completion.
  cbn [transfer_index queuedepth c_transfer].
  destruct (unsigned (transfer_index g + 1) =? queuedepth g);
    cbn [stop_transfers]; destruct (stop_transfers g);
    destruct (completed (status t)); cbn; reflexivity.
Qed.

Lemma run_callbacks_app g cs1 cs2 :
  run_callbacks g (cs1 ++ cs2)
  = (fst (run_callbacks (fst (run_callbacks g cs1)) cs2),
     snd (run_callbacks g cs1) ++ snd (run_callbacks (fst (run_callbacks g cs1)) cs2)).
Proof.
  revert g. induction cs1 as [|c cs1 IH]; intros g.
  - cbn. destruct (run_callbacks g cs2); reflexivity.
  - cbn [app run_callbacks].
    destruct (transfer_callback g (c_transfer c) (c_now c) (c_submit_ret c)) as [g1 ev1].
    rewrite IH. cbn [fst snd].
    destruct (run_callbacks g1 cs1) as [g2 ev2]. cbn [fst snd].
    rewrite app_assoc. reflexivity.
Qed.

Lemma run_callbacks_one g c :
  run_callbacks g [c]
  = (fst (transfer_callback g (c_transfer c) (c_now c) (c_submit_ret c)),
     snd (transfer_callback g (c_transfer c) (c_now c) (c_submit_ret c))).
Proof.
  cbn [run_callbacks].
  destruct (transfer_callback g (c_transfer c) (c_now c) (c_submit_ret c)).
  cbn [fst snd]. rewrite app_nil_r. reflexivity.
Qed.

Lemma reports_app e1 e2 : reports (e1 ++ e2) = reports e1 ++ reports e2.
Proof. unfold reports. apply List.filter_app. Qed.

Lemma received_eta c :
  received (Completion (c_transfer c) (c_now c) (c_submit_ret c)) = received c.
Proof. reflexivity. Qed.

Lemma window_bytes_snoc cs c :
  unsigned (window_bytes cs + received c) = window_bytes (cs ++ [c]).
Proof.
  unfold window_bytes, unsigned. rewrite map_app, fold_right_app. cbn [map fold_right].
  rewrite Zplus_mod_idemp_l.
  f_equal. generalize (map received cs) as l. intros l.
  induction l as [|x l IH]; cbn [fold_right]; lia.
Qed.

(** Inside a window: no report, no reset. *)
Lemma inside_window g cs :
  queuedepth g < 2 ^ 32 -> transfer_index g = 0 -> transfer_size g = 0 ->
  Z.of_nat (length cs) < queuedepth g ->
  reports (snd (run_callbacks g cs)) = [] /\
  queuedepth (fst (run_callbacks g cs)) = queuedepth g /\
  transfer_index (fst (run_callbacks g cs)) = Z.of_nat (length cs) /\
  transfer_size (fst (run_callbacks g cs)) = window_bytes cs /\
  tv_start (fst (run_callbacks g cs)) = tv_start g.
Proof.
  intros Hqd Hi Hs. induction cs as [|c cs IH] using rev_ind; intros Hlen.
  - cbn. repeat split; auto.
  - rewrite length_app in Hlen. cbn [length] in Hlen.
    destruct (IH ltac:(lia)) as (Hr & Hq & Hidx & Hsz & Htv).
    rewrite run_callbacks_app, run_callbacks_one. cbn [fst snd].
    set (g1 := fst (run_callbacks g cs)) in *.
    pose proof (callback_globals g1 (c_transfer c) (c_now c) (c_submit_ret c)) as Hcb.
    cbv zeta in Hcb. destruct Hcb as (Hq' & _ & _ & _ & Hi' & Hs' & Ht').
    assert (Hb : at_boundary g1 = false).
    { unfold at_boundary. rewrite Hidx, Hq. unfold unsigned.
      rewrite Z.mod_small by lia. apply Z.eqb_neq. lia. }
    rewrite Hb in *. rewrite reports_app, Hr, callback_reports, Hb.
    rewrite Hq', Hi', Hs', Ht', Hq, Hidx, Hsz, Htv, received_eta, window_bytes_snoc.
    rewrite length_app. cbn [length]. unfold unsigned.
    rewrite Z.mod_small by lia.
    repeat split; auto. lia.
Qed.

Lemma succ_div_mod n q :
  0 <= n -> 0 < q ->
  (n + 1) mod q = (if n mod q + 1 =? q then 0 else n mod q + 1) /\
  (n + 1) / q = n / q + (if n mod q + 1 =? q then 1 else 0).
Proof.
  intros Hn Hq.
  pose proof (Z.div_mod n q ltac:(lia)) as Hd.
  pose proof (Z.mod_pos_bound n q Hq) as Hm.
  destruct (Z.eqb_spec (n mod q + 1) q) as [He|Hne].
  - split.
    + symmetry. apply (Z.mod_unique_pos _ _ (n / q + 1)); lia.
    + symmetry. apply (Z.div_unique_pos _ _ _ 0); lia.
  - split.
    + symmetry. apply (Z.mod_unique_pos _ _ (n / q)); lia.
    + symmetry. apply (Z.div_unique_pos _ _ _ (n mod q + 1)); lia.
Qed.

(** From the start of the session: a report at every [qd]-th completion. *)
Lemma window_every_qd qd cs :
  1 <= qd < 2 ^ 32 ->
  queuedepth (fst (run_callbacks (initial_globals qd) cs)) = qd /\
  transfer_index (fst (run_callbacks (initial_globals qd) cs))
    = Z.of_nat (length cs) mod qd /\
  Z.of_nat (length (reports (snd (run_callbacks (initial_globals qd) cs))))
    = Z.of_nat (length cs) / qd.
Proof.
  intros Hqd. induction cs as [|c cs IH] using rev_ind.
  - cbn. rewrite Z.mod_0_l, Z.div_0_l by lia. auto.
  - destruct IH as (Hq & Hidx & Hrep).
    rewrite run_callbacks_app, run_callbacks_one. cbn [fst snd].
    set (g1 := fst (run_callbacks (initial_globals qd) cs)) in *.
    pose proof (callback_globals g1 (c_transfer c) (c_now c) (c_submit_ret c)) as Hcb.
    cbv zeta in Hcb. destruct Hcb as (Hq' & _ & _ & _ & Hi' & _).
    rewrite reports_app, callback_reports, length_app, Hq', Hi', Hq.
    rewrite length_app. cbn [length].
    replace (Z.of_nat (length cs + 1)) with (Z.of_nat (length cs) + 1) by lia.
    destruct (succ_div_mod (Z.of_nat (length cs)) qd ltac:(lia) ltac:(lia)) as [Hm Hd].
    rewrite Hm, Hd.
    pose proof (Z.mod_pos_bound (Z.of_nat (length cs)) qd ltac:(lia)) as Hb.
    unfold at_boundary. rewrite Hidx, Hq. unfold unsigned.
    rewrite Z.mod_small by lia.
    destruct (Z.of_nat (length cs) mod qd + 1 =? qd); cbn [length]; split; auto; split; lia.
Qed.

(** ** Binary64: the operations of [SpecFloat] on normal numbers *)

Lemma digits2_pos_spec p :
  2 ^ (Z.pos (digits2_pos p) - 1) <= Z.pos p < 2 ^ Z.pos (digits2_pos p).
Proof.
  induction p as [p IH|p IH|]; cbn [digits2_pos].
  - rewrite Pos2Z.inj_succ. change (Z.pos p~1) with (2 * Z.pos p + 1).
    replace (Z.succ (Z.pos (digits2_pos p)) - 1)
      with (Z.succ (Z.pos (digits2_pos p) - 1)) by lia.
    rewrite !Z.pow_succ_r by lia.
    generalize dependent (2 ^ (Z.pos (digits2_pos p) - 1)).
    generalize (2 ^ Z.pos (digits2_pos p)). intros; lia.
  - rewrite Pos2Z.inj_succ. change (Z.pos p~0) with (2 * Z.pos p).
    replace (Z.succ (Z.pos (digits2_pos p)) - 1)
      with (Z.succ (Z.pos (digits2_pos p) - 1)) by lia.
    rewrite !Z.pow_succ_r by lia.
    generalize dependent (2 ^ (Z.pos (digits2_pos p) - 1)).
    generalize (2 ^ Z.pos (digits2_pos p)). intros; lia.
  - cbn. lia.
Qed.

Lemma digits2_pos_unique p d :
  2 ^ (Z.pos d - 1) <= Z.pos p < 2 ^ Z.pos d -> digits2_pos p = d.
Proof.
  intros Hd. pose proof (digits2_pos_spec p) as Hs.
  destruct (Z.lt_trichotomy (Z.pos (digits2_pos p)) (Z.pos d)) as [Hlt|[Heq|Hgt]].
  - assert (2 ^ Z.pos (digits2_pos p) <= 2 ^ (Z.pos d - 1))
      by (apply Z.pow_le_mono_r; lia).
    lia.
  - injection Heq as ->. reflexivity.
  - assert (2 ^ Z.pos d <= 2 ^ (Z.pos (digits2_pos p) - 1))
      by (apply Z.pow_le_mono_r; lia).
    lia.
Qed.

Lemma shr_m_of_loc m l : shr_m (shr_record_of_loc m l) = m.
Proof. destruct l as [|[]]; reflexivity. Qed.

Lemma loc_of_loc m l : loc_of_shr_record (shr_record_of_loc m l) = l.
Proof. destruct l as [|[]]; reflexivity. Qed.

Lemma shr_1_m mrs : 0 <= shr_m mrs -> shr_m (shr_1 mrs) = shr_m mrs / 2.
Proof.
  destruct mrs as [m r s]. cbn [shr_m]. intros Hm.
  destruct m as [|p|p]; [reflexivity| |lia].
  destruct p as [p|p|]; cbn [shr_1 shr_m].
  - change (Z.pos p~1) with (2 * Z.pos p + 1).
    apply (Z.div_unique_pos _ _ _ 1); lia.
  - change (Z.pos p~0) with (2 * Z.pos p).
    apply (Z.div_unique_pos _ _ _ 0); lia.
  - reflexivity.
Qed.

Lemma round_nearest_even_range m l :
  m <= round_nearest_even m l <= m + 1.
Proof.
  destruct l as [|[]]; cbn [round_nearest_even]; try lia.
  destruct (Z.even m); lia.
Qed.

Lemma shr_fexp_53 m e l :
  2 ^ 52 <= m < 2 ^ 53 -> -1074 <= e ->
  shr_fexp 53 1024 m e l = (shr_record_of_loc m l, e).
Proof.
  intros Hm He. unfold shr_fexp.
  destruct m as [|p|p]; try lia. cbn [Zdigits2].
  rewrite (digits2_pos_unique p 53) by (cbn; lia).
  replace (fexp 53 1024 (53 + e) - e) with 0 by (unfold fexp, emin; lia).
  reflexivity.
Qed.

Lemma shr_fexp_54 m e l :
  2 ^ 53 <= m < 2 ^ 54 -> -1075 <= e ->
  shr_fexp 53 1024 m e l = (shr_1 (shr_record_of_loc m l), e + 1).
Proof.
  intros Hm He. unfold shr_fexp.
  destruct m as [|p|p]; try lia. cbn [Zdigits2].
  rewrite (digits2_pos_unique p 54) by (cbn; lia).
  replace (fexp 53 1024 (54 + e) - e) with 1 by (unfold fexp, emin; lia).
  reflexivity.
Qed.

(** The end of [binary_round_aux]: a mantissa of 53 bits is kept, the
    mantissa [2 ^ 53] that a rounding upwards gives is halved. *)
Lemma binary_round_last m e :
  2 ^ 52 <= m <= 2 ^ 53 -> -1074 <= e <= 960 ->
  exists mz k,
    (let '(mrs, e') := shr_fexp 53 1024 m e loc_Exact in
     match shr_m mrs with
     | Z0 => S754_zero false
     | Zpos mz => if e' <=? 1024 - 53 then S754_finite false mz e'
                  else S754_infinity false
     | Zneg _ => S754_nan
     end) = S754_finite false mz (e + k) /\
    2 ^ 52 <= Z.pos mz < 2 ^ 53 /\
    (k = 0 /\ Z.pos mz = m \/ k = 1 /\ m = 2 ^ 53 /\ Z.pos mz = 2 ^ 52).
Proof.
  intros Hm He. destruct (Z.eq_dec m (2 ^ 53)) as [->|Hne].
  - rewrite shr_fexp_54 by lia. cbn [shr_record_of_loc shr_1 shr_m].
    change (2 ^ 53) with (Z.pos (4503599627370496~0)). cbn [shr_1 shr_m].
    replace (e + 1 <=? 1024 - 53) with true by (symmetry; apply Z.leb_le; lia).
    exists 4503599627370496%positive, 1. split; [reflexivity|].
    split; [lia|]. right. repeat split; reflexivity.
  - rewrite shr_fexp_53 by lia. cbn [shr_record_of_loc shr_m].
    destruct m as [|p|p]; try lia.
    replace (e <=? 1024 - 53) with true by (symmetry; apply Z.leb_le; lia).
    exists p, 0. rewrite Z.add_0_r. split; [reflexivity|].
    split; [lia|]. left. split; reflexivity.
Qed.

(** [binary_round_aux] on a mantissa of 53 or 54 bits: the result is a
    normal number whose mantissa, at its exponent, is within one unit of
    the mantissa given. *)
Lemma binary_round_aux_bracket m e l :
  2 ^ 52 <= m < 2 ^ 54 -> -1074 <= e <= 950 ->
  exists mz k,
    binary_round_aux 53 1024 false m e l = S754_finite false mz (e + k) /\
    2 ^ 52 <= Z.pos mz < 2 ^ 53 /\ 0 <= k <= 2 /\
    (Z.pos mz - 1) * 2 ^ k <= m /\ m + 1 <= (Z.pos mz + 1) * 2 ^ k.
Proof.
  intros Hm He. unfold binary_round_aux.
  destruct (Z.lt_ge_cases m (2 ^ 53)) as [Hlt|Hge].
  - rewrite shr_fexp_53 by lia. rewrite shr_m_of_loc, loc_of_loc.
    pose proof (round_nearest_even_range m l) as Hr.
    destruct (binary_round_last (round_nearest_even m l) e ltac:(lia) ltac:(lia))
      as (mz & k & Heq & Hmz & Hk).
    exists mz, k. split; [exact Heq|]. split; [exact Hmz|].
    destruct Hk as [[-> Hz]|(-> & Hz & Hz')];
      [change (2 ^ 0) with 1 | change (2 ^ 1) with 2]; lia.
  - rewrite shr_fexp_54 by lia.
    pose proof (shr_1_m (shr_record_of_loc m l)) as Hh.
    rewrite shr_m_of_loc in Hh. specialize (Hh ltac:(lia)).
    pose proof (Z.div_mod m 2 ltac:(lia)) as Hd.
    pose proof (Z.mod_pos_bound m 2 ltac:(lia)) as Hb.
    pose proof (round_nearest_even_range (shr_m (shr_1 (shr_record_of_loc m l)))
                  (loc_of_shr_record (shr_1 (shr_record_of_loc m l)))) as Hr.
    rewrite Hh in Hr.
    destruct (binary_round_last
                (round_nearest_even (shr_m (shr_1 (shr_record_of_loc m l)))
                   (loc_of_shr_record (shr_1 (shr_record_of_loc m l))))
                (e + 1) ltac:(rewrite Hh; lia) ltac:(lia))
      as (mz & k & Heq & Hmz & Hk).
    exists mz, (1 + k). rewrite Z.add_assoc. split; [exact Heq|].
    split; [exact Hmz|].
    destruct Hk as [[-> Hz]|(-> & Hz & Hz')];
      [change (2 ^ (1 + 0)) with 2 | change (2 ^ (1 + 1)) with 4];
      rewrite ?Hh in *; lia.
Qed.

Lemma binary_round_aux_exact m e :
  2 ^ 52 <= Z.pos m < 2 ^ 53 -> -1074 <= e <= 960 ->
  binary_round_aux 53 1024 false (Z.pos m) e loc_Exact = S754_finite false m e.
Proof.
  intros Hm He. unfold binary_round_aux.
  rewrite shr_fexp_53 by lia.
  cbn [shr_record_of_loc shr_m loc_of_shr_record round_nearest_even].
  rewrite shr_fexp_53 by lia. cbn [shr_record_of_loc shr_m].
  replace (e <=? 1024 - 53) with true by (symmetry; apply Z.leb_le; lia).
  reflexivity.
Qed.

Lemma pos_iter_xO p k : Z.pos (Pos.iter xO p k) = Z.pos p * 2 ^ Z.pos k.
Proof.
  induction k as [|k IH] using Pos.peano_ind.
  - cbn [Pos.iter]. change (Z.pos p~0) with (2 * Z.pos p). change (2 ^ 1) with 2. lia.
  - rewrite Pos.iter_succ. change (Z.pos (Pos.iter xO p k)~0)
      with (2 * Z.pos (Pos.iter xO p k)).
    rewrite IH, Pos2Z.inj_succ, Z.pow_succ_r by lia. lia.
Qed.

(** The conversion of an integer below [2 ^ 53] is exact. *)
Lemma double_of_Z_normal n :
  1 <= n < 2 ^ 53 ->
  exists m e,
    double_of_Z n = S754_finite false m e /\
    2 ^ 52 <= Z.pos m < 2 ^ 53 /\ -52 <= e <= 0 /\
    Z.pos m = n * 2 ^ (- e).
Proof.
  intros Hn. destruct n as [|p|p]; try lia.
  unfold double_of_Z, binary_normalize, binary_round.
  pose proof (digits2_pos_spec p) as Hd.
  set (d := Z.pos (digits2_pos p)) in *.
  assert (Hd53 : 1 <= d <= 53).
  { split; [subst d; lia|].
    destruct (Z.le_gt_cases d 53) as [|Hgt]; [assumption|].
    assert (2 ^ 53 <= 2 ^ (d - 1)) by (apply Z.pow_le_mono_r; lia). lia. }
  replace (fexp 53 1024 (d + 0)) with (d - 53) by (unfold fexp, emin; lia).
  unfold shl_align.
  destruct (d - 53 - 0) as [|k|k] eqn:Hk; try lia.
  - rewrite binary_round_aux_exact.
    + exists p, 0. split; [reflexivity|]. replace d with 53 in Hd by lia.
      change (2 ^ (- 0)) with 1. lia.
    + replace d with 53 in Hd by lia. exact Hd.
    + lia.
  - assert (Hm : 2 ^ 52 <= Z.pos (Pos.iter xO p k) < 2 ^ 53).
    { rewrite pos_iter_xO.
      replace (2 ^ 52) with (2 ^ (d - 1) * 2 ^ Z.pos k)
        by (rewrite <- Z.pow_add_r by lia; f_equal; lia).
      replace (2 ^ 53) with (2 ^ d * 2 ^ Z.pos k)
        by (rewrite <- Z.pow_add_r by lia; f_equal; lia).
      assert (0 < 2 ^ Z.pos k) by (apply Z.pow_pos_nonneg; lia).
      split; [apply Z.mul_le_mono_nonneg_r; lia | apply Z.mul_lt_mono_pos_r; lia]. }
    rewrite binary_round_aux_exact by (exact Hm || lia).
    exists (Pos.iter xO p k), (d - 53). split; [reflexivity|].
    split; [exact Hm|]. split; [lia|].
    rewrite pos_iter_xO. f_equal. f_equal. lia.
Qed.

(** The division of two normal numbers: the mantissa of the quotient,
    at its exponent, is within one unit of the exact quotient. *)
Lemma double_div_bracket mx ex my ey :
  2 ^ 52 <= Z.pos mx < 2 ^ 53 -> 2 ^ 52 <= Z.pos my < 2 ^ 53 ->
  -400 <= ex <= 400 -> -400 <= ey <= 400 ->
  exists mz k,
    double_div (S754_finite false mx ex) (S754_finite false my ey)
    = S754_finite false mz (ex - ey - 53 + k) /\
    2 ^ 52 <= Z.pos mz < 2 ^ 53 /\ 0 <= k <= 2 /\
    (Z.pos mz - 1) * 2 ^ k * Z.pos my <= Z.pos mx * 2 ^ 53 /\
    Z.pos mx * 2 ^ 53 < (Z.pos mz + 1) * 2 ^ k * Z.pos my.
Proof.
  intros Hx Hy Hex Hey.
  unfold double_div, SFdiv, SFdiv_core_binary. cbn [Zdigits2 xorb].
  rewrite (digits2_pos_unique mx 53), (digits2_pos_unique my 53) by (cbn; lia).
  replace (Z.min (fexp 53 1024 (53 + ex - (53 + ey))) (ex - ey))
    with (ex - ey - 53) by (unfold fexp, emin; lia).
  replace (ex - ey - (ex - ey - 53)) with 53 by lia.
  cbv iota. rewrite Z.shiftl_mul_pow2 by lia.
  pose proof (Z.div_mod (Z.pos mx * 2 ^ 53) (Z.pos my) ltac:(lia)) as Hdm.
  pose proof (Z.mod_pos_bound (Z.pos mx * 2 ^ 53) (Z.pos my) ltac:(lia)) as Hb.
  unfold Z.div, Z.modulo in Hdm, Hb.
  destruct (Z.div_eucl (Z.pos mx * 2 ^ 53) (Z.pos my)) as [q r].
  cbn [fst snd] in Hdm, Hb.
  assert (Hq : 2 ^ 52 <= q < 2 ^ 54) by nia.
  destruct (binary_round_aux_bracket q (ex - ey - 53) (new_location (Z.pos my) r)
              Hq ltac:(lia)) as (mz & k & Heq & Hmz & Hk & Hlo & Hhi).
  exists mz, k. split; [exact Heq|]. split; [exact Hmz|]. split; [exact Hk|].
  assert (0 < 2 ^ k) by (apply Z.pow_pos_nonneg; lia).
  split; nia.
Qed.

Lemma powerRZ_2_pos e : (0 < powerRZ 2 e)%R.
Proof. apply powerRZ_lt. lra. Qed.

Lemma powerRZ_2_Zpow k : 0 <= k -> powerRZ 2 k = IZR (2 ^ k).
Proof.
  intros Hk. destruct k as [|p|p]; [reflexivity| |lia].
  symmetry. apply (Zpower_pos_powerRZ 2 p).
Qed.

Lemma F2R_pos m e : 0 < m -> (0 < F2R m e)%R.
Proof.
  intros Hm. unfold F2R. apply Rmult_lt_0_compat; [|apply powerRZ_2_pos].
  apply IZR_lt. exact Hm.
Qed.

(** The unit of a normal number is at most [2 ^ -52] of it. *)
Lemma unit_small m e :
  2 ^ 52 <= m -> (powerRZ 2 e <= F2R m e * / IZR (2 ^ 52))%R.
Proof.
  intros Hm. unfold F2R. pose proof (powerRZ_2_pos e) as Hp.
  apply IZR_le in Hm.
  assert (0 < IZR (2 ^ 52))%R by (apply IZR_lt; reflexivity).
  apply Rmult_le_reg_r with (IZR (2 ^ 52)); [assumption|].
  replace (IZR m * powerRZ 2 e * / IZR (2 ^ 52) * IZR (2 ^ 52))%R
    with (IZR m * powerRZ 2 e)%R by (field; lra).
  rewrite Rmult_comm. apply Rmult_le_compat_r; lra.
Qed.

(** The bracket of [double_div_bracket], in real numbers. *)
Lemma bracket_R mx ex my ey mz k :
  0 < my -> 0 <= k ->
  (mz - 1) * 2 ^ k * my <= mx * 2 ^ 53 ->
  mx * 2 ^ 53 < (mz + 1) * 2 ^ k * my ->
  let e := ex - ey - 53 + k in
  ((F2R mz e - powerRZ 2 e) * F2R my ey <= F2R mx ex)%R /\
  (F2R mx ex < (F2R mz e + powerRZ 2 e) * F2R my ey)%R.
Proof.
  intros Hmy Hk Hlo Hhi e.
  assert (He : powerRZ 2 e
               = (powerRZ 2 ex * / powerRZ 2 ey * / IZR (2 ^ 53) * IZR (2 ^ k))%R).
  { subst e. replace (ex - ey - 53 + k) with (ex + - ey + Z.opp 53 + k) by lia.
    rewrite !powerRZ_add by lra. rewrite !powerRZ_neg'.
    rewrite (powerRZ_2_Zpow 53) by lia. rewrite (powerRZ_2_Zpow k) by lia.
    reflexivity. }
  unfold F2R. rewrite He.
  pose proof (powerRZ_2_pos ex) as Ha. pose proof (powerRZ_2_pos ey) as Hb.
  set (a := powerRZ 2 ex) in *. set (b := powerRZ 2 ey) in *.
  assert (H53 : (0 < IZR (2 ^ 53))%R) by (apply IZR_lt; reflexivity).
  apply IZR_le in Hlo. apply IZR_lt in Hhi.
  rewrite !mult_IZR in Hlo, Hhi. rewrite minus_IZR in Hlo. rewrite plus_IZR in Hhi.
  set (c := IZR (2 ^ 53)) in *. set (t := IZR (2 ^ k)) in *.
  assert (Hs : (0 < a * / c)%R).
  { apply Rmult_lt_0_compat; [exact Ha | apply Rinv_0_lt_compat; exact H53]. }
  split.
  - replace ((IZR mz * (a * / b * / c * t) - a * / b * / c * t) * (IZR my * b))%R
      with ((IZR mz - 1) * t * IZR my * (a * / c))%R by (field; lra).
    replace (IZR mx * a)%R with (IZR mx * c * (a * / c))%R by (field; lra).
    apply Rmult_le_compat_r; [lra | exact Hlo].
  - replace ((IZR mz * (a * / b * / c * t) + a * / b * / c * t) * (IZR my * b))%R
      with ((IZR mz + 1) * t * IZR my * (a * / c))%R by (field; lra).
    replace (IZR mx * a)%R with (IZR mx * c * (a * / c))%R by (field; lra).
    apply Rmult_lt_compat_r; [exact Hs | exact Hhi].
Qed.

(** The quotient of two normal numbers, rounded. *)
Lemma double_div_close mx ex my ey :
  2 ^ 52 <= Z.pos mx < 2 ^ 53 -> 2 ^ 52 <= Z.pos my < 2 ^ 53 ->
  -400 <= ex <= 400 -> -400 <= ey <= 400 ->
  exists mz ez,
    double_div (S754_finite false mx ex) (S754_finite false my ey)
    = S754_finite false mz ez /\
    2 ^ 52 <= Z.pos mz < 2 ^ 53 /\ ex - ey - 53 <= ez <= ex - ey - 51 /\
    close (F2R (Z.pos mz) ez * F2R (Z.pos my) ey) (F2R (Z.pos mx) ex).
Proof.
  intros Hx Hy Hex Hey.
  destruct (double_div_bracket mx ex my ey Hx Hy Hex Hey)
    as (mz & k & Heq & Hmz & Hk & Hlo & Hhi).
  exists mz, (ex - ey - 53 + k). split; [exact Heq|]. split; [exact Hmz|].
  split; [lia|].
  destruct (bracket_R (Z.pos mx) ex (Z.pos my) ey (Z.pos mz) k
              ltac:(lia) ltac:(lia) Hlo Hhi) as [Hl Hh].
  cbv zeta in Hl, Hh.
  pose proof (unit_small (Z.pos mz) (ex - ey - 53 + k) ltac:(lia)) as Hu.
  pose proof (F2R_pos (Z.pos my) ey ltac:(lia)) as Hyp.
  pose proof (F2R_pos (Z.pos mz) (ex - ey - 53 + k) ltac:(lia)) as Hzp.
  set (zv := F2R (Z.pos mz) (ex - ey - 53 + k)) in *.
  set (yv := F2R (Z.pos my) ey) in *.
  set (xv := F2R (Z.pos mx) ex) in *.
  set (u := powerRZ 2 (ex - ey - 53 + k)) in *.
  set (w := (/ IZR (2 ^ 52))%R) in *.
  unfold close. fold w. split.
  - apply Rle_trans with ((zv - u) * yv)%R; [|exact Hl].
    replace (zv * yv * (1 - w))%R with ((zv - zv * w) * yv)%R by ring.
    apply Rmult_le_compat_r; lra.
  - apply Rle_trans with ((zv + u) * yv)%R; [lra|].
    replace (zv * yv * (1 + w))%R with ((zv + zv * w) * yv)%R by ring.
    apply Rmult_le_compat_r; lra.
Qed.

Lemma F2R_exact m e n : Z.pos m = n * 2 ^ (- e) -> e <= 0 -> F2R (Z.pos m) e = IZR n.
Proof.
  intros Hm He.
  assert (Hp : powerRZ 2 e = (/ IZR (2 ^ (- e)))%R).
  { replace e with (- - e) at 1 by lia. rewrite powerRZ_neg'.
    rewrite (powerRZ_2_Zpow (- e)) by lia. reflexivity. }
  unfold F2R. rewrite Hm, mult_IZR, Hp.
  assert (0 < IZR (2 ^ (- e)))%R.
  { apply IZR_lt. apply Z.pow_pos_nonneg; lia. }
  field. lra.
Qed.

(** Three roundings: the quotient of the two quotients of line 85 is
    the exact rate up to [4 * 2 ^ -52] of it. *)
Lemma rate_close (S E B A Rv : R) :
  (0 < S)%R -> (0 < E)%R -> (0 < B)%R -> (0 < A)%R -> (0 < Rv)%R ->
  close (B * 1024) S -> close (A * 1000000) E -> close (Rv * A) B ->
  (S * 1000000 <= IZR (2 ^ 43) * (1024 * E))%R ->
  (S * 1000000 - 1024 * E / 2 < Rv * (1024 * E) < S * 1000000 + 1024 * E / 2)%R.
Proof.
  intros HS HE HB HA HR [b1 b2] [a1 a2] [r1 r2] Hbig.
  set (w := (/ IZR (2 ^ 52))%R) in *.
  assert (Hw : (0 < w)%R /\ (w * IZR (2 ^ 52) = 1)%R).
  { split; [apply Rinv_0_lt_compat, IZR_lt; reflexivity|].
    subst w. field. apply not_0_IZR. discriminate. }
  destruct Hw as [Hw0 Hw1].
  change (IZR (2 ^ 52)) with 4503599627370496%R in Hw1.
  change (IZR (2 ^ 43)) with 8796093022208%R in Hbig.
  assert (Hw8 : (w <= 1 / 4503599627370496)%R) by lra.
  set (P := (S * 1000000)%R) in *. set (T := (1024 * E)%R) in *.
  assert (HT : (0 < T)%R) by (subst T; lra).
  assert (HP : (0 < P)%R) by (subst P; lra).
  (* the upper bound *)
  assert (U1 : (Rv * T * ((1 - w) * (1 - w)) <= P * (1 + w))%R).
  { assert (s1 : (Rv * A * (1 - w) * (1024 * (1 - w)) <= B * (1024 * (1 - w)))%R)
      by (apply Rmult_le_compat_r; lra).
    assert (s2 : (B * 1024 * (1 - w) * (1000000 * (1 + w)) <= S * (1000000 * (1 + w)))%R)
      by (apply Rmult_le_compat_r; lra).
    assert (s3 : (E * (Rv * 1024 * ((1 - w) * (1 - w)))
                  <= A * 1000000 * (1 + w) * (Rv * 1024 * ((1 - w) * (1 - w))))%R).
    { apply Rmult_le_compat_r; [|lra].
      apply Rmult_le_pos; [lra|]. apply Rmult_le_pos; lra. }
    subst P T. nra. }
  assert (L1 : (P * (1 - w) <= Rv * T * ((1 + w) * (1 + w)))%R).
  { assert (s1 : (B * (1024 * (1 + w)) <= Rv * A * (1 + w) * (1024 * (1 + w)))%R)
      by (apply Rmult_le_compat_r; lra).
    assert (s2 : (S * (1000000 * (1 - w)) <= B * 1024 * (1 + w) * (1000000 * (1 - w)))%R)
      by (apply Rmult_le_compat_r; lra).
    assert (s3 : (A * 1000000 * (1 - w) * (Rv * 1024 * ((1 + w) * (1 + w)))
                  <= E * (Rv * 1024 * ((1 + w) * (1 + w))))%R).
    { apply Rmult_le_compat_r; [|lra].
      apply Rmult_le_pos; [lra|]. apply Rmult_le_pos; lra. }
    subst P T. nra. }
  assert (U2 : (P * (1 + w) <= (P + T / 128) * ((1 - w) * (1 - w)))%R) by nra.
  assert (L2 : ((P - T / 128) * ((1 + w) * (1 + w)) <= P * (1 - w))%R) by nra.
  assert (Hsq1 : (0 < (1 - w) * (1 - w))%R) by nra.
  assert (Hsq2 : (0 < (1 + w) * (1 + w))%R) by nra.
  split.
  - assert ((P - T / 128) <= Rv * T)%R.
    { apply Rmult_le_reg_r with ((1 + w) * (1 + w))%R; [exact Hsq2 | lra]. }
    lra.
  - assert (Rv * T <= P + T / 128)%R.
    { apply Rmult_le_reg_r with ((1 - w) * (1 - w))%R; [exact Hsq1 | lra]. }
    lra.
Qed.

(** The conversion to [uint32_t] takes the integer part. *)
Lemma uint32_of_double_floor m e :
  exists a,
    (IZR a <= F2R (Z.pos m) e < IZR a + 1)%R /\ 0 <= a /\
    uint32_of_double (S754_finite false m e)
    = if a <? 2 ^ 32 then Some a else None.
Proof.
  unfold uint32_of_double.
  destruct (Z.leb_spec 0 e) as [He|He].
  - exists (Z.pos m * 2 ^ e).
    assert (0 < 2 ^ e) by (apply Z.pow_pos_nonneg; lia).
    split; [|split; [nia|]].
    + unfold F2R. rewrite (powerRZ_2_Zpow e) by lia. rewrite mult_IZR. lra.
    + replace (0 <=? Z.pos m * 2 ^ e) with true
        by (symmetry; apply Z.leb_le; nia).
      reflexivity.
  - assert (Ht : 0 < 2 ^ (- e)) by (apply Z.pow_pos_nonneg; lia).
    pose proof (Z.div_mod (Z.pos m) (2 ^ (- e)) ltac:(lia)) as Hd.
    pose proof (Z.mod_pos_bound (Z.pos m) (2 ^ (- e)) Ht) as Hb.
    exists (Z.pos m / 2 ^ (- e)).
    assert (Hq : 0 <= Z.pos m / 2 ^ (- e)) by (apply Z.div_pos; lia).
    split; [|split; [exact Hq|]].
    + assert (Hp : powerRZ 2 e = (/ IZR (2 ^ (- e)))%R).
      { replace e with (- - e) at 1 by lia. rewrite powerRZ_neg'.
        rewrite (powerRZ_2_Zpow (- e)) by lia. reflexivity. }
      unfold F2R. rewrite Hp.
      set (t := 2 ^ (- e)) in *. set (q := Z.pos m / t) in *.
      assert (HtR : (0 < IZR t)%R) by (apply IZR_lt; exact Ht).
      assert (H1 : (IZR q * IZR t <= IZR (Z.pos m))%R).
      { rewrite <- mult_IZR. apply IZR_le. nia. }
      assert (H2 : (IZR (Z.pos m) < (IZR q + 1) * IZR t)%R).
      { rewrite <- (plus_IZR q 1), <- mult_IZR. apply IZR_lt. nia. }
      split.
      * apply Rmult_le_reg_r with (IZR t); [exact HtR|].
        replace (IZR (Z.pos m) * / IZR t * IZR t)%R with (IZR (Z.pos m)) by (field; lra).
        exact H1.
      * apply Rmult_lt_reg_r with (IZR t); [exact HtR|].
        replace (IZR (Z.pos m) * / IZR t * IZR t)%R with (IZR (Z.pos m)) by (field; lra).
        exact H2.
    + replace (0 <=? Z.pos m / 2 ^ (- e)) with true
        by (symmetry; apply Z.leb_le; exact Hq).
      reflexivity.
Qed.

(** The figure of line 86, against the exact quotient. *)
Lemma data_rate_bracket size elapsed :
  0 <= size < 2 ^ 32 -> 1 <= elapsed < 2 ^ 32 ->
  let q := size * 1000000 / (1024 * elapsed) in
  (q + 1 < 2 ^ 32 ->
     exists v, data_rate size elapsed = Some v /\ q - 1 <= v <= q + 1) /\
  (2 ^ 32 < q -> data_rate size elapsed = None).
Proof.
  intros Hs He q. unfold data_rate.
  destruct (double_of_Z_normal 1024 ltac:(lia)) as (mK & eK & HfK & HmK & HeK & HvK).
  destruct (double_of_Z_normal 1000000 ltac:(lia)) as (mM & eM & HfM & HmM & HeM & HvM).
  destruct (double_of_Z_normal elapsed ltac:(lia)) as (mE & eE & HfE & HmE & HeE & HvE).
  rewrite HfK, HfM, HfE.
  destruct (double_div_close mE eE mM eM HmE HmM ltac:(lia) ltac:(lia))
    as (ma & ea & Hfa & Hma & Hea & Hca).
  rewrite Hfa.
  destruct (Z.eq_dec size 0) as [->|Hnz].
  { assert (Hq : q = 0) by (subst q; apply Z.div_0_l; lia).
    rewrite Hq. change (double_of_Z 0) with (S754_zero false). cbn.
    split; [|lia]. intros _. exists 0. split; [reflexivity | lia]. }
  destruct (double_of_Z_normal size ltac:(lia)) as (mS & eS & HfS & HmS & HeS & HvS).
  rewrite HfS.
  destruct (double_div_close mS eS mK eK HmS HmK ltac:(lia) ltac:(lia))
    as (mb & eb & Hfb & Hmb & Heb & Hcb).
  rewrite Hfb.
  destruct (double_div_close mb eb ma ea Hmb Hma ltac:(lia) ltac:(lia))
    as (mr & er & Hfr & Hmr & Her & Hcr).
  rewrite Hfr.
  rewrite (F2R_exact mK eK 1024 HvK ltac:(lia)) in Hcb.
  rewrite (F2R_exact mS eS size HvS ltac:(lia)) in Hcb.
  rewrite (F2R_exact mM eM 1000000 HvM ltac:(lia)) in Hca.
  rewrite (F2R_exact mE eE elapsed HvE ltac:(lia)) in Hca.
  destruct (uint32_of_double_floor mr er) as (v & Hv & Hv0 & Hu). rewrite Hu.
  assert (HD : 0 < 1024 * elapsed) by lia.
  pose proof (Z.div_mod (size * 1000000) (1024 * elapsed) ltac:(lia)) as Hdm.
  pose proof (Z.mod_pos_bound (size * 1000000) (1024 * elapsed) HD) as Hmb'.
  fold q in Hdm.
  assert (Hq0 : 0 <= q) by (subst q; apply Z.div_pos; lia).
  assert (HbigZ : size * 1000000 <= 2 ^ 43 * (1024 * elapsed)) by lia.
  pose proof (rate_close (IZR size) (IZR elapsed) (F2R (Z.pos mb) eb)
                (F2R (Z.pos ma) ea) (F2R (Z.pos mr) er)
                ltac:(apply IZR_lt; lia) ltac:(apply IZR_lt; lia)
                ltac:(apply F2R_pos; lia) ltac:(apply F2R_pos; lia)
                ltac:(apply F2R_pos; lia) Hcb Hca Hcr) as Hrc.
  assert (HbigR : (IZR size * 1000000 <= IZR (2 ^ 43) * (1024 * IZR elapsed))%R).
  { apply IZR_le in HbigZ. rewrite !mult_IZR in HbigZ. exact HbigZ. }
  specialize (Hrc HbigR). clear HbigR.
  set (rv := F2R (Z.pos mr) er) in *.
  (* the integer bracket of the exact quotient *)
  assert (Hlo : (IZR q * (1024 * IZR elapsed) <= IZR size * 1000000)%R).
  { replace (IZR q * (1024 * IZR elapsed))%R with (IZR (1024 * elapsed * q))
      by (rewrite !mult_IZR; ring).
    replace (IZR size * 1000000)%R with (IZR (size * 1000000))
      by (rewrite mult_IZR; reflexivity).
    apply IZR_le. lia. }
  assert (Hhi : (IZR size * 1000000 < (IZR q + 1) * (1024 * IZR elapsed))%R).
  { replace ((IZR q + 1) * (1024 * IZR elapsed))%R with (IZR (1024 * elapsed * (q + 1)))
      by (rewrite !mult_IZR, plus_IZR; ring).
    replace (IZR size * 1000000)%R with (IZR (size * 1000000))
      by (rewrite mult_IZR; reflexivity).
    apply IZR_lt. nia. }
  assert (HT : (0 < 1024 * IZR elapsed)%R).
  { assert (0 < IZR elapsed)%R by (apply IZR_lt; lia). lra. }
  set (T := (1024 * IZR elapsed)%R) in *.
  assert (Hv1 : (IZR v - 2 < IZR q)%R /\ (IZR q < IZR v + 2)%R).
  { split.
    - apply Rmult_lt_reg_r with T; [exact HT|]. nra.
    - apply Rmult_lt_reg_r with T; [exact HT|]. nra. }
  destruct Hv1 as [Hv1 Hv2].
  assert (Hvq : q - 1 <= v <= q + 1).
  { split.
    - assert (q < v + 2); [|lia]. apply lt_IZR. rewrite plus_IZR. exact Hv2.
    - assert (v - 2 < q); [|lia]. apply lt_IZR. rewrite minus_IZR. exact Hv1. }
  split.
  - intros Hsmall. exists v.
    replace (v <? 2 ^ 32) with true by (symmetry; apply Z.ltb_lt; lia).
    split; [reflexivity | exact Hvq].
  - intros Hlarge.
    replace (v <? 2 ^ 32) with false by (symmetry; apply Z.ltb_ge; lia).
    reflexivity.
Qed.

Lemma uint32_of_double_range x v :
  uint32_of_double x = Some v -> 0 <= v < 2 ^ 32.
Proof.
  unfold uint32_of_double. destruct x as [s|s| |s m e]; try discriminate.
  - intros H. injection H as <-. lia.
  - destruct ((0 <=? _) && (_ <? 2 ^ 32)) eqn:E; [|discriminate].
    intros H. injection H as <-. apply andb_true_iff in E as [E1 E2].
    apply Z.leb_le in E1. apply Z.ltb_lt in E2. lia.
Qed.

Lemma printf_d_value v :
  0 <= v < 2 ^ 32 -> printf_d v = if v <? 2 ^ 31 then v else v - 2 ^ 32.
Proof.
  intros Hv. unfold printf_d, int.
  destruct (Z.ltb_spec v (2 ^ 31)).
  - rewrite Z.mod_small by lia. lia.
  - replace (v + 2 ^ 31) with (v - 2 ^ 31 + 1 * 2 ^ 32) by lia.
    rewrite Z.mod_add by lia. rewrite Z.mod_small by lia. lia.
Qed.

Lemma double_div_by_zero x :
  uint32_of_double (double_div x (S754_zero false)) = None.
Proof. destruct x; reflexivity. Qed.

Lemma data_rate_zero size : data_rate size 0 = None.
Proof.
  unfold data_rate.
  assert (H : double_div (double_of_Z 0) (double_of_Z 1000000) = S754_zero false)
    by (vm_compute; reflexivity).
  rewrite H. apply double_div_by_zero.
Qed.

(** C4, as amended: from the start of a window, the first
    [queuedepth - 1] completions print no report and leave
    [transfer_index] at their number; the completion that follows prints
    one report and sets [transfer_index] and [transfer_size] back to 0 and
    [tv_start] to the time of the report; from the start of the session
    the reports come at every [queuedepth]-th completion. The figure of
    the report is computed from the bytes of the window modulo [2 ^ 32]
    and the microseconds since the window started modulo [2 ^ 32]: with
    no microsecond elapsed it is undefined; else it is within 1 of the
    integer part of bytes * 1000000 / (1024 * microseconds), kilobytes
    per second, where that is below [2 ^ 32 - 1], and undefined where
    that is above [2 ^ 32]; and [%d] shows a figure from [2 ^ 31] on as
    the figure minus [2 ^ 32]. *)
Theorem statistics_window qd g win c :
  1 <= qd < 2 ^ 32 ->
  queuedepth g = qd -> transfer_index g = 0 -> transfer_size g = 0 ->
  Z.of_nat (length win) + 1 = qd ->
  (forall k, (k <= length win)%nat ->
     reports (snd (run_callbacks g (take k win))) = [] /\
     transfer_index (fst (run_callbacks g (take k win))) = Z.of_nat k /\
     transfer_size (fst (run_callbacks g (take k win))) = window_bytes (take k win)) /\
  (let g' := fst (run_callbacks g (win ++ [c])) in
   reports (snd (run_callbacks g (win ++ [c])))
     = [EvReport (success_count g') (failure_count g') (actual_length (c_transfer c))
          (data_rate (window_bytes (win ++ [c]))
             (elapsed_usec (tv_start g) (c_now c)))] /\
   queuedepth g' = qd /\ transfer_index g' = 0 /\ transfer_size g' = 0 /\
   tv_start g' = c_now c) /\
  (forall cs,
     transfer_index (fst (run_callbacks (initial_globals qd) cs))
       = Z.of_nat (length cs) mod qd /\
     Z.of_nat (length (reports (snd (run_callbacks (initial_globals qd) cs))))
       = Z.of_nat (length cs) / qd) /\
  (let bytes := window_bytes (win ++ [c]) in
   let usec := elapsed_usec (tv_start g) (c_now c) in
   bytes = fold_right Z.add 0 (map received (win ++ [c])) mod 2 ^ 32 /\
   usec = ((tv_sec (c_now c) - tv_sec (tv_start g)) * 1000000
           + (tv_usec (c_now c) - tv_usec (tv_start g))) mod 2 ^ 32 /\
   (usec = 0 -> data_rate bytes usec = None) /\
   (1 <= usec ->
      let q := bytes * 1000000 / (1024 * usec) in
      (q + 1 < 2 ^ 32 ->
         exists v, data_rate bytes usec = Some v /\ q - 1 <= v <= q + 1) /\
      (2 ^ 32 < q -> data_rate bytes usec = None)) /\
   (forall v, data_rate bytes usec = Some v ->
      0 <= v < 2 ^ 32 /\
      printf_d v = if v <? 2 ^ 31 then v else v - 2 ^ 32)).
Proof.
  intros Hqd Hq Hi Hs Hlen. split; [|split; [|split]].
  - intros k Hk.
    destruct (inside_window g (take k win) ltac:(lia) Hi Hs) as (Hr & _ & Hidx & Hsz & _).
    { rewrite length_take. lia. }
    rewrite length_take in Hidx. repeat split; auto.
    rewrite Hidx. lia.
  - cbv zeta.
    destruct (inside_window g win ltac:(lia) Hi Hs ltac:(lia))
      as (Hr & Hq1 & Hidx & Hsz & Htv).
    rewrite run_callbacks_app, run_callbacks_one. cbn [fst snd].
    set (g1 := fst (run_callbacks g win)) in *.
    pose proof (callback_globals g1 (c_transfer c) (c_now c) (c_submit_ret c)) as Hcb.
    cbv zeta in Hcb. destruct Hcb as (Hq' & _ & _ & _ & Hi' & Hs' & Ht').
    assert (Hb : at_boundary g1 = true).
    { unfold at_boundary. rewrite Hidx, Hq1. unfold unsigned.
      rewrite Z.mod_small by lia. apply Z.eqb_eq. lia. }
    rewrite Hb in *.
    rewrite reports_app, Hr, callback_reports, Hb.
    rewrite Hsz, Htv, received_eta, window_bytes_snoc.
    repeat split; auto. lia.
  - intros cs. destruct (window_every_qd qd cs Hqd) as (_ & H1 & H2). auto.
  - cbv zeta. split; [reflexivity|]. split; [reflexivity|].
    assert (Hbytes : 0 <= window_bytes (win ++ [c]) < 2 ^ 32)
      by (apply Z.mod_pos_bound; lia).
    assert (Husec : 0 <= elapsed_usec (tv_start g) (c_now c) < 2 ^ 32)
      by (apply Z.mod_pos_bound; lia).
    split; [intros ->; apply data_rate_zero|].
    split.
    + intros Hpos. apply data_rate_bracket; lia.
    + intros v Hv. apply uint32_of_double_range in Hv.
      split; [exact Hv | apply printf_d_value; exact Hv].
Qed.

Lemma statistics_window_witness :
  let win := repeat (Completion (Transfer 0 LIBUSB_TRANSFER_COMPLETED 65536)
                       (Timeval 2 0) 0) 15 in
  let c := Completion (Transfer 0 LIBUSB_TRANSFER_COMPLETED 65536) (Timeval 2 0) 0 in
  reports (snd (run_callbacks (initial_globals 16) (win ++ [c])))
  = [EvReport 16 0 65536 (Some 512)] /\
  transfer_index (fst (run_callbacks (initial_globals 16) (win ++ [c]))) = 0 /\
  transfer_size (fst (run_callbacks (initial_globals 16) (win ++ [c]))) = 0 /\
  window_bytes (win ++ [c]) = 1048576 /\
  elapsed_usec (tv_start (initial_globals 16)) (c_now c) = 2000000 /\
  exists v,
    data_rate (window_bytes (win ++ [c]))
      (elapsed_usec (tv_start (initial_globals 16)) (c_now c)) = Some v /\
    1048576 * 1000000 / (1024 * 2000000) - 1 <= v
      <= 1048576 * 1000000 / (1024 * 2000000) + 1.
Proof.
  cbv zeta.
  pose proof (statistics_window 16 (initial_globals 16)
    (repeat (Completion (Transfer 0 LIBUSB_TRANSFER_COMPLETED 65536) (Timeval 2 0) 0) 15)
    (Completion (Transfer 0 LIBUSB_TRANSFER_COMPLETED 65536) (Timeval 2 0) 0)
    ltac:(lia) eq_refl eq_refl eq_refl eq_refl) as (_ & H & _ & Hrate).
  cbv zeta in H, Hrate. destruct H as (Hr & _ & Hi & Hs & _).
  destruct Hrate as (Hb & Hu & _ & Hq & _).
  assert (Hbytes : window_bytes
            (repeat (Completion (Transfer 0 LIBUSB_TRANSFER_COMPLETED 65536)
                       (Timeval 2 0) 0) 15
             ++ [Completion (Transfer 0 LIBUSB_TRANSFER_COMPLETED 65536)
                   (Timeval 2 0) 0]) = 1048576) by (vm_compute; reflexivity).
  assert (Husec : elapsed_usec (tv_start (initial_globals 16))
                    (c_now (Completion (Transfer 0 LIBUSB_TRANSFER_COMPLETED 65536)
                              (Timeval 2 0) 0)) = 2000000)
    by (vm_compute; reflexivity).
  split; [vm_compute; reflexivity|]. split; [exact Hi|]. split; [exact Hs|].
  split; [exact Hbytes|]. split; [exact Husec|].
  rewrite Hbytes, Husec in Hq |- *.
  destruct (Hq ltac:(lia)) as [Hsome _]. apply Hsome. vm_compute. reflexivity.
Defined.

(** A window of 1048576 bytes that lasts 4295 seconds: the microseconds
    wrap around [2 ^ 32] and the figure is that of 32704 microseconds. *)
Lemma long_window_wraps :
  elapsed_usec (Timeval 0 0) (Timeval 4295 0) = 32704 /\
  data_rate 1048576 (elapsed_usec (Timeval 0 0) (Timeval 4295 0)) = Some 31311 /\
  1048576 * 1000000 / (1024 * 4295000000) = 0.
Proof. repeat split; vm_compute; reflexivity. Qed.

(** A window of 1048576 bytes received in one second is reported as 1024,
    not as 1048576 bytes per second. *)
Lemma rate_is_in_kilobytes :
  reports (snd (run_callbacks (initial_globals 16) full_window))
  = [EvReport 16 0 65536 (Some 1024)] /\
  window_bytes full_window = 1048576 /\
  elapsed_usec (tv_start (initial_globals 16)) (Timeval 1 0) = 1000000 /\
  1048576 / (1000000 / 1000000) <> 1024.
Proof. repeat split; vm_compute; congruence. Qed.

Lemma repeat_success g c n :
  completed (status (c_transfer c)) = true ->
  success_count (fst (run_callbacks g (repeat c n)))
  = (if decide (n = 0%nat) then success_count g
     else unsigned (success_count g + Z.of_nat n)).
Proof.
  intros Hok. revert g. induction n as [|n IH]; intros g; [reflexivity|].
  cbn [repeat]. change (c :: repeat c n) with ([c] ++ repeat c n).
  rewrite run_callbacks_app, run_callbacks_one. cbn [fst snd].
  rewrite IH.
  pose proof (callback_globals g (c_transfer c) (c_now c) (c_submit_ret c)) as Hcb.
  cbv zeta in Hcb. destruct Hcb as (_ & _ & Hsc & _). rewrite Hok in Hsc.
  rewrite Hsc. destruct (decide (n = 0%nat)) as [->|Hn].
  - reflexivity.
  - destruct (decide (S n = 0%nat)); [lia|]. unfold unsigned.
    rewrite Zplus_mod_idemp_l. f_equal. lia.
Qed.

(** C10, as amended: the end of a window sets only [transfer_index] and
    [transfer_size] back to 0 and leaves the two counts alone; a
    completion adds one, modulo [2 ^ 32], to exactly one of
    [success_count] and [failure_count]; a count below [2 ^ 32 - 1] does
    not decrease. *)
Theorem counters_never_reset g t now ret :
  0 <= success_count g < 2 ^ 32 -> 0 <= failure_count g < 2 ^ 32 ->
  let g1 := count_completion g t in
  let g2 := fst (window_report g1 t now) in
  let g' := fst (transfer_callback g t now ret) in
  (success_count g2 = success_count g1 /\ failure_count g2 = failure_count g1 /\
   xfers_in_progress g2 = xfers_in_progress g1 /\
   stop_transfers g2 = stop_transfers g1 /\ queuedepth g2 = queuedepth g1 /\
   (transfer_index g1 = queuedepth g1 ->
      transfer_index g2 = 0 /\ transfer_size g2 = 0) /\
   (transfer_index g1 <> queuedepth g1 -> g2 = g1)) /\
  (if completed (status t)
   then success_count g' = (success_count g + 1) mod 2 ^ 32 /\
        failure_count g' = failure_count g
   else failure_count g' = (failure_count g + 1) mod 2 ^ 32 /\
        success_count g' = success_count g) /\
  (success_count g < 2 ^ 32 - 1 ->
     success_count g <= success_count g' <= success_count g + 1) /\
  (failure_count g < 2 ^ 32 - 1 ->
     failure_count g <= failure_count g' <= failure_count g + 1).
Proof.
  intros Hs Hf. cbv zeta.
  pose proof (callback_globals g t now ret) as Hcb.
  cbv zeta in Hcb. destruct Hcb as (_ & _ & Hsc & Hfc & _).
  split; [|split; [|split]].
  - unfold window_report.
    destruct (Z.eqb_spec (transfer_index (count_completion g t))
                (queuedepth (count_completion g t))) as [He|Hne];
      cbn [fst success_count failure_count xfers_in_progress stop_transfers
             queuedepth transfer_index transfer_size];
      repeat split; auto; intros; congruence.
  - rewrite Hsc, Hfc. unfold unsigned. destruct (completed (status t)); auto.
  - intros Hlt. rewrite Hsc. unfold unsigned.
    destruct (completed (status t)); [rewrite Z.mod_small by lia|]; lia.
  - intros Hlt. rewrite Hfc. unfold unsigned.
    destruct (completed (status t)); [|rewrite Z.mod_small by lia]; lia.
Qed.

Lemma counters_never_reset_witness :
  let g := initial_globals 16 in
  let t := Transfer 0 LIBUSB_TRANSFER_COMPLETED 65536 in
  success_count (fst (transfer_callback g t (Timeval 1 0) 0)) = 1 /\
  failure_count (fst (transfer_callback g t (Timeval 1 0) 0)) = 0.
Proof.
  cbv zeta.
  destruct (counters_never_reset (initial_globals 16)
              (Transfer 0 LIBUSB_TRANSFER_COMPLETED 65536) (Timeval 1 0) 0)
    as (_ & H & _).
  - cbn. lia.
  - cbn. lia.
  - cbn [completed status] in H. exact H.
Defined.

Lemma repeat_success_Z g c n :
  completed (status (c_transfer c)) = true -> 0 < n ->
  success_count (fst (run_callbacks g (repeat c (Z.to_nat n))))
  = unsigned (success_count g + n).
Proof.
  intros Hok Hn. rewrite repeat_success by exact Hok.
  destruct (decide (Z.to_nat n = 0%nat)); [lia|].
  rewrite Z2Nat.id by lia. reflexivity.
Qed.

(** After [2 ^ 32 - 1] successful completions one more takes
    [success_count] from [2 ^ 32 - 1] to 0. *)
Lemma success_count_wraps :
  let g := fst (run_callbacks (initial_globals 16)
                  (repeat one_success (Z.to_nat (2 ^ 32 - 1)))) in
  let g' := fst (transfer_callback g (c_transfer one_success)
                   (c_now one_success) (c_submit_ret one_success)) in
  success_count g = 2 ^ 32 - 1 /\ success_count g' = 0 /\
  ~ success_count g <= success_count g'.
Proof.
  cbv zeta.
  assert (Hrun : success_count (fst (run_callbacks (initial_globals 16)
                  (repeat one_success (Z.to_nat (2 ^ 32 - 1))))) = 2 ^ 32 - 1).
  { rewrite repeat_success_Z; [reflexivity | reflexivity | reflexivity]. }
  generalize dependent (fst (run_callbacks (initial_globals 16)
                  (repeat one_success (Z.to_nat (2 ^ 32 - 1))))).
  intros g Hrun.
  pose proof (callback_globals g
    (c_transfer one_success) (c_now one_success) (c_submit_ret one_success)) as Hcb.
  cbv zeta in Hcb. destruct Hcb as (_ & _ & Hsc & _).
  change (completed (status (c_transfer one_success))) with true in Hsc.
  cbv iota in Hsc. rewrite Hrun in Hsc.
  rewrite Hrun, Hsc. split; [reflexivity|]. split; [reflexivity|].
  vm_compute. intros H. apply H. reflexivity.
Qed.

(** ** The session *)

Lemma int_int_add x y : int (int x + y) = int (x + y).
Proof.
  unfold int. f_equal.
  replace ((x + 2 ^ 31) mod 2 ^ 32 - 2 ^ 31 + y + 2 ^ 31)
    with ((x + 2 ^ 31) mod 2 ^ 32 + y) by lia.
  rewrite Zplus_mod_idemp_l. f_equal. lia.
Qed.

Lemma int_idem x : int (int x) = int x.
Proof.
  pose proof (int_int_add x 0) as H. rewrite !Z.add_0_r in H. exact H.
Qed.

Lemma int_int_sub x y : int (int x - y) = int (x - y).
Proof. apply (int_int_add x (- y)). Qed.

Lemma int_le n q : 0 <= n <= q -> q < 2 ^ 32 -> int n <= q.
Proof.
  intros Hn Hq. unfold int.
  destruct (Z.lt_ge_cases n (2 ^ 31)).
  - rewrite Z.mod_small by lia. lia.
  - pose proof (Z.mod_pos_bound (n + 2 ^ 31) (2 ^ 32) ltac:(lia)). lia.
Qed.

Lemma int_zero n : 0 <= n < 2 ^ 32 -> int n = 0 <-> n = 0.
Proof.
  intros Hn. unfold int. split; [|intros ->; reflexivity].
  intros H.
  destruct (Z.lt_ge_cases n (2 ^ 31)).
  - rewrite Z.mod_small in H by lia. lia.
  - replace (n + 2 ^ 31) with (n - 2 ^ 31 + 1 * 2 ^ 32) in H by lia.
    rewrite Z.mod_add in H by lia. rewrite Z.mod_small in H by lia. lia.
Qed.

Lemma callback_xfers g t now ret :
  xfers_in_progress (fst (transfer_callback g t now ret))
  = (if negb (stop_transfers g) && (ret =? 0) then int (xfers_in_progress g)
     else int (xfers_in_progress g - 1)).
Proof.
  unfold transfer_callback, window_report, resubmit, count_completion.
  cbn [transfer_index queuedepth].
  destruct (unsigned (transfer_index g + 1) =? queuedepth g);
    cbn [stop_transfers]; destruct (stop_transfers g); cbn;
    try reflexivity; destruct (ret =? 0); try reflexivity;
    rewrite int_int_add; f_equal; lia.
Qed.

Lemma callback_events g t now ret :
  exists printed,
    snd (transfer_callback g t now ret) = printed ++ callback_submits g t ret /\
    Forall (fun e => e <> EvStop /\ e <> EvHandleEvents /\
                     e <> EvFreeTransferBuffers /\
                     forall o, ~ is_submit o e) printed.
Proof.
  unfold transfer_callback, window_report, resubmit, count_completion, callback_submits.
  cbn [transfer_index queuedepth].
  destruct (unsigned (transfer_index g + 1) =? queuedepth g);
    cbn [stop_transfers]; destruct (stop_transfers g); cbn [snd];
    unfold status_message; destruct (completed (status t)); cbn [app];
    eexists; (split; [try reflexivity|]).
  all: try (rewrite app_nil_r; reflexivity).
  all: try (instantiate (1 := [_]); reflexivity).
  all: try (instantiate (1 := [_; _]); reflexivity).
  all: try (instantiate (1 := []); reflexivity).
  all: repeat constructor; try discriminate; intros o (i & r & H); discriminate.
Qed.

Lemma submit_loop_fields s i :
  vars (submit_loop s i) = vars s /\ mem (submit_loop s i) = mem s /\
  pending (submit_loop s i) = pending s /\
  (at_ (submit_loop s i) = Submitting i /\ trace (submit_loop s i) = trace s /\
   Z.of_nat i < queuedepth (vars s) \/
   at_ (submit_loop s i) = Dispatching /\
   trace (submit_loop s i)
     = trace s ++ [EvCommand STARTADC (150 * 1000 * 1000);
                   EvCommand STARTFX3 0; EvHandleEvents]).
Proof.
  unfold submit_loop. destruct (Z.ltb_spec (Z.of_nat i) (queuedepth (vars s)));
    cbn; auto 10.
Qed.

Lemma drain_loop_fields s :
  pending (drain_loop s) = pending s /\
  xfers_in_progress (vars (drain_loop s)) = xfers_in_progress (vars s) /\
  queuedepth (vars (drain_loop s)) = queuedepth (vars s) /\
  stop_transfers (vars (drain_loop s)) = stop_transfers (vars s) /\
  match at_ (drain_loop s) with Submitting _ => False | _ => True end.
Proof.
  unfold drain_loop, finish.
  destruct (xfers_in_progress (vars s) =? 0); [|cbn; auto].
  destruct (free_transfer_buffers (mem s)); cbn; auto.
Qed.

Lemma session_inv_start qd a now : 0 <= qd -> session_inv qd (start qd a now).
Proof.
  intros Hqd. unfold start.
  destruct (allocate qd a) as [m allocfail].
  assert (Hgen : forall m' tr,
    session_inv qd (submit_loop
      {| vars := set_tv_start (initial_globals qd) now; mem := m';
         pending := ∅; trace := tr; at_ := Submitting 0 |} 0)).
  { intros m' tr.
    destruct (submit_loop_fields
      {| vars := set_tv_start (initial_globals qd) now; mem := m';
         pending := ∅; trace := tr; at_ := Submitting 0 |} 0)
      as (Hv & _ & Hp & Hat).
    unfold session_inv. rewrite Hv, Hp. cbn.
    split; [reflexivity|]. split; [set_solver|]. split; [reflexivity|].
    destruct Hat as [(-> & _ & Hlt)|[-> _]]; [cbn in Hlt; set_solver | exact I]. }
  destruct allocfail; [|apply Hgen].
  destruct (free_transfer_buffers m); [apply Hgen|].
  unfold session_inv. cbn. split; [reflexivity|]. split; [set_solver|]. auto.
Qed.

Lemma complete_inv qd s c :
  qd < 2 ^ 32 -> session_inv qd s ->
  match at_ s with Submitting _ => False | _ => True end ->
  session_inv qd (complete s c).
Proof.
  intros Hqd (Hq & Hlt & Hx & Hat) Hplace. unfold complete.
  destruct (bool_decide_reflect (slot (c_transfer c) ∈ pending s)) as [Hin|Hnin].
  2:{ repeat split; auto. }
  pose proof (callback_globals (vars s) (c_transfer c) (c_now c) (c_submit_ret c)) as Hg.
  pose proof (callback_xfers (vars s) (c_transfer c) (c_now c) (c_submit_ret c)) as Hxf.
  destruct (transfer_callback (vars s) (c_transfer c) (c_now c) (c_submit_ret c))
    as [g evs]. cbn [fst snd] in *. cbv zeta in Hg. destruct Hg as (Hq' & _).
  unfold session_inv. cbn [vars pending at_].
  split; [congruence|].
  assert (Hsz : (0 < size (pending s))%nat).
  { destruct (decide (size (pending s) = 0%nat)) as [Hz|]; [|lia].
    apply size_empty_inv in Hz. apply Hz in Hin. destruct (not_elem_of_empty _ Hin). }
  destruct (negb (stop_transfers (vars s)) && (c_submit_ret c =? 0)).
  - split; [exact Hlt|]. split.
    + rewrite Hxf, Hx, int_idem. reflexivity.
    + destruct (at_ s); try contradiction; auto.
  - split; [intros i Hi; apply Hlt; apply elem_of_difference in Hi; tauto|]. split.
    + rewrite Hxf, Hx, int_int_sub. f_equal.
      rewrite size_difference by set_solver. rewrite size_singleton. lia.
    + destruct (at_ s); try contradiction; auto.
Qed.

Lemma session_inv_step qd s l :
  0 <= qd < 2 ^ 32 -> session_inv qd s -> session_inv qd (step s l).
Proof.
  intros Hqd Hinv. pose proof Hinv as (Hq & Hlt & Hx & Hat).
  unfold step.
  destruct (at_ s) as [i| | | |] eqn:Hplace; destruct l as [ret|c| |];
    try exact Hinv;
    try (unfold session_inv, sig_hdlr; cbn; rewrite Hplace; auto; fail).
  - (* one pass of the submission loop *)
    destruct Hat as [Hi Hat].
    unfold submit_initial.
    destruct (slot_ready (mem s) i).
    2:{ unfold session_inv. cbn. auto. }
    match goal with |- session_inv _ (submit_loop ?s0 _) =>
      destruct (submit_loop_fields s0 (S i)) as (Hv & _ & Hp & Hat');
      set (s1 := s0) in * end.
    unfold session_inv. rewrite Hv, Hp. subst s1. cbn [vars pending] in *.
    assert (Hfresh : i ∉ pending s) by (intros Hin; apply Hat in Hin; lia).
    destruct (Z.eqb_spec ret 0) as [->|Hret]; cbn [queuedepth xfers_in_progress incr_xfers].
    + split; [exact Hq|]. split.
      { intros j Hj. apply elem_of_union in Hj as [Hj|Hj]; [|auto].
        apply elem_of_singleton in Hj. subst j. exact Hi. }
      split.
      { rewrite Hx, int_int_add. f_equal.
        rewrite size_union by (apply disjoint_singleton_l; exact Hfresh).
        rewrite size_singleton. lia. }
      destruct Hat' as [(-> & _ & Hlt')|[-> _]]; [|exact I].
      split; [cbn in Hlt'; lia|].
      intros j Hj. apply elem_of_union in Hj as [Hj|Hj].
      * apply elem_of_singleton in Hj. lia.
      * apply Hat in Hj. lia.
    + split; [exact Hq|]. split; [exact Hlt|]. split; [exact Hx|].
      destruct Hat' as [(-> & _ & Hlt')|[-> _]]; [|exact I].
      split; [lia|]. intros j Hj. apply Hat in Hj. lia.
  - apply complete_inv; [lia | exact Hinv | rewrite Hplace; exact I].
  - (* the test of the dispatch loop *)
    unfold dispatch_loop. destruct (stop_transfers (vars s)).
    + match goal with |- session_inv _ (drain_loop ?s0) =>
        destruct (drain_loop_fields s0) as (Hp & Hxf & Hq' & _ & Hat') end.
      unfold session_inv. rewrite Hp, Hxf, Hq'. cbn.
      split; [exact Hq|]. split; [exact Hlt|]. split; [exact Hx|].
      match goal with |- match ?p with _ => _ end =>
        destruct p; [contradiction | exact I ..] end.
    + unfold session_inv. cbn. auto.
  - apply complete_inv; [lia | exact Hinv | rewrite Hplace; exact I].
  - destruct (drain_loop_fields s) as (Hp & Hxf & Hq' & _ & Hat').
    unfold session_inv. rewrite Hp, Hxf, Hq'.
    split; [exact Hq|]. split; [exact Hlt|]. split; [exact Hx|].
    match goal with |- match ?p with _ => _ end =>
      destruct p; [contradiction | exact I ..] end.
Qed.

Lemma session_inv_run qd s ls :
  0 <= qd < 2 ^ 32 -> session_inv qd s -> session_inv qd (run s ls).
Proof.
  intros Hqd. revert s. induction ls as [|l ls IH]; intros s Hinv; [exact Hinv|].
  cbn [run fold_left]. apply IH. apply session_inv_step; assumption.
Qed.

Lemma pending_bounded qd s :
  0 <= qd -> session_inv qd s -> Z.of_nat (size (pending s)) <= qd.
Proof.
  intros Hqd (_ & Hlt & _).
  assert (Hsub : pending s ⊆ set_seq 0 (Z.to_nat qd)).
  { intros i Hi. apply elem_of_set_seq. specialize (Hlt i Hi). lia. }
  apply subseteq_size in Hsub. rewrite size_set_seq in Hsub. lia.
Qed.

Lemma run_stream_S s env n :
  run_stream s env (S n) = step (run_stream s env n) (env n).
Proof.
  unfold run_stream, run. rewrite seq_S, map_app, fold_left_app. reflexivity.
Qed.

Lemma run_stream_shift s env m j :
  run_stream s env (m + j)
  = run_stream (run_stream s env m) (fun k => env (m + k)%nat) j.
Proof.
  induction j as [|j IH].
  - rewrite Nat.add_0_r. reflexivity.
  - rewrite Nat.add_succ_r, !run_stream_S, IH. reflexivity.
Qed.

Lemma pending_empty_of_count qd s :
  0 <= qd < 2 ^ 32 -> session_inv qd s ->
  xfers_in_progress (vars s) = 0 <-> pending s = ∅.
Proof.
  intros Hqd Hinv. pose proof (pending_bounded qd s ltac:(lia) Hinv) as Hb.
  destruct Hinv as (_ & _ & Hx & _). rewrite Hx.
  rewrite int_zero by lia. split.
  - intros Hz. apply leibniz_equiv. apply size_empty_inv. lia.
  - intros ->. rewrite size_empty. reflexivity.
Qed.

Lemma drain_loop_stopping qd s :
  0 <= qd < 2 ^ 32 -> session_inv qd s -> stop_transfers (vars s) = true ->
  stopping (drain_loop s).
Proof.
  intros Hqd Hinv Hstop.
  pose proof (pending_empty_of_count qd s Hqd Hinv) as Hz.
  unfold drain_loop, finish, stopping, dispatching.
  destruct (Z.eqb_spec (xfers_in_progress (vars s)) 0) as [He|Hne].
  - destruct (free_transfer_buffers (mem s)); cbn; (split; [exact Hstop|]);
      right; (split; [auto | tauto]).
  - cbn. auto.
Qed.

Lemma stopping_step qd s l :
  0 <= qd < 2 ^ 32 -> session_inv qd s -> stopping s ->
  stopping (step s l) /\ pending (step s l) ⊆ pending s.
Proof.
  intros Hqd Hinv [Hstop Hplace]. unfold step.
  assert (Hsame : stopping s /\ pending s ⊆ pending s)
    by (split; [split; assumption | reflexivity]).
  assert (Hsig : stopping (sig_hdlr s) /\ pending (sig_hdlr s) ⊆ pending s).
  { split; [|reflexivity]. split; [reflexivity|]. exact Hplace. }
  assert (Hcomplete : forall c, dispatching s ->
            stopping (complete s c) /\ pending (complete s c) ⊆ pending s).
  { intros c Hd. unfold complete.
    destruct (bool_decide (slot (c_transfer c) ∈ pending s)); [|exact Hsame].
    pose proof (callback_globals (vars s) (c_transfer c) (c_now c) (c_submit_ret c)) as Hg.
    destruct (transfer_callback (vars s) (c_transfer c) (c_now c) (c_submit_ret c))
      as [g evs]. cbv zeta in Hg. cbn [fst] in Hg. destruct Hg as (_ & Hst & _).
    rewrite Hstop. cbn [negb andb].
    split; [|cbn; apply subseteq_difference_l; reflexivity].
    split; [cbn; congruence | left; exact Hd]. }
  assert (Hdrain : forall s0, session_inv qd s0 -> stop_transfers (vars s0) = true ->
            pending s0 = pending s ->
            stopping (drain_loop s0) /\ pending (drain_loop s0) ⊆ pending s).
  { intros s0 Hinv0 Hstop0 Hp0. destruct (drain_loop_fields s0) as (Hp & _).
    split; [apply (drain_loop_stopping qd); assumption|].
    rewrite Hp, Hp0. reflexivity. }
  destruct Hplace as [[Hat|Hat]|[[Hat|Hat] Hemp]]; rewrite Hat;
    destruct l as [ret|c| |]; try exact Hsame; try exact Hsig.
  - apply Hcomplete. left. exact Hat.
  - unfold dispatch_loop. rewrite Hstop. apply Hdrain; [|reflexivity|reflexivity].
    destruct Hinv as (H1 & H2 & H3 & H4). unfold session_inv. cbn.
    rewrite Hat in *. auto.
  - apply Hcomplete. right. exact Hat.
  - apply Hdrain; auto.
Qed.

Lemma stopping_run_stream qd s env n :
  0 <= qd < 2 ^ 32 -> session_inv qd s -> stopping s ->
  session_inv qd (run_stream s env n) /\ stopping (run_stream s env n) /\
  pending (run_stream s env n) ⊆ pending s.
Proof.
  intros Hqd Hinv Hst. induction n as [|n (IH1 & IH2 & IH3)].
  - cbn. auto.
  - rewrite run_stream_S.
    destruct (stopping_step qd _ (env n) Hqd IH1 IH2) as [H1 H2].
    split; [apply session_inv_step; assumption|]. split; [exact H1|].
    etransitivity; eassumption.
Qed.

Lemma complete_removes s c :
  stop_transfers (vars s) = true ->
  pending (complete s c) = pending s ∖ {[slot (c_transfer c)]}.
Proof.
  intros Hstop. unfold complete.
  destruct (bool_decide_reflect (slot (c_transfer c) ∈ pending s)) as [Hin|Hnin].
  - destruct (transfer_callback (vars s) (c_transfer c) (c_now c) (c_submit_ret c)).
    rewrite Hstop. reflexivity.
  - symmetry. apply difference_disjoint_L. apply disjoint_singleton_r. exact Hnin.
Qed.

Lemma eventually_completes_shift s env m :
  eventually_completes s env ->
  eventually_completes (run_stream s env m) (fun k => env (m + k)%nat).
Proof.
  intros Hfair n i Hi. rewrite <- run_stream_shift in Hi.
  destruct (Hfair (m + n)%nat i Hi) as (m' & c & Hle & Henv & Hslot).
  exists (m' - m)%nat, c. split; [lia|]. split; [|exact Hslot].
  replace (m + (m' - m))%nat with m' by lia. exact Henv.
Qed.

Lemma session_drains qd :
  0 <= qd < 2 ^ 32 ->
  forall k s env,
    session_inv qd s -> stopping s -> size (pending s) = k ->
    eventually_completes s env ->
    exists n, pending (run_stream s env n) = ∅.
Proof.
  intros Hqd k. induction (lt_wf k) as [k _ IH].
  intros s env Hinv Hst Hk Hfair.
  destruct (decide (k = 0%nat)) as [->|Hpos].
  { exists 0%nat. cbn. apply leibniz_equiv. apply size_empty_inv. exact Hk. }
  destruct (size_pos_elem_of (pending s) ltac:(lia)) as [i Hi].
  destruct (Hfair 0%nat i Hi) as (m & c & _ & Henv & Hslot).
  destruct (stopping_run_stream qd s env m Hqd Hinv Hst) as (Hinv_m & Hst_m & Hsub_m).
  destruct (stopping_run_stream qd s env (S m) Hqd Hinv Hst) as (Hinv_S & Hst_S & _).
  assert (Hlt : (size (pending (run_stream s env (S m))) < k)%nat).
  { rewrite <- Hk. apply subset_size.
    assert (Hnot : i ∉ pending (run_stream s env (S m))).
    { rewrite run_stream_S, Henv.
      destruct Hst_m as [Hstop_m [[Hat|Hat]|[_ Hemp]]]; unfold step.
      - rewrite Hat, complete_removes, Hslot by exact Hstop_m.
        apply not_elem_of_difference. right. apply elem_of_singleton. reflexivity.
      - rewrite Hat, complete_removes, Hslot by exact Hstop_m.
        apply not_elem_of_difference. right. apply elem_of_singleton. reflexivity.
      - destruct (at_ (run_stream s env m));
          try (rewrite Hemp; apply not_elem_of_empty);
          rewrite complete_removes, Hslot by exact Hstop_m;
          apply not_elem_of_difference; right; apply elem_of_singleton; reflexivity. }
    assert (Hsub : pending (run_stream s env (S m)) ⊆ pending s).
    { apply (stopping_run_stream qd s env (S m) Hqd Hinv Hst). }
    split; [exact Hsub|]. intros Hsup. apply Hnot. apply Hsup. exact Hi. }
  destruct (IH _ Hlt (run_stream s env (S m)) (fun j => env (S m + j)%nat)
              Hinv_S Hst_S eq_refl (eventually_completes_shift s env (S m) Hfair))
    as [n Hn].
  exists (S m + n)%nat. rewrite run_stream_shift. exact Hn.
Qed.

(** C6: for [1 <= queuedepth], in every state of a session the transport
    holds at most [queuedepth] transfers and [xfers_in_progress], which
    counts them, is at most [queuedepth], also between the decrement and
    the resubmission of the callback. Once the stop flag is set and
    [main] is in its dispatch loops, an environment that completes every
    transfer it holds brings the count to 0 after finitely many steps. *)
Theorem in_flight_bounded qd a now ls :
  1 <= qd < 2 ^ 32 ->
  let s := run (start qd a now) ls in
  (Z.of_nat (size (pending s)) <= qd /\
   xfers_in_progress (vars s) <= qd /\
   xfers_in_progress (vars s) = int (Z.of_nat (size (pending s))) /\
   (xfers_in_progress (vars s) = 0 <-> pending s = ∅) /\
   (forall t, slot t ∈ pending s ->
      xfers_in_progress (count_completion (vars s) t) <= qd)) /\
  (forall env,
     dispatching s -> stop_transfers (vars s) = true ->
     eventually_completes s env ->
     exists n,
       xfers_in_progress (vars (run_stream s env n)) = 0 /\
       pending (run_stream s env n) = ∅).
Proof.
  intros Hqd s.
  assert (Hinv : session_inv qd s).
  { apply session_inv_run; [lia|]. apply session_inv_start. lia. }
  pose proof (pending_bounded qd s ltac:(lia) Hinv) as Hb.
  split.
  - split; [exact Hb|]. pose proof Hinv as (_ & _ & Hx & _).
    split; [rewrite Hx; apply int_le; lia|]. split; [exact Hx|].
    split; [apply (pending_empty_of_count qd); [lia | assumption]|].
    intros t Ht. cbn [count_completion xfers_in_progress].
    rewrite Hx, int_int_sub.
    assert (Hsz : (0 < size (pending s))%nat).
    { destruct (decide (size (pending s) = 0%nat)) as [Hz|]; [|lia].
      apply size_empty_inv in Hz. apply Hz in Ht. destruct (not_elem_of_empty _ Ht). }
    apply int_le; lia.
  - intros env Hd Hstop Hfair.
    assert (Hst : stopping s) by (split; [exact Hstop | left; exact Hd]).
    destruct (session_drains qd ltac:(lia) _ s env Hinv Hst eq_refl Hfair) as [n Hn].
    exists n. split; [|exact Hn].
    apply (pending_empty_of_count qd); [lia | | exact Hn].
    apply (stopping_run_stream qd s env n); [lia | assumption | assumption].
Qed.

Lemma in_flight_bounded_witness :
  let s := run (start 1 allocator_ok (Timeval 0 0)) [SubmitReturns 0; Signal] in
  xfers_in_progress (vars s) = 1 /\ xfers_in_progress (vars s) <= 1 /\
  exists n, xfers_in_progress (vars (run_stream s slot0_completes n)) = 0.
Proof.
  intros s.
  destruct (in_flight_bounded 1 allocator_ok (Timeval 0 0)
              [SubmitReturns 0; Signal] ltac:(lia)) as [(_ & Hle & _) Hlive].
  fold s in Hle, Hlive.
  split; [vm_compute; reflexivity|]. split; [exact Hle|].
  destruct (Hlive slot0_completes) as (n & Hn & _).
  - left. vm_compute. reflexivity.
  - vm_compute. reflexivity.
  - intros n i Hi. exists n, (Completion (Transfer 0 LIBUSB_TRANSFER_COMPLETED 512)
                                 (Timeval 1 0) 0).
    split; [lia|]. split; [reflexivity|]. cbn.
    assert (Hinv : session_inv 1 (run_stream s slot0_completes n)).
    { apply session_inv_run; [lia|]. apply session_inv_run; [lia|].
      apply session_inv_start. lia. }
    destruct Hinv as (_ & Hlt & _). specialize (Hlt i Hi). lia.
  - exists n. exact Hn.
Defined.

Lemma allocate_loop_ok a n i db tr :
  allocate_loop a n i (replicate i true ++ replicate n false)
    (replicate i true ++ replicate n false) = (db, tr, false) ->
  db = replicate (i + n) true /\ tr = replicate (i + n) true.
Proof.
  revert i. induction n as [|n IH]; intros i H.
  - cbn in H. rewrite app_nil_r, Nat.add_0_r in *. split; congruence.
  - cbn [allocate_loop] in H.
    destruct (malloc_ok a i); destruct (alloc_transfer_ok a i);
      cbn [negb orb] in H; try discriminate.
    assert (Hins : <[i:=true]> (replicate i true ++ replicate (S n) false)
                   = replicate (S i) true ++ replicate n false).
    { rewrite (replicate_S_end i), <- app_assoc.
      rewrite insert_app_r_alt by (rewrite length_replicate; lia).
      rewrite length_replicate, Nat.sub_diag. reflexivity. }
    rewrite Hins in H. apply IH in H.
    replace (i + S n)%nat with (S i + n)%nat by lia. exact H.
Qed.

Lemma allocate_ok qd a :
  snd (allocate qd a) = false ->
  fst (allocate qd a) = all_allocated (Z.to_nat qd).
Proof.
  unfold allocate.
  destruct (calloc_databuffers a); destruct (calloc_transfers a);
    cbn [andb]; try discriminate.
  pose proof (allocate_loop_ok a (Z.to_nat qd) 0) as H. cbn [replicate app] in H.
  destruct (allocate_loop a (Z.to_nat qd) 0 (replicate (Z.to_nat qd) false)
              (replicate (Z.to_nat qd) false)) as [[db tr] fail].
  cbn [fst snd]. intros ->. destruct (H db tr eq_refl) as [-> ->]. reflexivity.
Qed.

Lemma live_in_replicate n : live_in (Live (replicate n true)) = S n.
Proof.
  cbn [live_in]. f_equal. induction n as [|n IH]; [reflexivity|].
  cbn. rewrite IH. reflexivity.
Qed.

Lemma live_blocks_all_allocated n : live_blocks (all_allocated n) = (2 * (n + 1))%nat.
Proof. unfold live_blocks, all_allocated. cbn [databuffers transfers]. rewrite live_in_replicate. lia. Qed.

Lemma slot_ready_all_allocated n i : (i < n)%nat -> slot_ready (all_allocated n) i = true.
Proof.
  intros Hi. unfold slot_ready, all_allocated. cbn [databuffers transfers].
  apply bool_decide_eq_true. apply lookup_replicate. auto.
Qed.

Lemma free_released m m' : free_transfer_buffers m = Some m' -> live_blocks m' = 0%nat.
Proof.
  unfold free_transfer_buffers, free_array.
  destruct (databuffers m); destruct (transfers m); try discriminate;
    intros H; injection H as <-; reflexivity.
Qed.

(** After [X], nothing but [P]: kept when events are appended. *)
Lemma after_app (X : event) (P : event -> Prop) tr evs :
  (forall t1 t2, tr = t1 ++ X :: t2 -> Forall P t2) ->
  (In X tr -> Forall P evs) ->
  (forall e1 e2, evs = e1 ++ X :: e2 -> Forall P e2) ->
  forall t1 t2, tr ++ evs = t1 ++ X :: t2 -> Forall P t2.
Proof.
  intros Htr Hin Hevs t1 t2 Heq.
  apply app_eq_app in Heq as [l [[H1 H2]|[H1 H2]]].
  - destruct l as [|x l].
    + cbn in H2. apply (Hevs [] t2). symmetry. exact H2.
    + cbn in H2. injection H2 as <- ->.
      apply Forall_app. split.
      * apply (Htr t1 l). exact H1.
      * apply Hin. rewrite H1. apply in_or_app. right. left. reflexivity.
  - apply (Hevs l t2). exact H2.
Qed.

Lemma not_in_split (X : event) (P : event -> Prop) evs :
  ~ In X evs -> forall e1 e2, evs = e1 ++ X :: e2 -> Forall P e2.
Proof.
  intros Hn e1 e2 ->. exfalso. apply Hn. apply in_or_app. right. left. reflexivity.
Qed.

Lemma last_split (X : event) (P : event -> Prop) pre :
  ~ In X pre -> forall e1 e2, pre ++ [X] = e1 ++ X :: e2 -> Forall P e2.
Proof.
  intros Hn e1 e2 Heq.
  destruct e2 as [|y e2] using rev_ind; [constructor|]. clear IHe2.
  exfalso. apply Hn.
  change (e1 ++ X :: e2 ++ [y]) with (e1 ++ (X :: e2) ++ [y]) in Heq.
  rewrite app_assoc in Heq. apply app_inj_tail in Heq as [-> _].
  apply in_or_app. right. left. reflexivity.
Qed.


Ltac no_event :=
  repeat (cbv beta; match goal with
  | |- Forall _ [] => constructor
  | |- Forall _ (_ :: _) => constructor
  | |- ~ is_submit _ _ => let H := fresh in intros (? & ? & H); discriminate
  | |- ~ _ => let H := fresh in intros H; cbn in H; intuition discriminate
  end).



Lemma callback_trace g t now ret :
  let evs := snd (transfer_callback g t now ret) in
  ~ In EvStop evs /\ ~ In EvHandleEvents evs /\ ~ In EvFreeTransferBuffers evs /\
  Forall (fun e => ~ is_submit FromMain e) evs /\
  (stop_transfers g = true -> Forall (fun e => ~ is_submit FromCallback e) evs).
Proof.
  cbv zeta.
  unfold transfer_callback, window_report, resubmit, count_completion, status_message.
  cbn [transfer_index queuedepth].
  destruct (unsigned (transfer_index g + 1) =? queuedepth g);
    cbn [stop_transfers]; destruct (stop_transfers g); cbn [snd];
    destruct (completed (status t)); cbn [app];
    repeat split; try (intros Hs; discriminate Hs);
    try match goal with |- _ = _ -> _ => intros _ end; no_event.
Qed.

(** ** The trace of a session, with SIGINT inside a callback *)

Lemma count_callback_submits_app e1 e2 :
  count_callback_submits (e1 ++ e2)
  = (count_callback_submits e1 + count_callback_submits e2)%nat.
Proof.
  unfold count_callback_submits. rewrite List.filter_app, length_app. reflexivity.
Qed.

Lemma count_callback_submits_none evs :
  Forall (fun e => ~ is_submit FromCallback e) evs ->
  count_callback_submits evs = 0%nat.
Proof.
  induction 1 as [|e evs He _ IH]; [reflexivity|].
  change (e :: evs) with ([e] ++ evs).
  rewrite count_callback_submits_app, IH, Nat.add_0_r.
  destruct e as [| |o i ret| | | | |]; try reflexivity.
  destruct o; [reflexivity|]. exfalso. apply He. exists i, ret. reflexivity.
Qed.

Lemma count_callback_submits_zero evs i ret :
  count_callback_submits evs = 0%nat -> ~ In (EvSubmit FromCallback i ret) evs.
Proof.
  intros Hz Hin. apply in_split in Hin as (e1 & e2 & ->).
  rewrite count_callback_submits_app in Hz.
  change (EvSubmit FromCallback i ret :: e2)
    with ([EvSubmit FromCallback i ret] ++ e2) in Hz.
  rewrite count_callback_submits_app in Hz. cbn in Hz. lia.
Qed.

(** After [X], at most [k] submissions of the callback: kept when
    events without such a submission are appended. *)
Lemma count_after_app (X : event) (k : nat) tr evs :
  (forall t1 t2, tr = t1 ++ X :: t2 -> (count_callback_submits t2 <= k)%nat) ->
  (In X tr -> count_callback_submits evs = 0%nat) ->
  (forall e1 e2, evs = e1 ++ X :: e2 -> (count_callback_submits e2 <= k)%nat) ->
  forall t1 t2, tr ++ evs = t1 ++ X :: t2 -> (count_callback_submits t2 <= k)%nat.
Proof.
  intros Htr Hin Hevs t1 t2 Heq.
  apply app_eq_app in Heq as [l [[H1 H2]|[H1 H2]]].
  - destruct l as [|x l].
    + cbn in H2. apply (Hevs [] t2). symmetry. exact H2.
    + cbn in H2. injection H2 as <- ->.
      rewrite count_callback_submits_app.
      rewrite Hin by (rewrite H1; apply in_or_app; right; left; reflexivity).
      rewrite Nat.add_0_r. apply (Htr t1 l). exact H1.
  - apply (Hevs l t2). exact H2.
Qed.

Lemma quiet_split (X : event) (k : nat) evs :
  ~ In X evs ->
  forall e1 e2, evs = e1 ++ X :: e2 -> (count_callback_submits e2 <= k)%nat.
Proof.
  intros Hn e1 e2 ->. exfalso. apply Hn. apply in_or_app. right. left. reflexivity.
Qed.

Lemma small_split (X : event) (k : nat) evs :
  (count_callback_submits evs <= k)%nat ->
  forall e1 e2, evs = e1 ++ X :: e2 -> (count_callback_submits e2 <= k)%nat.
Proof.
  intros Hk e1 e2 ->. rewrite count_callback_submits_app in Hk.
  change (X :: e2) with ([X] ++ e2) in Hk.
  rewrite count_callback_submits_app in Hk. lia.
Qed.

Lemma trace_ok_mono k k' s : (k <= k')%nat -> trace_ok k s -> trace_ok k' s.
Proof.
  intros Hk (I1 & I2 & I3 & I4). repeat split; auto.
  intros t1 t2 Heq. specialize (I2 t1 t2 Heq). lia.
Qed.

Lemma trace_ok_extend k s s' evs :
  trace_ok k s ->
  trace s' = trace s ++ evs ->
  (stop_transfers (vars s') = false ->
     stop_transfers (vars s) = false /\ ~ In EvStop evs) ->
  (stop_transfers (vars s) = true -> count_callback_submits evs = 0%nat) ->
  (forall e1 e2, evs = e1 ++ EvStop :: e2 ->
     (count_callback_submits e2 <= k)%nat) ->
  (in_submit_loop s' -> in_submit_loop s /\ ~ In EvHandleEvents evs) ->
  (~ in_submit_loop s -> Forall (fun e => ~ is_submit FromMain e) evs) ->
  (forall e1 e2, evs = e1 ++ EvHandleEvents :: e2 ->
     Forall (fun e => ~ is_submit FromMain e) e2) ->
  trace_ok k s'.
Proof.
  intros (I1 & I2 & I3 & I4) Htr Hstop Hcb Hcb' Hloop Hmain Hmain'.
  unfold trace_ok. rewrite Htr. split; [|split; [|split]].
  - intros Hs. destruct (Hstop Hs) as [Hs0 Hn]. intros Hin.
    apply in_app_or in Hin as [Hin|Hin]; [apply (I1 Hs0 Hin) | apply (Hn Hin)].
  - apply count_after_app; [exact I2 | | exact Hcb'].
    intros Hin. apply Hcb.
    destruct (stop_transfers (vars s)) eqn:E; [reflexivity|].
    exfalso. apply (I1 eq_refl Hin).
  - intros Hl. destruct (Hloop Hl) as [Hl0 Hn]. intros Hin.
    apply in_app_or in Hin as [Hin|Hin]; [apply (I3 Hl0 Hin) | apply (Hn Hin)].
  - apply after_app; [exact I4 | | exact Hmain'].
    intros Hin. apply Hmain. intros Hl. apply (I3 Hl Hin).
Qed.

Lemma trace_ok_sig_hdlr k s : trace_ok k s -> trace_ok k (sig_hdlr s).
Proof.
  intros Hinv. apply (trace_ok_extend k s _ [EvStop] Hinv); cbn.
  - reflexivity.
  - discriminate.
  - intros _. reflexivity.
  - apply small_split. cbn. lia.
  - intros Hl. split; [exact Hl|]. no_event.
  - intros _. no_event.
  - apply not_in_split. no_event.
Qed.

Lemma trace_ok_submit_loop k s i :
  trace_ok k s -> in_submit_loop s -> trace_ok k (submit_loop s i).
Proof.
  intros Hinv Hl. unfold submit_loop.
  destruct (Z.of_nat i <? queuedepth (vars s)).
  - destruct Hinv as (I1 & I2 & I3 & I4). repeat split; cbn; auto.
  - apply (trace_ok_extend k s _
      [EvCommand STARTADC (150 * 1000 * 1000); EvCommand STARTFX3 0; EvHandleEvents]
      Hinv); cbn.
    + reflexivity.
    + intros Hs. split; [exact Hs|]. no_event.
    + intros _. reflexivity.
    + apply quiet_split. no_event.
    + intros [j Hj]. discriminate.
    + intros Hn. contradiction.
    + apply (last_split EvHandleEvents _
               [EvCommand STARTADC (150 * 1000 * 1000); EvCommand STARTFX3 0]).
      no_event.
Qed.

Lemma trace_ok_complete k s c : trace_ok k s -> trace_ok k (complete s c).
Proof.
  intros Hinv. unfold complete.
  destruct (bool_decide (slot (c_transfer c) ∈ pending s)); [|exact Hinv].
  pose proof (callback_globals (vars s) (c_transfer c) (c_now c) (c_submit_ret c)) as Hg.
  pose proof (callback_trace (vars s) (c_transfer c) (c_now c) (c_submit_ret c)) as Ht.
  destruct (transfer_callback (vars s) (c_transfer c) (c_now c) (c_submit_ret c))
    as [g evs]. cbv zeta in Hg, Ht. cbn [fst snd] in Hg, Ht.
  destruct Hg as (_ & Hst & _). destruct Ht as (T1 & T2 & _ & T4 & T5).
  apply (trace_ok_extend k s _ evs Hinv); cbn [trace vars at_].
  - reflexivity.
  - intros Hs. split; [congruence | exact T1].
  - intros Hs. apply count_callback_submits_none. apply T5. exact Hs.
  - apply quiet_split. exact T1.
  - intros Hl. split; [exact Hl | exact T2].
  - intros _. exact T4.
  - apply not_in_split. exact T2.
Qed.

Lemma trace_ok_finish k s :
  trace_ok k s -> ~ in_submit_loop s -> trace_ok k (finish s).
Proof.
  intros Hinv Hl. unfold finish. destruct (free_transfer_buffers (mem s)).
  - apply (trace_ok_extend k s _ [EvFreeTransferBuffers; EvCommand STOPFX3 0] Hinv); cbn.
    + reflexivity.
    + intros Hs. split; [exact Hs|]. no_event.
    + intros _. reflexivity.
    + apply quiet_split. no_event.
    + intros [j Hj]. discriminate.
    + intros _. no_event.
    + apply not_in_split. no_event.
  - apply (trace_ok_extend k s _ [EvFreeTransferBuffers] Hinv); cbn.
    + reflexivity.
    + intros Hs. split; [exact Hs|]. no_event.
    + intros _. reflexivity.
    + apply quiet_split. no_event.
    + intros [j Hj]. discriminate.
    + intros _. no_event.
    + apply not_in_split. no_event.
Qed.

Lemma trace_ok_drain_loop k s :
  trace_ok k s -> ~ in_submit_loop s -> trace_ok k (drain_loop s).
Proof.
  intros Hinv Hl. unfold drain_loop.
  destruct (xfers_in_progress (vars s) =? 0); [apply trace_ok_finish; assumption|].
  apply (trace_ok_extend k s _ [EvHandleEvents] Hinv); cbn.
  - reflexivity.
  - intros Hs. split; [exact Hs|]. no_event.
  - intros _. reflexivity.
  - apply quiet_split. no_event.
  - intros [j Hj]. discriminate.
  - intros _. no_event.
  - apply (last_split EvHandleEvents _ []). no_event.
Qed.

Lemma trace_ok_dispatch_loop k s :
  trace_ok k s -> ~ in_submit_loop s -> trace_ok k (dispatch_loop s).
Proof.
  intros Hinv Hl. unfold dispatch_loop.
  destruct (stop_transfers (vars s)) eqn:Hs.
  - apply trace_ok_drain_loop; [|exact Hl].
    destruct Hinv as (I1 & I2 & I3 & I4). repeat split; cbn; auto. discriminate.
  - apply (trace_ok_extend k s _ [EvHandleEvents] Hinv); cbn.
    + reflexivity.
    + intros _. split; [exact Hs|]. no_event.
    + intros _. reflexivity.
    + apply quiet_split. no_event.
    + intros [j Hj]. discriminate.
    + intros _. no_event.
    + apply (last_split EvHandleEvents _ []). no_event.
Qed.

Lemma trace_ok_submit_initial k s i ret :
  trace_ok k s -> at_ s = Submitting i -> trace_ok k (submit_initial s i ret).
Proof.
  intros Hinv Hat. unfold submit_initial.
  destruct (slot_ready (mem s) i).
  2:{ destruct Hinv as (I1 & I2 & I3 & I4). repeat split; cbn; auto.
      intros [j Hj]. discriminate. }
  apply trace_ok_submit_loop; [|exists i; exact Hat].
  match goal with |- trace_ok _ ?s0 =>
    apply (trace_ok_extend k s s0 [EvSubmit FromMain i ret] Hinv) end; cbn.
  - reflexivity.
  - intros Hs. split; [|no_event]. destruct (ret =? 0); exact Hs.
  - intros _. reflexivity.
  - apply quiet_split. no_event.
  - intros _. split; [exists i; exact Hat|]. no_event.
  - intros Hn. exfalso. apply Hn. exists i. exact Hat.
  - apply not_in_split. no_event.
Qed.

Lemma trace_ok_step k s l : trace_ok k s -> trace_ok k (step s l).
Proof.
  intros Hinv. unfold step.
  destruct (at_ s) as [i| | | |] eqn:Hat; destruct l as [ret|c| |];
    try exact Hinv; try (apply trace_ok_sig_hdlr; exact Hinv);
    try (apply trace_ok_complete; exact Hinv).
  - apply trace_ok_submit_initial; assumption.
  - apply trace_ok_dispatch_loop; [exact Hinv|]. intros [j Hj]. congruence.
  - apply trace_ok_drain_loop; [exact Hinv|]. intros [j Hj]. congruence.
Qed.

Lemma trace_ok_start qd a now : trace_ok 0 (start qd a now).
Proof.
  unfold start. destruct (allocate qd a) as [m allocfail].
  assert (Hbase : forall m' tr,
    ~ In EvStop tr -> ~ In EvHandleEvents tr ->
    trace_ok 0 {| vars := set_tv_start (initial_globals qd) now; mem := m';
                  pending := ∅; trace := tr; at_ := Submitting 0 |}).
  { intros m' tr H1 H2. repeat split; cbn; auto.
    - apply quiet_split. exact H1.
    - apply not_in_split. exact H2. }
  destruct allocfail.
  - destruct (free_transfer_buffers m).
    + apply trace_ok_submit_loop; [apply Hbase; no_event | exists 0%nat; reflexivity].
    + split; [|split; [|split]]; cbn.
      * intros _. no_event.
      * apply quiet_split. no_event.
      * intros [j Hj]. discriminate.
      * apply not_in_split. no_event.
  - apply trace_ok_submit_loop; [apply Hbase; no_event | exists 0%nat; reflexivity].
Qed.

(** What the interrupted callback does, next to the callback that is
    not interrupted. *)
Lemma complete_interrupted_fields s c again :
  slot (c_transfer c) ∈ pending s ->
  let s1 := complete s c in
  let s2 := complete_interrupted s c again in
  vars s2 = set_stop (vars s1) /\ mem s2 = mem s /\
  pending s2 = pending s1 /\ at_ s2 = at_ s /\
  exists printed,
    trace s2 = trace s ++ printed ++ replicate (S again) EvStop
                 ++ callback_submits (vars s) (c_transfer c) (c_submit_ret c) /\
    Forall (fun e => e <> EvStop /\ e <> EvHandleEvents /\
                     e <> EvFreeTransferBuffers /\
                     forall o, ~ is_submit o e) printed.
Proof.
  intros Hin. cbv zeta. unfold complete, complete_interrupted.
  rewrite !bool_decide_true by exact Hin.
  unfold transfer_callback, window_report, resubmit, count_completion,
    callback_submits.
  cbn [transfer_index queuedepth].
  destruct (unsigned (transfer_index (vars s) + 1) =? queuedepth (vars s));
    cbn [stop_transfers]; destruct (stop_transfers (vars s));
    cbn [vars mem pending at_ trace negb andb];
    (split; [reflexivity|]); (split; [reflexivity|]);
    (split; [reflexivity|]); (split; [reflexivity|]);
    unfold status_message; destruct (completed (status (c_transfer c)));
    cbn [app]; eexists; (split; [try reflexivity|]).
  all: try (instantiate (1 := []); reflexivity).
  all: try (instantiate (1 := [_]); reflexivity).
  all: try (instantiate (1 := [_; _]); reflexivity).
  all: repeat constructor; try discriminate; intros o (i & r & H); discriminate.
Qed.









Lemma free_all_allocated n :
  free_transfer_buffers (all_allocated n) = Some (Memory Freed Freed).
Proof. reflexivity. Qed.

Lemma mem_inv_submit_loop n s i :
  mem s = all_allocated n -> ~ In EvFreeTransferBuffers (trace s) ->
  mem_inv n (submit_loop s i).
Proof.
  intros Hm Hn. unfold submit_loop, mem_inv.
  destruct (Z.of_nat i <? queuedepth (vars s)); cbn; (split; [exact Hm|]).
  - exact Hn.
  - intros Hin. apply in_app_or in Hin as [Hin|Hin]; [auto|].
    cbn in Hin. intuition discriminate.
Qed.

Lemma mem_inv_drain_loop n s :
  mem s = all_allocated n -> ~ In EvFreeTransferBuffers (trace s) ->
  mem_inv n (drain_loop s).
Proof.
  intros Hm Hn. unfold drain_loop, finish, mem_inv.
  destruct (Z.eqb_spec (xfers_in_progress (vars s)) 0) as [Hz|Hnz].
  - rewrite Hm, free_all_allocated. cbn. auto.
  - cbn. split; [exact Hm|].
    intros Hin. apply in_app_or in Hin as [Hin|Hin]; [auto|].
    cbn in Hin. intuition discriminate.
Qed.

Lemma mem_inv_step qd s l :
  0 <= qd < 2 ^ 32 -> session_inv qd s -> mem_inv (Z.to_nat qd) s ->
  mem_inv (Z.to_nat qd) (step s l).
Proof.
  intros Hqd (_ & _ & _ & Hplace) Hmem. unfold step.
  assert (Hsig : at_ s <> Drained -> at_ s <> Undefined ->
                 mem_inv (Z.to_nat qd) (sig_hdlr s)).
  { intros H1 H2. unfold mem_inv in *. cbn.
    destruct (at_ s); try congruence;
      (split; [tauto|]); intros Hin; apply in_app_or in Hin as [Hin|Hin];
      try tauto; cbn in Hin; intuition discriminate. }
  assert (Hcomplete : forall c, dispatching s -> mem_inv (Z.to_nat qd) (complete s c)).
  { intros c Hd. unfold complete.
    destruct (bool_decide (slot (c_transfer c) ∈ pending s)); [|exact Hmem].
    pose proof (callback_trace (vars s) (c_transfer c) (c_now c) (c_submit_ret c)) as Ht.
    destruct (transfer_callback (vars s) (c_transfer c) (c_now c) (c_submit_ret c))
      as [g evs]. cbv zeta in Ht. cbn [snd] in Ht. destruct Ht as (_ & _ & T3 & _).
    unfold mem_inv in *. cbn.
    destruct Hd as [Hat|Hat]; rewrite Hat in *; (split; [tauto|]);
      intros Hin; apply in_app_or in Hin as [Hin|Hin]; tauto. }
  destruct (at_ s) as [i| | | |] eqn:Hat; destruct l as [ret|c| |];
    try exact Hmem; try (apply Hsig; discriminate).
  - (* one pass of the submission loop *)
    unfold mem_inv in Hmem. rewrite Hat in Hmem.
    destruct Hmem as [Hm Hn]. destruct Hplace as [Hi _].
    unfold submit_initial.
    replace (slot_ready (mem s) i) with true
      by (rewrite Hm, slot_ready_all_allocated by lia; reflexivity).
    apply mem_inv_submit_loop; cbn; [exact Hm|].
    intros Hin. apply in_app_or in Hin as [Hin|Hin]; [auto|].
    cbn in Hin. intuition discriminate.
  - apply Hcomplete. left. exact Hat.
  - unfold mem_inv in Hmem. rewrite Hat in Hmem.
    destruct Hmem as [Hm Hn]. unfold dispatch_loop.
    destruct (stop_transfers (vars s)).
    + apply mem_inv_drain_loop; cbn; assumption.
    + unfold mem_inv. cbn. split; [exact Hm|].
      intros Hin. apply in_app_or in Hin as [Hin|Hin]; [auto|].
      cbn in Hin. intuition discriminate.
  - apply Hcomplete. right. exact Hat.
  - unfold mem_inv in Hmem. rewrite Hat in Hmem.
    destruct Hmem as [Hm Hn]. apply mem_inv_drain_loop; assumption.
Qed.

Lemma mem_inv_start qd a now :
  snd (allocate qd a) = false -> mem_inv (Z.to_nat qd) (start qd a now).
Proof.
  intros Hok. pose proof (allocate_ok qd a Hok) as Hm. unfold start.
  destruct (allocate qd a) as [m allocfail]. cbn [fst snd] in *. subst.
  apply mem_inv_submit_loop; cbn; auto.
Qed.


Lemma count_callback_submits_printed printed :
  Forall (fun e => e <> EvStop /\ e <> EvHandleEvents /\
                   e <> EvFreeTransferBuffers /\
                   forall o, ~ is_submit o e) printed ->
  count_callback_submits printed = 0%nat.
Proof.
  intros H. apply count_callback_submits_none.
  eapply Forall_impl; [exact H|]. intros e (_ & _ & _ & He). apply He.
Qed.

Lemma count_callback_submits_stops n :
  count_callback_submits (replicate n EvStop) = 0%nat.
Proof. induction n as [|n IH]; [reflexivity | exact IH]. Qed.

Lemma interrupted_events g t ret again printed :
  Forall (fun e => e <> EvStop /\ e <> EvHandleEvents /\
                   e <> EvFreeTransferBuffers /\
                   forall o, ~ is_submit o e) printed ->
  let evs := printed ++ replicate (S again) EvStop ++ callback_submits g t ret in
  (count_callback_submits evs <= 1)%nat /\
  (stop_transfers g = true -> count_callback_submits evs = 0%nat) /\
  ~ In EvHandleEvents evs /\ ~ In EvFreeTransferBuffers evs /\
  Forall (fun e => ~ is_submit FromMain e) evs.
Proof.
  intros Hp. cbv zeta.
  rewrite !count_callback_submits_app, count_callback_submits_printed by exact Hp.
  rewrite count_callback_submits_stops.
  assert (Hstops : forall e, In e (replicate (S again) EvStop) -> e = EvStop).
  { intros e He. apply list_elem_of_In, elem_of_replicate in He. tauto. }
  rewrite List.Forall_forall in Hp.
  unfold callback_submits.
  destruct (stop_transfers g); cbn [count_callback_submits List.filter
    is_callback_submit length Nat.add].
  - split; [lia|]. split; [reflexivity|]. rewrite app_nil_r.
    split; [|split].
    + intros Hin. apply in_app_or in Hin as [Hin|Hin].
      * destruct (Hp _ Hin) as (_ & H & _). apply H. reflexivity.
      * apply Hstops in Hin. discriminate.
    + intros Hin. apply in_app_or in Hin as [Hin|Hin].
      * destruct (Hp _ Hin) as (_ & _ & H & _). apply H. reflexivity.
      * apply Hstops in Hin. discriminate.
    + apply List.Forall_forall. intros e Hin. apply in_app_or in Hin as [Hin|Hin].
      * destruct (Hp _ Hin) as (_ & _ & _ & H). apply H.
      * apply Hstops in Hin. subst e. intros (i & r & H). discriminate.
  - split; [lia|]. split; [discriminate|].
    split; [|split].
    + intros Hin. apply in_app_or in Hin as [Hin|Hin].
      * destruct (Hp _ Hin) as (_ & H & _). apply H. reflexivity.
      * apply in_app_or in Hin as [Hin|[Hin|[]]];
          [apply Hstops in Hin|]; discriminate.
    + intros Hin. apply in_app_or in Hin as [Hin|Hin].
      * destruct (Hp _ Hin) as (_ & _ & H & _). apply H. reflexivity.
      * apply in_app_or in Hin as [Hin|[Hin|[]]];
          [apply Hstops in Hin|]; discriminate.
    + apply List.Forall_forall. intros e Hin. apply in_app_or in Hin as [Hin|Hin].
      * destruct (Hp _ Hin) as (_ & _ & _ & H). apply H.
      * apply in_app_or in Hin as [Hin|[Hin|[]]].
        -- apply Hstops in Hin. subst e. intros (i & r & H). discriminate.
        -- subst e. intros (i & r & H). discriminate.
Qed.

Lemma trace_ok_complete_interrupted k s c again :
  trace_ok k s -> trace_ok (Nat.max k 1) (complete_interrupted s c again).
Proof.
  intros Hinv.
  destruct (decide (slot (c_transfer c) ∈ pending s)) as [Hin|Hnin].
  2:{ unfold complete_interrupted. rewrite bool_decide_false by exact Hnin.
      apply (trace_ok_mono k); [lia | exact Hinv]. }
  destruct (complete_interrupted_fields s c again Hin)
    as (Hv & _ & _ & Hat & printed & Htr & Hp).
  destruct (interrupted_events (vars s) (c_transfer c) (c_submit_ret c) again
              printed Hp) as (E1 & E2 & E3 & _ & E5).
  eapply (trace_ok_extend (Nat.max k 1) s);
    [apply (trace_ok_mono k); [lia | exact Hinv] | exact Htr | | | | | |].
  - rewrite Hv. discriminate.
  - exact E2.
  - apply small_split. lia.
  - intros (j & Hj). split; [exists j; congruence | exact E3].
  - intros _. exact E5.
  - apply not_in_split. exact E3.
Qed.

Lemma interruptions_cons l ls :
  interruptions (l :: ls)
  = Nat.max (if is_interrupted l then 1 else 0)%nat (interruptions ls).
Proof.
  unfold interruptions. cbn [existsb].
  destruct (is_interrupted l); destruct (existsb is_interrupted ls); reflexivity.
Qed.

Lemma trace_ok_step_async k s l :
  trace_ok k s ->
  trace_ok (Nat.max k (if is_interrupted l then 1 else 0)%nat) (step_async s l).
Proof.
  intros Hinv. destruct l as [l|c again]; cbn [step_async is_interrupted].
  - rewrite Nat.max_0_r. apply trace_ok_step. exact Hinv.
  - destruct (at_ s); try (apply (trace_ok_mono k); [lia | exact Hinv]);
      apply trace_ok_complete_interrupted; exact Hinv.
Qed.

Lemma trace_ok_run_async k s ls :
  trace_ok k s -> trace_ok (Nat.max k (interruptions ls)) (run_async s ls).
Proof.
  revert k s. induction ls as [|l ls IH]; intros k s Hinv.
  - cbn. rewrite Nat.max_0_r. exact Hinv.
  - cbn [run_async fold_left]. rewrite interruptions_cons, Nat.max_assoc.
    apply IH. apply trace_ok_step_async. exact Hinv.
Qed.

Lemma interruptions_none ls :
  (forall c again, ~ In (CompletesInterrupted c again) ls) ->
  interruptions ls = 0%nat.
Proof.
  intros Hno. unfold interruptions.
  destruct (existsb is_interrupted ls) eqn:E; [|reflexivity].
  apply existsb_exists in E as (l & Hin & Hl).
  destruct l as [|c again]; [discriminate|]. destruct (Hno c again Hin).
Qed.

Lemma interruptions_le ls : (interruptions ls <= 1)%nat.
Proof. unfold interruptions. destruct (existsb _ _); lia. Qed.

(** ** The counter and the memory, with SIGINT inside a callback *)

Lemma session_inv_step_async qd s l :
  0 <= qd < 2 ^ 32 -> session_inv qd s -> session_inv qd (step_async s l).
Proof.
  intros Hqd Hinv. destruct l as [l|c again]; cbn [step_async].
  - apply session_inv_step; assumption.
  - assert (Hgen : match at_ s with Submitting _ => False | _ => True end ->
                   session_inv qd (complete_interrupted s c again)).
    { intros Hplace.
      destruct (decide (slot (c_transfer c) ∈ pending s)) as [Hin|Hnin].
      2:{ unfold complete_interrupted. rewrite bool_decide_false by exact Hnin.
          exact Hinv. }
      destruct (complete_interrupted_fields s c again Hin)
        as (Hv & _ & Hp & Hat & _).
      pose proof (complete_inv qd s c ltac:(lia) Hinv Hplace) as (Hq & Hlt & Hx & _).
      unfold session_inv. rewrite Hv, Hp, Hat. cbn [queuedepth xfers_in_progress set_stop].
      split; [exact Hq|]. split; [exact Hlt|]. split; [exact Hx|].
      destruct (at_ s); [contradiction | exact I ..]. }
    destruct (at_ s) eqn:Hat; try exact Hinv; apply Hgen; exact I.
Qed.

Lemma mem_inv_step_async qd s l :
  0 <= qd < 2 ^ 32 -> session_inv qd s -> mem_inv (Z.to_nat qd) s ->
  mem_inv (Z.to_nat qd) (step_async s l).
Proof.
  intros Hqd Hinv Hmem. destruct l as [l|c again]; cbn [step_async].
  - apply mem_inv_step; assumption.
  - assert (Hgen : dispatching s ->
                   mem_inv (Z.to_nat qd) (complete_interrupted s c again)).
    { intros Hd.
      destruct (decide (slot (c_transfer c) ∈ pending s)) as [Hin|Hnin].
      2:{ unfold complete_interrupted. rewrite bool_decide_false by exact Hnin.
          exact Hmem. }
      destruct (complete_interrupted_fields s c again Hin)
        as (_ & Hm & _ & Hat & printed & Htr & Hp).
      destruct (interrupted_events (vars s) (c_transfer c) (c_submit_ret c) again
                  printed Hp) as (_ & _ & _ & E4 & _).
      unfold mem_inv in *. rewrite Hat, Hm, Htr.
      destruct Hd as [Hd|Hd]; rewrite Hd in *; (split; [tauto|]);
        intros Hi; apply in_app_or in Hi as [Hi|Hi]; tauto. }
    destruct (at_ s) eqn:Hat; try exact Hmem; apply Hgen;
      [left | right]; exact Hat.
Qed.

Lemma shutdown_inv_run_async qd a now ls :
  0 <= qd < 2 ^ 32 -> snd (allocate qd a) = false ->
  session_inv qd (run_async (start qd a now) ls) /\
  mem_inv (Z.to_nat qd) (run_async (start qd a now) ls).
Proof.
  intros Hqd Hok.
  assert (Hgen : forall s, session_inv qd s -> mem_inv (Z.to_nat qd) s ->
            session_inv qd (run_async s ls) /\ mem_inv (Z.to_nat qd) (run_async s ls)).
  { induction ls as [|l ls IH]; intros s H1 H2; [auto|].
    cbn [run_async fold_left]. apply IH.
    - apply session_inv_step_async; assumption.
    - apply mem_inv_step_async; assumption. }
  apply Hgen; [apply session_inv_start; lia | apply mem_inv_start; exact Hok].
Qed.

Lemma run_async_sync s ls : run_async s (map Sync ls) = run s ls.
Proof.
  revert s. induction ls as [|l ls IH]; intros s; [reflexivity|].
  cbn. apply IH.
Qed.

(** C7, as amended: after the stop flag is set the callback submits at
    most once, the call of line 93 of a callback that had
    passed the test of line 92 when SIGINT arrived, and not at all when
    no signal arrives between that test and that call. After its first
    call of [libusb_handle_events] [main] submits nothing; the loop of
    lines 270-277 does not read the flag, and a submission of [main]
    after the flag is set is one of that loop, the signal
    having arrived before the first call of [libusb_handle_events].
    When [libusb_handle_events] returns with the flag set, [main] calls
    it again as long as [xfers_in_progress] is not 0, and releases the
    buffers and sends STOPFX3 when it is 0: until then every buffer stays
    allocated. *)
Theorem no_submission_after_stop qd a now ls :
  let s := run_async (start qd a now) ls in
  (forall t1 t2, trace s = t1 ++ EvStop :: t2 ->
     (count_callback_submits t2 <= 1)%nat /\
     ((forall c again, ~ In (CompletesInterrupted c again) ls) ->
      forall i ret, ~ In (EvSubmit FromCallback i ret) t2)) /\
  (forall t1 t2, trace s = t1 ++ EvHandleEvents :: t2 ->
     forall i ret, ~ In (EvSubmit FromMain i ret) t2) /\
  (forall t1 t2 i ret, trace s = t1 ++ EvStop :: t2 ->
     In (EvSubmit FromMain i ret) t2 -> ~ In EvHandleEvents t1) /\
  (1 <= qd < 2 ^ 32 -> snd (allocate qd a) = false ->
  (at_ s = Draining \/ at_ s = Dispatching /\ stop_transfers (vars s) = true ->
     let s' := step_async s (Sync HandleEventsReturns) in
     if xfers_in_progress (vars s) =? 0
     then at_ s' = Drained /\
          trace s' = trace s ++ [EvFreeTransferBuffers; EvCommand STOPFX3 0] /\
          live_blocks (mem s') = 0%nat
     else at_ s' = Draining /\ trace s' = trace s ++ [EvHandleEvents] /\
          mem s' = mem s) /\
  at_ s <> Undefined /\
  (at_ s = Drained ->
     xfers_in_progress (vars s) = 0 /\ pending s = ∅ /\
     live_blocks (mem s) = 0%nat) /\
  (at_ s <> Drained ->
     live_blocks (mem s) = (2 * (Z.to_nat qd + 1))%nat /\
     ~ In EvFreeTransferBuffers (trace s))).
Proof.
  intros s.
  pose proof (trace_ok_run_async 0 (start qd a now) ls (trace_ok_start qd a now))
    as (_ & T2 & _ & T4).
  fold s in T2, T4. cbn [Nat.max] in T2.
  assert (Hmain : forall t1 t2, trace s = t1 ++ EvHandleEvents :: t2 ->
            forall i ret, ~ In (EvSubmit FromMain i ret) t2).
  { intros t1 t2 Heq i ret Hin. specialize (T4 t1 t2 Heq).
    rewrite Forall_forall in T4. apply (T4 (EvSubmit FromMain i ret)).
    - apply list_elem_of_In. exact Hin.
    - exists i, ret. reflexivity. }
  split; [|split; [exact Hmain|split]]; [| |intros Hqd Hok;
    destruct (shutdown_inv_run_async qd a now ls ltac:(lia) Hok) as [Hinv Hmem];
    fold s in Hinv, Hmem; split; [|split; [|split]]].
  - intros t1 t2 Heq. specialize (T2 t1 t2 Heq). split.
    + pose proof (interruptions_le ls). lia.
    + intros Hno i ret. apply count_callback_submits_zero.
      rewrite (interruptions_none ls Hno) in T2. lia.
  - intros t1 t2 i ret Heq Hin Hhe.
    apply in_split in Hhe as (u & v & ->).
    rewrite <- app_assoc in Heq. cbn [app] in Heq.
    apply (Hmain _ _ Heq i ret).
    apply in_or_app. right. right. exact Hin.
  - intros Hplace. cbv zeta. cbn [step_async]. unfold step, mem_inv in *.
    destruct Hplace as [Hat|[Hat Hstop]]; rewrite Hat in *;
      destruct Hmem as [Hm Hn].
    + unfold drain_loop, finish.
      destruct (xfers_in_progress (vars s) =? 0).
      * rewrite Hm, free_all_allocated. cbn. auto.
      * cbn. auto.
    + unfold dispatch_loop. rewrite Hstop. unfold drain_loop, finish. cbn.
      destruct (xfers_in_progress (vars s) =? 0).
      * rewrite Hm, free_all_allocated. cbn. auto.
      * cbn. auto.
  - intros Hat. unfold mem_inv in Hmem. rewrite Hat in Hmem. exact Hmem.
  - intros Hat. unfold mem_inv in Hmem. rewrite Hat in Hmem.
    destruct Hmem as [Hz Hl]. split; [exact Hz|]. split; [|exact Hl].
    apply (pending_empty_of_count qd); [lia | exact Hinv | exact Hz].
  - intros Hat. unfold mem_inv in Hmem.
    destruct (at_ s); try contradiction; try congruence;
      destruct Hmem as [Hm Hn]; (split; [|exact Hn]);
      rewrite Hm, live_blocks_all_allocated; reflexivity.
Qed.

Lemma no_submission_after_stop_witness :
  let s := run_async (start 2 allocator_ok (Timeval 0 0)) raced_session in
  at_ s = Drained /\
  xfers_in_progress (vars s) = 0 /\
  live_blocks (mem s) = 0%nat /\
  trace s
  = [EvSubmit FromMain 0 0; EvSubmit FromMain 1 0;
     EvCommand STARTADC 150000000; EvCommand STARTFX3 0; EvHandleEvents]
    ++ EvStop
       :: [EvSubmit FromCallback 0 0; EvHandleEvents;
           EvReport 2 0 131072 (Some 128); EvHandleEvents;
           EvFreeTransferBuffers; EvCommand STOPFX3 0] /\
  Nat.le
    (count_callback_submits
       [EvSubmit FromCallback 0 0; EvHandleEvents;
        EvReport 2 0 131072 (Some 128); EvHandleEvents;
        EvFreeTransferBuffers; EvCommand STOPFX3 0]) 1.
Proof.
  intros s.
  destruct (no_submission_after_stop 2 allocator_ok (Timeval 0 0) raced_session)
    as (Hstop & _ & _ & Hrest).
  destruct (Hrest ltac:(lia) eq_refl) as (_ & _ & Hdrained & _).
  fold s in Hstop, Hdrained.
  assert (Hat : at_ s = Drained) by (vm_compute; reflexivity).
  destruct (Hdrained Hat) as (Hx & _ & Hl).
  split; [exact Hat|]. split; [exact Hx|]. split; [exact Hl|].
  assert (Htr : trace s
    = [EvSubmit FromMain 0 0; EvSubmit FromMain 1 0;
       EvCommand STARTADC 150000000; EvCommand STARTFX3 0; EvHandleEvents]
      ++ EvStop
         :: [EvSubmit FromCallback 0 0; EvHandleEvents;
             EvReport 2 0 131072 (Some 128); EvHandleEvents;
             EvFreeTransferBuffers; EvCommand STOPFX3 0])
    by (vm_compute; reflexivity).
  split; [exact Htr|]. exact (proj1 (Hstop _ _ Htr)).
Defined.

(** Submissions after the stop flag is set: those of the loop of lines
    270-277 when SIGINT arrives before it, and that of line 93 when
    SIGINT arrives after the test of line 92. *)
Lemma submission_after_stop :
  (let s := run (start 2 allocator_ok (Timeval 0 0)) early_signal in
   stop_transfers (vars s) = true /\
   trace s
   = [EvStop; EvSubmit FromMain 0 0; EvSubmit FromMain 1 0;
      EvCommand STARTADC 150000000; EvCommand STARTFX3 0; EvHandleEvents]) /\
  (let s := run_async (start 2 allocator_ok (Timeval 0 0))
              [Sync (SubmitReturns 0); Sync (SubmitReturns 0);
               CompletesInterrupted (completion_of 0 1) 0] in
   trace s
   = [EvSubmit FromMain 0 0; EvSubmit FromMain 1 0;
      EvCommand STARTADC 150000000; EvCommand STARTFX3 0; EvHandleEvents;
      EvStop; EvSubmit FromCallback 0 0] /\
   0%nat ∈ pending s /\ xfers_in_progress (vars s) = 2).
Proof.
  split; cbv zeta.
  - split; vm_compute; reflexivity.
  - split; [vm_compute; reflexivity|]. split; [|vm_compute; reflexivity].
    vm_compute pending. set_solver.
Qed.

Lemma failed_allocation_released qd a now :
  snd (allocate qd a) = true ->
  live_blocks (mem (start qd a now)) = 0%nat /\
  In EvFreeTransferBuffers (trace (start qd a now)) /\
  (0 < qd ->
   at_ (start qd a now) = Submitting 0 /\
   forall ret, at_ (step (start qd a now) (SubmitReturns ret)) = Undefined).
Proof.
  intros Hfail. unfold start.
  assert (Hm : match fst (allocate qd a) with
               | Memory Freed _ | Memory _ Freed => False
               | _ => True
               end).
  { unfold allocate.
    destruct (calloc_databuffers a); destruct (calloc_transfers a); cbn [andb];
      try exact I.
    destruct (allocate_loop a (Z.to_nat qd) 0 (replicate (Z.to_nat qd) false)
                (replicate (Z.to_nat qd) false)) as [[db tr] f]. exact I. }
  assert (Hnot : fst (allocate qd a) <> all_allocated (Z.to_nat qd) \/
                 exists db tr, fst (allocate qd a) = Memory (Live db) (Live tr)).
  { unfold allocate.
    destruct (calloc_databuffers a); destruct (calloc_transfers a); cbn [andb];
      try (left; discriminate).
    destruct (allocate_loop a (Z.to_nat qd) 0 (replicate (Z.to_nat qd) false)
                (replicate (Z.to_nat qd) false)) as [[db tr] f]. right. eauto. }
  destruct (allocate qd a) as [m allocfail]. cbn [fst snd] in *. subst allocfail.
  destruct m as [db tr].
  assert (Hfree : exists db' tr',
            free_transfer_buffers (Memory db tr) = Some (Memory db' tr') /\
            db' <> Live (replicate 0 true) /\
            (forall l, db' <> Live l)).
  { unfold free_transfer_buffers, free_array. cbn [databuffers transfers].
    destruct db; destruct tr; try contradiction; eexists _, _;
      (split; [reflexivity|]); split; discriminate. }
  destruct Hfree as (db' & tr' & Hfree & _ & Hdb). rewrite Hfree.
  pose proof (free_released _ _ Hfree) as Hlive.
  unfold submit_loop. cbn [vars queuedepth set_tv_start initial_globals].
  change (Z.of_nat 0) with 0.
  destruct (Z.ltb_spec 0 qd) as [Hpos|Hle]; cbn [mem trace at_].
  - split; [exact Hlive|]. split; [right; left; reflexivity|].
    intros _. split; [reflexivity|]. intros ret.
    unfold step. cbn [at_]. unfold submit_initial, slot_ready. cbn [mem databuffers].
    destruct db'; try reflexivity. exfalso. apply (Hdb entries). reflexivity.
  - split; [exact Hlive|]. split; [|lia].
    apply in_or_app. left. right. left. reflexivity.
Qed.

(** C5, at [queuedepth = 16] with the first [malloc] failing: the failure
    is printed and everything allocated is released, but [main] is then
    in the loop of the first submissions, whose first pass reads the
    arrays it has just released. *)
Theorem allocation_failure_not_aborted :
  let s := start 16 failing_allocator (Timeval 0 0) in
  snd (allocate 16 failing_allocator) = true /\
  trace s = [EvAllocFailed; EvFreeTransferBuffers] /\
  live_blocks (mem s) = 0%nat /\
  at_ s = Submitting 0 /\
  forall ret, at_ (step s (SubmitReturns ret)) = Undefined.
Proof.
  cbv zeta. split; [vm_compute; reflexivity|]. split; [vm_compute; reflexivity|].
  split; [vm_compute; reflexivity|]. split; [vm_compute; reflexivity|].
  intros ret. vm_compute. reflexivity.
Qed.

(** * Further properties *)

(** ** ezusb.c *)

(** X1: [RL32] reads the four bytes at [off] as one little-endian number
    below 2^32: the byte at [off] is the least significant, the byte at
    [off + 3] the most significant. *)
Theorem RL32_little_endian firmware off :
  RL32 firmware off
  = byte_at firmware off + 2 ^ 8 * byte_at firmware (off + 1)
    + 2 ^ 16 * byte_at firmware (off + 2) + 2 ^ 24 * byte_at firmware (off + 3) /\
  0 <= RL32 firmware off < 2 ^ 32 /\
  (forall b0 b1 b2 b3 rest,
     RL32 (b0 :: b1 :: b2 :: b3 :: rest) 0
     = uchar b0 + 256 * uchar b1 + 65536 * uchar b2 + 16777216 * uchar b3).
Proof.
  split; [apply RL32_value|]. split; [apply RL32_range|].
  intros b0 b1 b2 b3 rest. rewrite RL32_value. reflexivity.
Qed.

Lemma all_accepted_app transport hist tr1 tr2 :
  all_accepted transport hist (tr1 ++ tr2) <->
  all_accepted transport hist tr1 /\ all_accepted transport (hist ++ tr1) tr2.
Proof.
  revert hist. induction tr1 as [|r tr1 IH]; intros hist; cbn [app all_accepted].
  - rewrite app_nil_r. tauto.
  - rewrite IH, <- app_assoc. cbn [app]. tauto.
Qed.

Lemma stops_at_failure_app transport hist tr1 tr2 ret :
  all_accepted transport hist tr1 ->
  stops_at_failure transport (hist ++ tr1) tr2 ret ->
  stops_at_failure transport hist (tr1 ++ tr2) ret.
Proof.
  intros H1 (tr' & req & -> & H2 & H3 & H4).
  exists (tr1 ++ tr'), req. rewrite <- app_assoc in H3.
  split; [apply app_assoc|]. split; [apply all_accepted_app; auto|]. auto.
Qed.

Lemma send_segment_history transport fuel firmware addr offset sublength :
  forall suboffset hist e tr,
    send_segment transport fuel firmware addr offset sublength suboffset hist
      = Some (e, tr) ->
    match e with
    | Sent => all_accepted transport hist tr
    | SendFailed ret => stops_at_failure transport hist tr ret
    end.
Proof.
  induction fuel as [|fuel IH]; intros suboffset hist e tr H; [discriminate|].
  cbn [send_segment] in H.
  set (req := chunk_transfer firmware addr offset sublength suboffset) in *.
  destruct (Z.ltb_spec (transport hist req) 0) as [Hneg|Hpos].
  - injection H as <- <-. exists [], req. rewrite app_nil_r. cbn. auto.
  - destruct (_ <? sublength).
    + destruct (send_segment transport fuel firmware addr offset sublength _ _)
        as [[e' tr']|] eqn:Hrec; [|discriminate].
      injection H as <- <-. apply IH in Hrec. destruct e' as [|ret].
      * cbn. auto.
      * apply (stops_at_failure_app transport hist [req] tr' ret); cbn; auto.
    + injection H as <- <-. cbn. auto.
Qed.

Lemma upload_loop_history transport firmware length fuel :
  forall offset hist m tr,
    upload_loop transport fuel firmware length offset hist = Some (m, tr) ->
    match m with
    | UnableToSend ret => stops_at_failure transport hist tr ret
    | _ => all_accepted transport hist tr
    end.
Proof.
  induction fuel as [|fuel IH]; intros offset hist m tr H; [discriminate|].
  cbn [upload_loop] in H.
  assert (Hafter : forall o, match after_loop length o with
                             | UnableToSend ret => stops_at_failure transport hist [] ret
                             | _ => all_accepted transport hist []
                             end).
  { intros o. unfold after_loop. destruct (o <? length); exact I. }
  destruct (offset <? length); [|injection H as <- <-; apply Hafter].
  destruct (_ =? length); [injection H as <- <-; apply Hafter|].
  destruct (length <? _); [injection H as <- <-; apply Hafter|].
  destruct (_ >? _); [injection H as <- <-; apply Hafter|].
  destruct (send_segment transport _ firmware _ _ _ 0 hist) as [[e tr1]|] eqn:Hsend;
    [|discriminate].
  apply send_segment_history in Hsend. destruct e as [|ret].
  - destruct (upload_loop transport fuel firmware length _ _) as [[m' tr2]|] eqn:Hrec;
      [|discriminate].
    injection H as <- <-. apply IH in Hrec. destruct m'; try contradiction;
      try (apply all_accepted_app; auto; fail).
    apply stops_at_failure_app; auto.
  - injection H as <- <-. exact Hsend.
Qed.

(** X5: the upload stops at the first control transfer the device
    refuses: when the install reports that it was unable to send, the
    refused transfer is the last one issued, every transfer before it was
    accepted, and the result is -1; with every other outcome, every
    transfer issued was accepted. *)
Theorem upload_stops_at_first_failure transport file m tr :
  ezusb_install_firmware transport file = Some (m, tr) ->
  match m with
  | UnableToSend ret =>
      install_return m = -1 /\
      exists tr' req,
        tr = tr' ++ [req] /\ all_accepted transport [] tr' /\
        transport tr' req = ret /\ ret < 0
  | _ => all_accepted transport [] tr
  end.
Proof.
  intros H. unfold ezusb_install_firmware in H.
  destruct file as [image|]; [|injection H as <- <-; exact I].
  destruct (_ >? max_size); [injection H as <- <-; exact I|].
  destruct (bad_signature _ _); [injection H as <- <-; exact I|].
  apply upload_loop_history in H. destruct m; auto.
Qed.

Lemma upload_stops_at_first_failure_witness :
  exists tr' req,
    ezusb_install_firmware reject_second (Some two_segment_image)
      = Some (UnableToSend (-1), tr' ++ [req]) /\
    length tr' = 1%nat /\ all_accepted reject_second [] tr' /\
    reject_second tr' req = -1.
Proof.
  destruct (upload_stops_at_first_failure reject_second (Some two_segment_image)
              (UnableToSend (-1)) _ ltac:(vm_compute; reflexivity))
    as (_ & tr' & req & Heq & Hacc & Hret & _).
  exists tr', req.
  assert (Hlen : length tr' = 1%nat).
  { apply (f_equal (@length _)) in Heq. rewrite length_app in Heq.
    cbn in Heq. lia. }
  split; [|auto].
  rewrite <- Heq. vm_compute. reflexivity.
Defined.

Lemma segments_end_shift offset segs :
  segments_end offset segs = offset + segments_end 0 segs.
Proof.
  revert offset. induction segs as [|seg rest IH]; intros offset; cbn [segments_end].
  - lia.
  - rewrite (IH (offset + 8 + seg_length seg)), (IH (0 + 8 + seg_length seg)). lia.
Qed.

(** Where the segments that the loop of lines 149-188 accepts lie. *)
Lemma parse_loop_layout firmware length :
  length <= max_size ->
  forall fuel offset segs,
    4 <= offset <= length ->
    parse_loop fuel firmware length offset = Some segs ->
    laid_out offset segs /\ offset <= segments_end offset segs <= length.
Proof.
  intros Hmax. unfold max_size in Hmax.
  induction fuel as [|fuel IH]; intros offset segs Hoff Hp; [discriminate|].
  cbn [parse_loop] in Hp.
  destruct (Z.ltb_spec offset length) as [Hlt|Hge];
    [|injection Hp as <-; cbn; split; [exact I | lia]].
  unfold size_t in Hp. rewrite !(Z.mod_small (offset + _)) in Hp by lia.
  destruct (Z.eqb_spec (offset + 4) length);
    [injection Hp as <-; cbn; split; [exact I | lia]|].
  destruct (Z.ltb_spec length (offset + 8));
    [injection Hp as <-; cbn; split; [exact I | lia]|].
  rewrite !(Z.mod_small (offset + 4 + 4)) in Hp by lia.
  rewrite (Z.mod_small (length - _)) in Hp by lia.
  pose proof (segment_sublength_range firmware offset) as Hsub.
  destruct (Z.gtb_spec (segment_sublength firmware offset) (length - (offset + 4 + 4)));
    [injection Hp as <-; cbn; split; [exact I | lia]|].
  rewrite (Z.mod_small (offset + 4 + 4 + _)) in Hp by lia.
  destruct (parse_loop fuel firmware length _) as [rest|] eqn:Hrest; [|discriminate].
  injection Hp as <-. cbn [segments_end laid_out seg_offset seg_length].
  destruct (IH (offset + 4 + 4 + segment_sublength firmware offset) rest
              ltac:(lia) Hrest) as (Hlay & Hend).
  replace (offset + 8 + segment_sublength firmware offset)
    with (offset + 4 + 4 + segment_sublength firmware offset) by lia.
  split; [split; [lia | exact Hlay] | lia].
Qed.

(** What the loop of lines 149-188 prints for the bytes left behind the
    last segment it accepts. *)
Lemma upload_loop_message transport firmware length :
  length <= max_size ->
  forall fuel offset hist segs m tr,
    4 <= offset <= length ->
    parse_loop fuel firmware length offset = Some segs ->
    upload_loop transport fuel firmware length offset hist = Some (m, tr) ->
    match m with
    | UploadDone =>
        length - segments_end offset segs = 0 \/
        length - segments_end offset segs = 4 \/
        length - segments_end offset segs = 8
    | FileTruncated =>
        0 < length - segments_end offset segs /\
        length - segments_end offset segs <> 4 /\
        length - segments_end offset segs <> 8
    | UnableToSend ret => ret < 0
    | _ => False
    end.
Proof.
  intros Hmax. unfold max_size in Hmax.
  induction fuel as [|fuel IH]; intros offset hist segs m tr Hoff Hp Hu; [discriminate|].
  cbn [parse_loop upload_loop] in Hp, Hu.
  destruct (Z.ltb_spec offset length) as [Hlt|Hge].
  2:{ injection Hp as <-. injection Hu as <- <-. cbn [segments_end].
      unfold after_loop. destruct (Z.ltb_spec offset length); lia. }
  unfold size_t in Hp, Hu. rewrite !(Z.mod_small (offset + _)) in Hp, Hu by lia.
  destruct (Z.eqb_spec (offset + 4) length) as [Hck|Hck].
  { injection Hp as <-. injection Hu as <- <-. cbn [segments_end].
    unfold after_loop. destruct (Z.ltb_spec (offset + 4) length); lia. }
  destruct (Z.ltb_spec length (offset + 8)) as [Hshort|Hhdr].
  { injection Hp as <-. injection Hu as <- <-. cbn [segments_end].
    unfold after_loop. destruct (Z.ltb_spec offset length); lia. }
  rewrite !(Z.mod_small (offset + 4 + 4)) in Hp, Hu by lia.
  rewrite (Z.mod_small (length - _)) in Hp, Hu by lia.
  pose proof (segment_sublength_range firmware offset) as Hsub.
  destruct (Z.gtb_spec (segment_sublength firmware offset) (length - (offset + 4 + 4)))
    as [Hbig|Hfit].
  { injection Hp as <-. injection Hu as <- <-. cbn [segments_end].
    unfold after_loop. destruct (Z.ltb_spec (offset + 4 + 4) length); lia. }
  rewrite (Z.mod_small (offset + 4 + 4 + _)) in Hp, Hu by lia.
  destruct (parse_loop fuel firmware length _) as [rest|] eqn:Hrest; [|discriminate].
  injection Hp as <-. cbn [segments_end seg_length].
  replace (offset + 8 + segment_sublength firmware offset)
    with (offset + 4 + 4 + segment_sublength firmware offset) by lia.
  destruct (send_segment transport _ firmware _ _ _ 0 hist) as [[e tr1]|] eqn:Hsend;
    [|discriminate].
  destruct e as [|ret].
  - destruct (upload_loop transport fuel firmware length _ _) as [[m' tr2]|] eqn:Hrec;
      [|discriminate].
    injection Hu as <- <-. eapply IH; [|exact Hrest|exact Hrec]. lia.
  - injection Hu as <- <-.
    apply send_segment_history in Hsend. destruct Hsend as (_ & _ & _ & _ & _ & Hneg).
    exact Hneg.
Qed.

Lemma chunk_count_cost len :
  0 <= len -> 8 * Z.of_nat (chunk_count len) <= 8 + len.
Proof.
  intros Hlen. unfold chunk_count, ceil_div, FW_CHUNKSIZE.
  pose proof (Z.div_mod (len + 4 * 1024 - 1) (4 * 1024)) as Hd.
  pose proof (Z.mod_pos_bound (len + 4 * 1024 - 1) (4 * 1024)) as Hm.
  lia.
Qed.

Lemma transfers_cost firmware length segs :
  Forall (segment_in_image length) segs ->
  8 * Z.of_nat (List.length (flat_map (segment_transfers firmware) segs))
  <= segments_end 0 segs.
Proof.
  induction 1 as [|seg rest Hseg _ IH]; cbn [flat_map segments_end]; [cbn; lia|].
  rewrite length_app, segment_transfers_length, (segments_end_shift (0 + 8 + _)).
  destruct Hseg as (_ & _ & Hl & _).
  pose proof (chunk_count_cost (seg_length seg) Hl). lia.
Qed.

(** X2: [ezusb_install_firmware] returns on every file and every device,
    with 0 or -1, and for an image of [length] bytes it issues at most
    [(length - 4) / 8] control transfers, none for an image of less than
    12 bytes: every transfer is paid for by 8 bytes of the image. *)
Theorem install_terminates_bounded transport file :
  exists m tr,
    ezusb_install_firmware transport file = Some (m, tr) /\
    (install_return m = 0 \/ install_return m = -1) /\
    forall image, file = Some image ->
      8 * Z.of_nat (length tr) <= Z.max 4 (Z.of_nat (length image)) - 4.
Proof.
  assert (Hret : forall m, install_return m = 0 \/ install_return m = -1)
    by (intros []; cbn; auto).
  destruct file as [image|].
  2:{ exists FailedToLocate, []. split; [reflexivity|]. split; [auto|]. discriminate. }
  destruct (Z.gtb_spec (Z.of_nat (length image)) max_size) as [Hgt|Hle].
  { exists SizeExceedsLimit, []. unfold ezusb_install_firmware.
    rewrite (proj2 (Z.gtb_gt _ _)) by lia. split; [reflexivity|]. split; [auto|].
    intros ? _. cbn. lia. }
  destruct (bad_signature image (Z.of_nat (length image))) eqn:Hsig.
  { exists InvalidSignature, []. unfold ezusb_install_firmware.
    destruct (Z.gtb_spec (Z.of_nat (length image)) max_size); [lia|].
    rewrite Hsig. split; [reflexivity|]. split; [auto|]. intros ? _. cbn. lia. }
  destruct (install_run transport image Hle Hsig)
    as (segs & m & tr & Hparse & Hrun & Hall & Hout).
  exists m, tr. split; [exact Hrun|]. split; [auto|].
  intros image' Heq. injection Heq as <-.
  pose proof (bad_signature_false_length _ _ Hsig) as Hlen.
  unfold parse in Hparse.
  destruct (parse_loop_layout image (Z.of_nat (length image)) Hle _ 4 segs
              ltac:(lia) Hparse) as [_ Hend].
  rewrite segments_end_shift in Hend.
  pose proof (transfers_cost image _ segs Hall) as Hcost.
  assert (Hpre : (length tr <= length (flat_map (segment_transfers image) segs))%nat).
  { unfold upload_outcome in Hout. destruct m; try contradiction.
    - destruct Hout as [_ Hp]. apply prefix_length. exact Hp.
    - rewrite Hout. lia.
    - rewrite Hout. lia. }
  lia.
Qed.

Lemma install_terminates_bounded_witness :
  exists m tr,
    ezusb_install_firmware accept_all (Some two_segment_image) = Some (m, tr) /\
    8 * Z.of_nat (length tr) <= 28.
Proof.
  destruct (install_terminates_bounded accept_all (Some two_segment_image))
    as (m & tr & Heq & _ & Hb).
  exists m, tr. split; [exact Heq|].
  specialize (Hb two_segment_image eq_refl).
  change (Z.max 4 (Z.of_nat (length two_segment_image)) - 4) with 28 in Hb.
  exact Hb.
Defined.

(** X3: the segments the parser accepts lie back to back behind the
    4-byte signature: the first header is at offset 4 and every other
    header starts where the payload before it ends; the address and the
    length of a segment are the two little-endian words of its header,
    the length a multiple of 4, and the payload lies inside the image. *)
Theorem segments_back_to_back image segs :
  4 <= Z.of_nat (length image) <= max_size ->
  parse image = Some segs ->
  laid_out 4 segs /\
  segments_end 4 segs <= Z.of_nat (length image) /\
  Forall (fun seg =>
    seg_addr seg = RL32 image (seg_offset seg - 4) /\
    seg_length seg = segment_sublength image (seg_offset seg - 8) /\
    seg_length seg mod 4 = 0 /\
    12 <= seg_offset seg /\
    seg_offset seg + seg_length seg <= Z.of_nat (length image)) segs.
Proof.
  intros Hlen Hparse. unfold parse in Hparse.
  destruct (parse_loop_layout image (Z.of_nat (length image)) ltac:(lia) _ 4 segs
              ltac:(lia) Hparse) as [Hlay Hend].
  split; [exact Hlay|]. split; [lia|].
  pose proof (parse_loop_fields image (Z.of_nat (length image)) ltac:(lia) _ 4 segs
                ltac:(lia) Hparse) as Hf.
  destruct (upload_loop_run accept_all image (Z.of_nat (length image)) ltac:(lia)
              (S (Z.to_nat (Z.of_nat (length image)))) 4 [] ltac:(lia) ltac:(lia))
    as (segs' & m' & tr' & Hp' & _ & Hin & _).
  rewrite Hparse in Hp'. injection Hp' as <-.
  rewrite Forall_forall in Hf, Hin. apply Forall_forall. intros seg Hseg.
  destruct (Hf seg Hseg) as [Hl Ha]. destruct (Hin seg Hseg) as (_ & Ho & _ & Hol).
  repeat split; auto.
  rewrite Hl, segment_sublength_value.
  change (2 ^ 32) with (4 * 2 ^ 30).
  rewrite Z.mul_comm, Zmult_mod_distr_l, Z.mul_comm. apply Z_mod_mult.
Qed.

Lemma segments_back_to_back_witness :
  parse two_segment_image
    = Some [Segment 0 12 4; Segment 256 24 4] /\
  laid_out 4 [Segment 0 12 4; Segment 256 24 4] /\
  segments_end 4 [Segment 0 12 4; Segment 256 24 4] = 28.
Proof.
  assert (Hp : parse two_segment_image = Some [Segment 0 12 4; Segment 256 24 4])
    by (vm_compute; reflexivity).
  destruct (segments_back_to_back two_segment_image _
              ltac:(vm_compute; split; discriminate) Hp) as (Hlay & _).
  split; [exact Hp|]. split; [exact Hlay|]. reflexivity.
Defined.

(** X4: for an image with a valid signature, what the install reports is
    decided by the number [rest] of bytes behind the last segment the
    parser accepts: it reports success, and returns 0, only with 0, 4 or
    8 bytes left, and truncation, with -1, only with some other number
    of bytes left; the only other outcome is a transfer that the device
    refused, with -1. *)
Theorem install_message_by_remainder transport image segs m tr :
  Z.of_nat (length image) <= max_size ->
  bad_signature image (Z.of_nat (length image)) = false ->
  parse image = Some segs ->
  ezusb_install_firmware transport (Some image) = Some (m, tr) ->
  let rest := Z.of_nat (length image) - segments_end 4 segs in
  match m with
  | UploadDone => install_return m = 0 /\ (rest = 0 \/ rest = 4 \/ rest = 8)
  | FileTruncated => install_return m = -1 /\ 0 < rest /\ rest <> 4 /\ rest <> 8
  | UnableToSend ret => install_return m = -1 /\ ret < 0
  | _ => False
  end.
Proof.
  intros Hmax Hsig Hparse Hrun. cbv zeta.
  pose proof (bad_signature_false_length _ _ Hsig) as Hlen.
  unfold ezusb_install_firmware in Hrun.
  destruct (Z.gtb_spec (Z.of_nat (length image)) max_size); [lia|].
  rewrite Hsig in Hrun. unfold parse in Hparse.
  pose proof (upload_loop_message transport image (Z.of_nat (length image)) Hmax
                _ 4 [] segs m tr ltac:(lia) Hparse Hrun) as Hmsg.
  destruct m; auto.
Qed.

Lemma install_message_by_remainder_witness :
  ezusb_install_firmware accept_all (Some two_segment_image)
    = Some (UploadDone,
            flat_map (segment_transfers two_segment_image)
              [Segment 0 12 4; Segment 256 24 4]) /\
  Z.of_nat (length two_segment_image)
    - segments_end 4 [Segment 0 12 4; Segment 256 24 4] = 4.
Proof.
  assert (Hrun : ezusb_install_firmware accept_all (Some two_segment_image)
    = Some (UploadDone,
            flat_map (segment_transfers two_segment_image)
              [Segment 0 12 4; Segment 256 24 4])) by (vm_compute; reflexivity).
  pose proof (install_message_by_remainder accept_all two_segment_image
                [Segment 0 12 4; Segment 256 24 4] UploadDone _
                ltac:(vm_compute; discriminate) eq_refl
                ltac:(vm_compute; reflexivity) Hrun) as H.
  cbv zeta in H. destruct H as [_ H].
  split; [exact Hrun|]. reflexivity.
Defined.

Lemma not_in_host_controls (e : host_event) tr :
  (forall t, e <> HostControl t) -> ~ In e (map HostControl tr).
Proof.
  intros Hne Hin. apply in_map_iff in Hin as (t & <- & _). apply (Hne t). reflexivity.
Qed.

(** X6: [ezusb_upload_firmware] returns 0 or -1; it returns 0 exactly
    when [libusb_open], the detach of a kernel driver that is active and
    [libusb_set_configuration] succeeded and the install reported
    success; it closes the handle exactly when it returns 0, so that on a
    failure behind [libusb_open] the handle stays open; and it issues
    control transfers only after the three calls succeeded. *)
Theorem upload_firmware_closes_on_success host transport configuration file :
  exists ret evs,
    ezusb_upload_firmware host transport configuration file = Some (ret, evs) /\
    (ret = 0 \/ ret = -1) /\
    (ret = 0 <->
       0 <= open_ret host /\
       (kernel_driver_active host = 1 -> 0 <= detach_ret host) /\
       0 <= set_configuration_ret host /\
       exists tr, ezusb_install_firmware transport file = Some (UploadDone, tr)) /\
    (In HostClose evs <-> ret = 0) /\
    ((exists t, In (HostControl t) evs) ->
       0 <= open_ret host /\
       (kernel_driver_active host = 1 -> 0 <= detach_ret host) /\
       0 <= set_configuration_ret host).
Proof.
  unfold ezusb_upload_firmware.
  destruct (Z.ltb_spec (open_ret host) 0) as [Hopen|Hopen].
  { exists (-1), [HostOpen]. split; [reflexivity|]. split; [auto|].
    split; [split; [discriminate | lia]|].
    split; [split; [intros [H|[]]; discriminate | discriminate]|].
    intros [t [H|[]]]; discriminate. }
  destruct (Z.eqb_spec (kernel_driver_active host) 1) as [Hact|Hact];
    destruct (Z.ltb_spec (detach_ret host) 0) as [Hdet|Hdet]; cbn [andb].
  1:{ exists (-1), ([HostOpen] ++ [HostDetachKernelDriver]).
      split; [reflexivity|]. split; [auto|].
      split; [split; [discriminate | intros (_ & H & _); specialize (H Hact); lia]|].
      split; [split; [intros [H|[H|[]]]; discriminate | discriminate]|].
      intros [t [H|[H|[]]]]; discriminate. }
  all: destruct (Z.ltb_spec (set_configuration_ret host) 0) as [Hcfg|Hcfg].
  all: try (eexists (-1), _; split; [reflexivity|]; split; [auto|];
            split; [split; [discriminate | lia]|];
            split; [split; [cbn; intuition discriminate | discriminate]|];
            intros [t H]; cbn in H; intuition discriminate).
  all: destruct (install_total transport file) as (m & tr & Hrun); rewrite Hrun.
  all: destruct (Z.ltb_spec (install_return m) 0) as [Hfail|Hok].
  all: eexists _, _; (split; [reflexivity|]); (split; [auto|]).
  all: try (split; [split; [discriminate |
              intros (_ & _ & _ & tr' & Htr');
              injection Htr' as -> _; cbn in Hfail; lia]|];
            split; [split; [|discriminate]|];
            [ intros Hin; repeat (apply in_app_or in Hin as [Hin|Hin]);
              try (cbn in Hin; intuition discriminate);
              exfalso; revert Hin; apply not_in_host_controls; discriminate
            | intros _; repeat split; lia ]).
  all: assert (Hm : m = UploadDone) by (destruct m; cbn in Hok; try lia; reflexivity).
  all: split; [split; [intros _; repeat split; try lia; subst m; eauto | reflexivity]|].
  all: split; [split; [reflexivity|intros _; repeat (apply in_or_app; right); left; reflexivity]|].
  all: intros _; repeat split; lia.
Qed.

Lemma upload_firmware_closes_on_success_witness :
  exists evs,
    ezusb_upload_firmware host_ok accept_all 1 (Some two_segment_image)
    = Some (0, evs) /\
    In HostClose evs.
Proof.
  destruct (upload_firmware_closes_on_success host_ok accept_all 1
              (Some two_segment_image))
    as (ret & evs & Heq & _ & Hret & Hclose & _).
  assert (H0 : ret = 0).
  { apply Hret. split; [cbn; lia|]. split; [cbn; lia|]. split; [cbn; lia|].
    eexists. vm_compute. reflexivity. }
  subst ret. exists evs. split; [exact Heq|]. apply Hclose. reflexivity.
Defined.

(** *** The callback's log *)

Lemma callback_log g t now ret :
  exists report,
    snd (transfer_callback g t now ret)
    = status_message t ++ report ++ callback_submits g t ret /\
    (report = [] \/ exists a b c d, report = [EvReport a b c d]).
Proof.
  unfold transfer_callback, window_report, resubmit, count_completion,
    callback_submits.
  cbn [transfer_index queuedepth].
  destruct (unsigned (transfer_index g + 1) =? queuedepth g);
    cbn [stop_transfers]; destruct (stop_transfers g); cbn [snd];
    eexists; (split; [reflexivity|]); eauto 6.
Qed.

Lemma callback_prints g t now ret :
  Forall (fun e => is_status e = true \/ is_report e = true \/
                   is_submit FromCallback e)
    (snd (transfer_callback g t now ret)).
Proof.
  destruct (callback_log g t now ret) as (report & -> & Hrep).
  apply Forall_app. split; [|apply Forall_app; split].
  - unfold status_message. destruct (completed (status t)); [constructor|].
    apply Forall_cons. split; [left; reflexivity | constructor].
  - destruct Hrep as [->|(a & b & c & d & ->)]; [constructor|].
    apply Forall_cons. split; [right; left; reflexivity | constructor].
  - unfold callback_submits. destruct (stop_transfers g); [constructor|].
    apply Forall_cons. split; [|constructor].
    right; right. eexists _, _. reflexivity.
Qed.

Lemma flat_map_none {A B} (f : A -> list B) (P : A -> Prop) l :
  (forall x, P x -> f x = []) -> Forall P l -> flat_map f l = [].
Proof.
  intros Hf. induction 1 as [|x l Hx _ IH]; [reflexivity|].
  cbn. rewrite (Hf x Hx), IH. reflexivity.
Qed.

Lemma callback_main_submits g t now ret :
  main_submits (snd (transfer_callback g t now ret)) = [].
Proof.
  unfold main_submits. eapply flat_map_none; [|apply callback_prints].
  intros e He. destruct e as [| |o i r| | | | |]; try reflexivity.
  destruct o; [|reflexivity]. exfalso.
  destruct He as [H|[H|(i' & r' & H)]]; discriminate.
Qed.

Lemma callback_commands g t now ret :
  commands (snd (transfer_callback g t now ret)) = [].
Proof.
  unfold commands. eapply flat_map_none; [|apply callback_prints].
  intros e He. destruct e; try reflexivity. exfalso.
  destruct He as [H|[H|(i' & r' & H)]]; discriminate.
Qed.

Lemma callback_not_in (e : event) g t now ret :
  is_status e = false -> is_report e = false -> ~ is_submit FromCallback e ->
  ~ In e (snd (transfer_callback g t now ret)).
Proof.
  intros Hs Hr Hsub Hin.
  pose proof (callback_prints g t now ret) as Hall.
  rewrite List.Forall_forall in Hall. destruct (Hall e Hin) as [H|[H|H]]; congruence || auto.
Qed.

Lemma callback_status_messages g t now ret :
  status_messages (snd (transfer_callback g t now ret)) = status_message t.
Proof.
  destruct (callback_log g t now ret) as (report & -> & Hrep).
  unfold status_messages. rewrite !List.filter_app.
  replace (List.filter is_status report) with (@nil event)
    by (destruct Hrep as [->|(a & b & c & d & ->)]; reflexivity).
  replace (List.filter is_status (callback_submits g t ret)) with (@nil event)
    by (unfold callback_submits; destruct (stop_transfers g); reflexivity).
  rewrite !app_nil_r. unfold status_message.
  destruct (completed (status t)); reflexivity.
Qed.

Lemma unsigned_add_l x y : unsigned (unsigned x + y) = unsigned (x + y).
Proof. unfold unsigned. rewrite Zplus_mod_idemp_l. reflexivity. Qed.

Lemma unsigned_small x : 0 <= x < 2 ^ 32 -> unsigned x = x.
Proof. intros H. unfold unsigned. apply Z.mod_small. exact H. Qed.

(** X8: over any sequence of completions the two counters hold, modulo 2^32,
    the number of completions with status [LIBUSB_TRANSFER_COMPLETED]
    and the number of the others, every completion is counted by one of
    the two, and the log has one line "Transfer callback status" for
    each completion that did not succeed, in their order, with its
    status and [actual_length], and none for a successful one. *)
Theorem callbacks_count_and_log g cs :
  0 <= success_count g < 2 ^ 32 ->
  0 <= failure_count g < 2 ^ 32 ->
  let r := run_callbacks g cs in
  success_count (fst r)
    = unsigned (success_count g + Z.of_nat (length (successes cs))) /\
  failure_count (fst r)
    = unsigned (failure_count g + Z.of_nat (length (failures cs))) /\
  (length (successes cs) + length (failures cs) = length cs)%nat /\
  status_messages (snd r)
    = map (fun c => EvTransferStatus (status (c_transfer c))
                      (actual_length (c_transfer c))) (failures cs).
Proof.
  cbv zeta. revert g. induction cs as [|c cs IH]; intros g Hs Hf.
  - cbn. rewrite !Z.add_0_r, !unsigned_small by assumption. auto.
  - cbn [run_callbacks].
    pose proof (callback_globals g (c_transfer c) (c_now c) (c_submit_ret c)) as Hg.
    pose proof (callback_status_messages g (c_transfer c) (c_now c) (c_submit_ret c)) as Hm.
    destruct (transfer_callback g (c_transfer c) (c_now c) (c_submit_ret c))
      as [g1 ev1]. cbv zeta in Hg. cbn [fst snd] in Hg, Hm.
    destruct Hg as (_ & _ & Hsc & Hfc & _).
    assert (Hs1 : 0 <= success_count g1 < 2 ^ 32).
    { rewrite Hsc. destruct (completed _); [apply Z.mod_pos_bound; lia | exact Hs]. }
    assert (Hf1 : 0 <= failure_count g1 < 2 ^ 32).
    { rewrite Hfc. destruct (completed _); [exact Hf | apply Z.mod_pos_bound; lia]. }
    specialize (IH g1 Hs1 Hf1).
    destruct (run_callbacks g1 cs) as [g2 ev2]. cbn [fst snd] in *.
    destruct IH as (IHs & IHf & IHn & IHm).
    unfold status_messages in *. rewrite List.filter_app, Hm, IHm.
    unfold successes, failures, status_message in *. cbn [List.filter].
    destruct (completed (status (c_transfer c))); cbn [negb length map app].
    + rewrite IHs, IHf, Hsc, Hfc, unsigned_add_l.
      repeat split; try reflexivity; [f_equal; lia | lia].
    + rewrite IHs, IHf, Hsc, Hfc, unsigned_add_l.
      repeat split; try reflexivity; [f_equal; lia | lia].
Qed.

Lemma callbacks_count_and_log_witness :
  let cs := [Completion (Transfer 0 LIBUSB_TRANSFER_COMPLETED 512) (Timeval 1 0) 0;
             Completion (Transfer 1 LIBUSB_TRANSFER_STALL 7) (Timeval 1 0) 0] in
  let r := run_callbacks (initial_globals 16) cs in
  success_count (fst r) = 1 /\ failure_count (fst r) = 1 /\
  status_messages (snd r) = [EvTransferStatus LIBUSB_TRANSFER_STALL 7].
Proof.
  cbv zeta.
  destruct (callbacks_count_and_log (initial_globals 16)
    [Completion (Transfer 0 LIBUSB_TRANSFER_COMPLETED 512) (Timeval 1 0) 0;
     Completion (Transfer 1 LIBUSB_TRANSFER_STALL 7) (Timeval 1 0) 0])
    as (Hs & Hf & _ & Hm).
  - cbn [success_count initial_globals]. lia.
  - cbn [failure_count initial_globals]. lia.
  - rewrite Hs, Hf, Hm. repeat split; vm_compute; reflexivity.
Defined.

(** *** The data rate of a window that takes no time *)



Lemma elapsed_usec_same t : elapsed_usec t t = 0.
Proof.
  unfold elapsed_usec. replace ((tv_sec t - tv_sec t) * 1000000 + (tv_usec t - tv_usec t)) with 0 by lia.
  reflexivity.
Qed.

(** X9: a window that closes with no time elapsed on the clock since
    its start divides by zero: the rate is an infinity or a NaN, whose
    conversion to [uint32_t] is undefined, and the report carries no
    defined data rate, whatever was received. *)
Theorem report_undefined_at_zero_elapsed g t now ret :
  at_boundary g = true ->
  elapsed_usec (tv_start g) now = 0 ->
  exists pass fail,
    reports (snd (transfer_callback g t now ret))
    = [EvReport pass fail (actual_length t) None].
Proof.
  intros Hb He. rewrite callback_reports, Hb, He, data_rate_zero. eauto.
Qed.

Lemma report_undefined_at_zero_elapsed_witness :
  exists pass fail,
    reports (snd (transfer_callback
                    (fst (run_callbacks (initial_globals 16) (repeat one_success 15)))
                    (Transfer 0 LIBUSB_TRANSFER_COMPLETED 65536) (Timeval 0 0) 0))
    = [EvReport pass fail 65536 None].
Proof.
  apply (report_undefined_at_zero_elapsed
           (fst (run_callbacks (initial_globals 16) (repeat one_success 15)))
           (Transfer 0 LIBUSB_TRANSFER_COMPLETED 65536) (Timeval 0 0) 0).
  - vm_compute. reflexivity.
  - vm_compute. reflexivity.
Defined.

(** *** The session runs until SIGINT *)

Lemma running_extend s s' evs :
  running s ->
  stop_transfers (vars s') = stop_transfers (vars s) ->
  trace s' = trace s ++ evs ->
  at_ s' <> Drained -> at_ s' <> Draining ->
  ~ In EvStop evs -> ~ In (EvCommand STOPFX3 0) evs ->
  running s'.
Proof.
  intros (Hstop & _ & _ & Hno & Hcmd) Hv Ht Hd1 Hd2 He1 He2.
  unfold running. rewrite Hv, Ht. repeat split; auto.
  - intros Hin. apply in_app_or in Hin as [Hin|Hin]; auto.
  - intros Hin. apply in_app_or in Hin as [Hin|Hin]; auto.
Qed.

Lemma running_submit_loop s i : running s -> running (submit_loop s i).
Proof.
  intros Hrun. destruct (submit_loop_fields s i) as (Hv & _ & _ & Hcase).
  apply (f_equal stop_transfers) in Hv.
  destruct Hcase as [(Hat' & Ht & _)|(Hat' & Ht)].
  - apply (running_extend s _ []); [exact Hrun | exact Hv | | | | |].
    + rewrite app_nil_r. exact Ht.
    + rewrite Hat'. discriminate.
    + rewrite Hat'. discriminate.
    + intros [].
    + intros [].
  - eapply (running_extend s); [exact Hrun | exact Hv | exact Ht | | | |].
    + rewrite Hat'. discriminate.
    + rewrite Hat'. discriminate.
    + cbn. intuition discriminate.
    + cbn. intuition discriminate.
Qed.

Lemma running_step s l : running s -> l <> Signal -> running (step s l).
Proof.
  intros Hrun Hl. pose proof Hrun as (Hstop & Hd1 & Hd2 & Hno & Hcmd).
  unfold step. destruct (at_ s) eqn:Hat; destruct l; try congruence; auto.
  - unfold submit_initial. destruct (slot_ready (mem s) i).
    + apply running_submit_loop.
      apply (running_extend s _ [EvSubmit FromMain i ret]); cbn [vars trace at_];
        [exact Hrun | | reflexivity | | | |].
      * destruct (ret =? 0); reflexivity.
      * rewrite Hat. discriminate.
      * rewrite Hat. discriminate.
      * cbn. intuition discriminate.
      * cbn. intuition discriminate.
    + apply (running_extend s _ []); cbn [vars trace at_];
        [exact Hrun | reflexivity | | | | |].
      * rewrite app_nil_r. reflexivity.
      * discriminate.
      * discriminate.
      * intros [].
      * intros [].
  - unfold complete. destruct (bool_decide _); [|exact Hrun].
    pose proof (callback_globals (vars s) (c_transfer c) (c_now c) (c_submit_ret c)) as Hg.
    pose proof (callback_not_in EvStop (vars s) (c_transfer c) (c_now c) (c_submit_ret c)) as H1.
    pose proof (callback_not_in (EvCommand STOPFX3 0) (vars s) (c_transfer c) (c_now c)
                  (c_submit_ret c)) as H2.
    destruct (transfer_callback (vars s) (c_transfer c) (c_now c) (c_submit_ret c))
      as [g evs]. cbv zeta in Hg. cbn [fst snd] in *.
    destruct Hg as (_ & Hst & _).
    apply (running_extend s _ evs); cbn [vars trace at_];
      [exact Hrun | exact Hst | reflexivity | | | |].
    + rewrite Hat. discriminate.
    + rewrite Hat. discriminate.
    + apply H1; [reflexivity | reflexivity |]. intros (i & r & H). discriminate.
    + apply H2; [reflexivity | reflexivity |]. intros (i & r & H). discriminate.
  - unfold dispatch_loop. rewrite Hstop.
    apply (running_extend s _ [EvHandleEvents]); cbn [vars trace at_];
      [exact Hrun | reflexivity | reflexivity | | | |].
    + discriminate.
    + discriminate.
    + cbn. intuition discriminate.
    + cbn. intuition discriminate.
Qed.

Lemma running_start qd a now : running (start qd a now).
Proof.
  unfold start. destruct (allocate qd a) as [m allocfail].
  destruct allocfail.
  - destruct (free_transfer_buffers m).
    + apply running_submit_loop.
      unfold running. cbn. intuition discriminate.
    + unfold running. cbn. intuition discriminate.
  - apply running_submit_loop.
    unfold running. cbn. intuition discriminate.
Qed.

Lemma running_run s ls : running s -> ~ In Signal ls -> running (run s ls).
Proof.
  revert s. induction ls as [|l ls IH]; intros s Hrun Hno; [exact Hrun|].
  cbn. apply IH.
  - apply running_step; [exact Hrun|]. intros ->. apply Hno. left. reflexivity.
  - intros Hin. apply Hno. right. exact Hin.
Qed.

(** X12: without SIGINT the session does not end: whatever the
    allocator and the transport do, also when every resubmission has
    failed and no transfer is left, the stop flag stays clear, [main]
    reaches neither the loop of lines 295-299 nor the end of the session,
    and STOPFX3 is not sent. *)
Theorem session_runs_until_sigint qd a now ls :
  ~ In Signal ls ->
  let s := run (start qd a now) ls in
  stop_transfers (vars s) = false /\
  at_ s <> Draining /\ at_ s <> Drained /\
  ~ In (EvCommand STOPFX3 0) (trace s).
Proof.
  intros Hno. cbv zeta.
  destruct (running_run _ ls (running_start qd a now) Hno) as (H1 & H2 & H3 & _ & H5).
  auto.
Qed.

Lemma session_runs_until_sigint_witness :
  let s := run (start 2 allocator_ok (Timeval 0 0)) failing_resubmissions in
  stop_transfers (vars s) = false /\
  at_ s <> Draining /\ at_ s <> Drained /\
  ~ In (EvCommand STOPFX3 0) (trace s).
Proof.
  apply (session_runs_until_sigint 2 allocator_ok (Timeval 0 0) failing_resubmissions).
  unfold failing_resubmissions. cbn. intuition discriminate.
Defined.

(** *** The queue only shrinks *)

Lemma pending_step_subset s l :
  ~ in_submit_loop s ->
  pending (step s l) ⊆ pending s /\ ~ in_submit_loop (step s l).
Proof.
  intros Hnot. unfold step.
  destruct (at_ s) eqn:Hat.
  - exfalso. apply Hnot. exists i. exact Hat.
  - destruct l.
    + split; [reflexivity | exact Hnot].
    + unfold complete. destruct (bool_decide _); [|split; [reflexivity | exact Hnot]].
      destruct (transfer_callback _ _ _ _) as [g evs]. cbn [pending at_].
      split; [|intros (j & Hj); cbn in Hj; congruence].
      destruct (negb _ && _); [reflexivity | apply subseteq_difference_l; reflexivity].
    + unfold dispatch_loop. destruct (stop_transfers (vars s)).
      * match goal with |- context [drain_loop ?x] =>
          destruct (drain_loop_fields x) as (Hp & _ & _ & _ & Ha) end.
        rewrite Hp. cbn [pending]. split; [reflexivity|].
        intros (j & Hj). rewrite Hj in Ha. exact Ha.
      * cbn. split; [reflexivity | intros (j & Hj); discriminate].
    + cbn. split; [reflexivity | intros (j & Hj); cbn in Hj; congruence].
  - destruct l.
    + split; [reflexivity | exact Hnot].
    + unfold complete. destruct (bool_decide _); [|split; [reflexivity | exact Hnot]].
      destruct (transfer_callback _ _ _ _) as [g evs]. cbn [pending at_].
      split; [|intros (j & Hj); cbn in Hj; congruence].
      destruct (negb _ && _); [reflexivity | apply subseteq_difference_l; reflexivity].
    + destruct (drain_loop_fields s) as (Hp & _ & _ & _ & Ha).
      rewrite Hp. split; [reflexivity|].
      intros (j & Hj). rewrite Hj in Ha. exact Ha.
    + cbn. split; [reflexivity | intros (j & Hj); cbn in Hj; congruence].
  - split; [reflexivity | exact Hnot].
  - split; [reflexivity | exact Hnot].
Qed.

Lemma pending_run_subset s ls :
  ~ in_submit_loop s -> pending (run s ls) ⊆ pending s.
Proof.
  revert s. induction ls as [|l ls IH]; intros s Hnot; [reflexivity|].
  cbn. destruct (pending_step_subset s l Hnot) as (Hsub & Hnot').
  etrans; [apply IH; exact Hnot' | exact Hsub].
Qed.

(** X13: once [main] dispatches events the set of transfers in flight
    never grows: a transfer whose resubmission fails, or that completes
    after the stop flag is set, is out of the queue for the rest of the
    session, whatever happens next. *)
Theorem lost_transfer_never_returns s c ls :
  dispatching s ->
  slot (c_transfer c) ∈ pending s ->
  stop_transfers (vars s) = true \/ c_submit_ret c <> 0 ->
  pending (run s (Completes c :: ls)) ⊆ pending s ∖ {[slot (c_transfer c)]} /\
  forall ls', pending (run s ls') ⊆ pending s.
Proof.
  intros Hd Hin Hlost.
  assert (Hnot : ~ in_submit_loop s).
  { intros (j & Hj). destruct Hd as [Hd|Hd]; congruence. }
  split; [|intros ls'; apply pending_run_subset; exact Hnot].
  cbn [run fold_left].
  assert (Hstep : step s (Completes c) = complete s c).
  { unfold step. destruct Hd as [-> | ->]; reflexivity. }
  destruct (pending_step_subset s (Completes c) Hnot) as (_ & Hnot').
  rewrite Hstep in *.
  etrans; [apply (pending_run_subset _ ls Hnot')|].
  unfold complete. rewrite bool_decide_true by exact Hin.
  destruct (transfer_callback _ _ _ _) as [g evs]. cbn [pending].
  assert (Hc : negb (stop_transfers (vars s)) && (c_submit_ret c =? 0) = false).
  { destruct Hlost as [-> | Hret]; [reflexivity|].
    apply andb_false_iff. right. apply Z.eqb_neq. exact Hret. }
  rewrite Hc. reflexivity.
Qed.

Lemma lost_transfer_never_returns_witness :
  let s := run (start 2 allocator_ok (Timeval 0 0)) [SubmitReturns 0; SubmitReturns 0] in
  let c := Completion (Transfer 0 LIBUSB_TRANSFER_COMPLETED 512) (Timeval 1 0) (-1) in
  pending (run s [Completes c; Completes c; HandleEventsReturns])
    ⊆ pending s ∖ {[0%nat]}.
Proof.
  cbv zeta.
  apply (lost_transfer_never_returns
           (run (start 2 allocator_ok (Timeval 0 0)) [SubmitReturns 0; SubmitReturns 0])
           (Completion (Transfer 0 LIBUSB_TRANSFER_COMPLETED 512) (Timeval 1 0) (-1))
           [Completes (Completion (Transfer 0 LIBUSB_TRANSFER_COMPLETED 512)
                         (Timeval 1 0) (-1)); HandleEventsReturns]).
  - left. vm_compute. reflexivity.
  - vm_compute pending. cbn [slot c_transfer]. set_solver.
  - right. cbn. lia.
Defined.

(** *** The order of the actions of [main] *)

Lemma main_submits_app e1 e2 : main_submits (e1 ++ e2) = main_submits e1 ++ main_submits e2.
Proof. unfold main_submits. apply flat_map_app. Qed.

Lemma commands_app e1 e2 : commands (e1 ++ e2) = commands e1 ++ commands e2.
Proof. unfold commands. apply flat_map_app. Qed.

Lemma main_order_extend qd s s' evs :
  main_order qd s ->
  queuedepth (vars s') = queuedepth (vars s) ->
  trace s' = trace s ++ evs -> at_ s' = at_ s ->
  main_submits evs = [] -> commands evs = [] ->
  main_order qd s'.
Proof.
  intros (Hq & Hat) Hq' Ht Ha Hm Hc. unfold main_order.
  rewrite Hq', Ht, Ha, main_submits_app, commands_app, Hm, Hc, !app_nil_r.
  split; assumption.
Qed.

Lemma main_order_enter_dispatch qd s i :
  0 <= qd ->
  queuedepth (vars s) = qd -> main_submits (trace s) = seq 0 i ->
  commands (trace s) = [] -> Z.of_nat i <= qd ->
  main_order qd (submit_loop s i).
Proof.
  intros Hqd Hq Hm Hc Hi. unfold submit_loop, main_order. rewrite Hq.
  destruct (Z.ltb_spec (Z.of_nat i) qd) as [Hlt|Hge]; cbn [vars trace at_ enter_dispatch].
  - auto.
  - split; [exact Hq|]. rewrite main_submits_app, commands_app, Hm, Hc.
    replace (Z.to_nat qd) with i by lia. cbn. rewrite app_nil_r. auto.
Qed.

Lemma main_order_drain_loop qd s :
  0 <= qd ->
  queuedepth (vars s) = qd ->
  main_submits (trace s) = seq 0 (Z.to_nat qd) ->
  commands (trace s) = take 2 session_commands ->
  main_order qd (drain_loop s).
Proof.
  intros Hqd Hq Hm Hc. unfold drain_loop, finish, main_order.
  destruct (xfers_in_progress (vars s) =? 0).
  - destruct (free_transfer_buffers (mem s)); cbn [vars trace at_];
      rewrite main_submits_app, commands_app, Hm, Hc; cbn; rewrite app_nil_r.
    + auto.
    + split; [exact Hq|]. exists (Z.to_nat qd). split; [reflexivity|].
      split; [lia|]. right. auto.
  - cbn [vars trace at_]. rewrite main_submits_app, commands_app, Hm, Hc. cbn.
    rewrite app_nil_r. auto.
Qed.

Lemma main_order_step qd s l : 0 <= qd -> main_order qd s -> main_order qd (step s l).
Proof.
  intros Hqd Hord. pose proof Hord as (Hq & Hat).
  assert (Hsig : at_ s <> Drained -> at_ s <> Undefined -> main_order qd (sig_hdlr s)).
  { intros _ _. apply (main_order_extend qd s _ [EvStop]); auto. }
  assert (Hcomp : forall c, main_order qd (complete s c)).
  { intros c. unfold complete. destruct (bool_decide _); [|exact Hord].
    pose proof (callback_globals (vars s) (c_transfer c) (c_now c) (c_submit_ret c)) as Hg.
    pose proof (callback_main_submits (vars s) (c_transfer c) (c_now c) (c_submit_ret c)) as H1.
    pose proof (callback_commands (vars s) (c_transfer c) (c_now c) (c_submit_ret c)) as H2.
    destruct (transfer_callback (vars s) (c_transfer c) (c_now c) (c_submit_ret c))
      as [g evs]. cbv zeta in Hg. cbn [fst snd] in *. destruct Hg as (Hg & _).
    apply (main_order_extend qd s _ evs); auto. }
  unfold step. destruct (at_ s) eqn:Hplace; destruct l; auto;
    try (apply Hsig; discriminate).
  - destruct Hat as (Hm & Hi & Hc).
    unfold submit_initial. destruct (slot_ready (mem s) i).
    + apply main_order_enter_dispatch; cbn [vars trace]; auto.
      * destruct (ret =? 0); exact Hq.
      * rewrite main_submits_app, Hm, seq_S. reflexivity.
      * rewrite commands_app, Hc. reflexivity.
      * lia.
    + unfold main_order. cbn [vars trace at_]. split; [exact Hq|].
      exists i. split; [exact Hm|]. split; [lia|]. left. exact Hc.
  - destruct Hat as (Hm & Hc). unfold dispatch_loop.
    destruct (stop_transfers (vars s)).
    + apply main_order_drain_loop; auto.
    + apply (main_order_extend qd s _ [EvHandleEvents]); auto.
  - destruct Hat as (Hm & Hc). apply main_order_drain_loop; auto.
Qed.

Lemma main_order_start qd a now : 0 <= qd -> main_order qd (start qd a now).
Proof.
  intros Hqd. unfold start. destruct (allocate qd a) as [m allocfail].
  destruct allocfail.
  - destruct (free_transfer_buffers m).
    + apply main_order_enter_dispatch; cbn; auto; lia.
    + unfold main_order. cbn. split; [reflexivity|]. exists 0%nat. cbn. auto with lia.
  - apply main_order_enter_dispatch; cbn; auto; lia.
Qed.

Lemma main_order_run qd s ls : 0 <= qd -> main_order qd s -> main_order qd (run s ls).
Proof.
  intros Hqd. revert s. induction ls as [|l ls IH]; intros s Hord; [exact Hord|].
  cbn. apply IH. apply main_order_step; assumption.
Qed.

(** X11: whatever the allocator, the transport and the signals do, [main]
    submits the slots 0, 1, 2, ... in this order, each once, whether the
    submissions before succeeded or not; it sends no command before the
    last of the [queuedepth] slots has been submitted; and the commands
    it sends are, in this order, STARTADC with 150000000, STARTFX3 with 0
    and, when the session has drained, STOPFX3 with 0. *)
Theorem main_actions_in_order qd a now ls :
  0 <= qd ->
  let s := run (start qd a now) ls in
  exists k,
    main_submits (trace s) = seq 0 k /\ Z.of_nat k <= qd /\
    commands (trace s) `prefix_of` session_commands /\
    (commands (trace s) <> [] -> Z.of_nat k = qd) /\
    (at_ s = Drained -> commands (trace s) = session_commands).
Proof.
  intros Hqd. cbv zeta.
  destruct (main_order_run qd _ ls Hqd (main_order_start qd a now Hqd)) as (Hq & Hat).
  destruct (at_ (run (start qd a now) ls)).
  - destruct Hat as (Hm & Hi & Hc). exists i. rewrite Hc.
    split; [exact Hm|]. split; [lia|]. split; [apply prefix_nil|].
    split; [congruence | discriminate].
  - destruct Hat as (Hm & Hc). exists (Z.to_nat qd). rewrite Hc.
    split; [exact Hm|]. split; [lia|]. split; [eexists; reflexivity|].
    split; [lia | discriminate].
  - destruct Hat as (Hm & Hc). exists (Z.to_nat qd). rewrite Hc.
    split; [exact Hm|]. split; [lia|]. split; [eexists; reflexivity|].
    split; [lia | discriminate].
  - destruct Hat as (Hm & Hc). exists (Z.to_nat qd). rewrite Hc.
    split; [exact Hm|]. split; [lia|]. split; [reflexivity|].
    split; [lia | reflexivity].
  - destruct Hat as (k & Hm & Hk & [Hc|(-> & Hc)]); rewrite Hc.
    + exists k. split; [exact Hm|]. split; [lia|]. split; [apply prefix_nil|].
      split; [congruence | discriminate].
    + exists (Z.to_nat qd). split; [exact Hm|]. split; [lia|].
      split; [eexists; reflexivity|]. split; [lia | discriminate].
Qed.

Lemma main_actions_in_order_witness :
  let s := run (start 2 allocator_ok (Timeval 0 0)) interrupted_session in
  exists k,
    main_submits (trace s) = seq 0 k /\ Z.of_nat k <= 2 /\
    commands (trace s) `prefix_of` session_commands /\
    (commands (trace s) <> [] -> Z.of_nat k = 2) /\
    (at_ s = Drained -> commands (trace s) = session_commands).
Proof.
  apply (main_actions_in_order 2 allocator_ok (Timeval 0 0) interrupted_session).
  lia.
Defined.

(** *** The allocation loop *)

Lemma first_failure_spec a n i :
  match first_failure a n i with
  | None =>
      forall j, (i <= j < i + n)%nat ->
        malloc_ok a j = true /\ alloc_transfer_ok a j = true
  | Some k =>
      (i <= k < i + n)%nat /\
      malloc_ok a k && alloc_transfer_ok a k = false /\
      forall j, (i <= j < k)%nat ->
        malloc_ok a j = true /\ alloc_transfer_ok a j = true
  end.
Proof.
  revert i. induction n as [|n IH]; intros i; cbn [first_failure].
  - intros j Hj. lia.
  - destruct (malloc_ok a i && alloc_transfer_ok a i) eqn:Hok.
    + specialize (IH (S i)). apply andb_true_iff in Hok.
      destruct (first_failure a n (S i)) as [k|].
      * destruct IH as (Hk & Hbad & Hall). split; [lia|]. split; [exact Hbad|].
        intros j Hj. destruct (decide (j = i)) as [->|Hne]; [exact Hok|].
        apply Hall. lia.
      * intros j Hj. destruct (decide (j = i)) as [->|Hne]; [exact Hok|].
        apply IH. lia.
    + split; [lia|]. split; [exact Hok|]. intros j Hj. lia.
Qed.

Lemma insert_at_end (pre : list bool) i n b :
  length pre = i ->
  <[i := b]> (pre ++ replicate (S n) false) = pre ++ b :: replicate n false.
Proof.
  intros <-. rewrite insert_app_r_alt by lia. rewrite Nat.sub_diag. reflexivity.
Qed.

Lemma allocate_loop_shape a n i pd pt :
  length pd = i -> length pt = i ->
  allocate_loop a n i (pd ++ replicate n false) (pt ++ replicate n false)
  = match first_failure a n i with
    | None => (pd ++ replicate n true, pt ++ replicate n true, false)
    | Some k =>
        (pd ++ replicate (k - i) true
            ++ malloc_ok a k :: replicate (i + n - k - 1) false,
         pt ++ replicate (k - i) true
            ++ alloc_transfer_ok a k :: replicate (i + n - k - 1) false,
         true)
    end.
Proof.
  revert i pd pt. induction n as [|n IH]; intros i pd pt Hd Ht; [reflexivity|].
  cbn [allocate_loop first_failure].
  rewrite !insert_at_end by assumption.
  destruct (malloc_ok a i) eqn:Hm; destruct (alloc_transfer_ok a i) eqn:Hal;
    cbn [negb orb andb].
  - specialize (IH (S i) (pd ++ [true]) (pt ++ [true])).
    rewrite <- !app_assoc in IH. cbn [app] in IH.
    rewrite IH by (rewrite length_app; cbn; lia).
    pose proof (first_failure_spec a n (S i)) as Hspec.
    destruct (first_failure a n (S i)) as [k|].
    + destruct Hspec as (Hk & _).
      replace (k - i)%nat with (S (k - S i)) by lia.
      replace (S i + n - k - 1)%nat with (i + S n - k - 1)%nat by lia.
      rewrite <- ?app_assoc. reflexivity.
    + rewrite <- ?app_assoc. reflexivity.
  - rewrite Nat.sub_diag. cbn [replicate app].
    replace (i + S n - i - 1)%nat with n by lia. rewrite Hm, Hal. reflexivity.
  - rewrite Nat.sub_diag. cbn [replicate app].
    replace (i + S n - i - 1)%nat with n by lia. rewrite Hm, Hal. reflexivity.
  - rewrite Nat.sub_diag. cbn [replicate app].
    replace (i + S n - i - 1)%nat with n by lia. rewrite Hm, Hal. reflexivity.
Qed.

(** X10: when both [calloc] succeed, the allocation loop stops at the
    first index at which [malloc] or [libusb_alloc_transfer] fails:
    either both succeed at every index below [queuedepth], every entry
    is allocated and [allocfail] is false; or [allocfail] is true, every
    entry before the failing index is allocated, the two entries at the
    failing index hold what the two calls returned, and no entry behind
    it was attempted. *)
Theorem allocation_stops_at_first_failure qd a :
  calloc_databuffers a = true -> calloc_transfers a = true ->
  let n := Z.to_nat qd in
  (forall j, (j < n)%nat -> malloc_ok a j = true /\ alloc_transfer_ok a j = true) /\
  allocate qd a = (all_allocated n, false)
  \/
  exists k, (k < n)%nat /\
    malloc_ok a k && alloc_transfer_ok a k = false /\
    (forall j, (j < k)%nat -> malloc_ok a j = true /\ alloc_transfer_ok a j = true) /\
    allocate qd a
    = (Memory
         (Live (replicate k true ++ malloc_ok a k :: replicate (n - k - 1) false))
         (Live (replicate k true ++ alloc_transfer_ok a k :: replicate (n - k - 1) false)),
       true).
Proof.
  intros Hdb Htr. cbv zeta. unfold allocate. rewrite Hdb, Htr. cbn [andb].
  pose proof (allocate_loop_shape a (Z.to_nat qd) 0 [] [] eq_refl eq_refl) as Hshape.
  cbn [app] in Hshape. rewrite Hshape.
  pose proof (first_failure_spec a (Z.to_nat qd) 0) as Hspec.
  destruct (first_failure a (Z.to_nat qd) 0) as [k|].
  - right. destruct Hspec as (Hk & Hbad & Hall). exists k.
    split; [lia|]. split; [exact Hbad|]. split; [intros j Hj; apply Hall; lia|].
    rewrite Nat.sub_0_r. cbn [Nat.add]. reflexivity.
  - left. split; [intros j Hj; apply Hspec; lia | reflexivity].
Qed.

Lemma allocation_stops_at_first_failure_witness :
  exists k, (k < 16)%nat /\
    allocate 16 failing_allocator
    = (Memory
         (Live (replicate k true ++ malloc_ok failing_allocator k
                  :: replicate (16 - k - 1) false))
         (Live (replicate k true ++ alloc_transfer_ok failing_allocator k
                  :: replicate (16 - k - 1) false)),
       true).
Proof.
  destruct (allocation_stops_at_first_failure 16 failing_allocator eq_refl eq_refl)
    as [(Hall & _)|(k & Hk & _ & _ & Heq)].
  - exfalso. destruct (Hall 0%nat) as (Hm & _); [cbn; lia | discriminate].
  - exists k. split; [exact Hk | exact Heq].
Defined.

(** *** usb_match_manuf_prod *)

Lemma strcmp_zero s1 s2 : strcmp s1 s2 = 0 <-> c_str s1 = c_str s2.
Proof.
  revert s2. induction s1 as [|c1 r1 IH]; intros [|c2 r2]; cbn [strcmp c_str].
  - tauto.
  - pose proof (uchar_range c2). destruct (Z.eqb_spec (uchar c2) 0); split;
      intros; try lia; try reflexivity; discriminate.
  - pose proof (uchar_range c1). destruct (Z.eqb_spec (uchar c1) 0); split;
      intros; try lia; try reflexivity; discriminate.
  - destruct (Z.eqb_spec (uchar c1) (uchar c2)) as [Heq|Hne].
    + apply uchar_inj in Heq. subst c2.
      destruct (Z.eqb_spec (uchar c1) 0); [tauto|].
      rewrite IH. split; [intros ->; reflexivity | intros H; injection H; auto].
    + destruct (Z.eqb_spec (uchar c1) 0); destruct (Z.eqb_spec (uchar c2) 0);
        split; intros H; try lia; try discriminate.
      injection H as -> _. contradiction.
Qed.

(** X7: [usb_match_manuf_prod] runs the body of its loop once: it reads
    the device descriptor and opens the device once; it returns true
    exactly when the device opened and both strings were read and are
    equal, as C strings, to the ones asked for; and it closes the handle
    exactly when [libusb_open] returned 0, whatever the result. *)
Theorem usb_match_closes_what_it_opens fuel dev manufacturer product :
  (0 < fuel)%nat ->
  exists ret rest,
    usb_match_manuf_prod fuel dev manufacturer product
    = Some (ret, [HostGetDeviceDescriptor; HostOpen] ++ rest) /\
    (ret = true <->
       dev_open_ret dev = 0 /\
       exists m p,
         string_descriptor_ascii dev (iManufacturer dev) = Some m /\
         c_str m = c_str manufacturer /\
         string_descriptor_ascii dev (iProduct dev) = Some p /\
         c_str p = c_str product) /\
    (~ In HostOpen rest /\ ~ In HostGetDeviceDescriptor rest) /\
    (In HostClose rest <-> dev_open_ret dev = 0) /\
    (dev_open_ret dev <> 0 -> rest = []).
Proof.
  intros Hfuel. destruct fuel as [|fuel]; [lia|].
  unfold usb_match_manuf_prod. cbn [usb_match_loop app].
  destruct (Z.eqb_spec (dev_open_ret dev) 0) as [Hopen|Hopen]; cbn [negb].
  2:{ exists false, []. split; [reflexivity|]. split; [split; [discriminate|tauto]|].
      split; [split; intros []|]. split; [split; [intros []|contradiction]|]. reflexivity. }
  destruct (string_descriptor_ascii dev (iManufacturer dev)) as [m|] eqn:Hm.
  2:{ eexists false, _. split; [reflexivity|].
      split; [split; [discriminate | intros (_ & m & p & H & _); discriminate]|].
      split; [cbn; intuition discriminate|].
      split; [split; [auto | intros _; cbn; auto]|]. contradiction. }
  destruct (Z.eqb_spec (strcmp m manufacturer) 0) as [Hsm|Hsm]; cbn [negb].
  2:{ eexists false, _. split; [reflexivity|].
      split; [split; [discriminate |
                      intros (_ & m' & p & H & Hc & _); injection H as <-;
                      apply strcmp_zero in Hc; contradiction]|].
      split; [cbn; intuition discriminate|].
      split; [split; [auto | intros _; cbn; auto]|]. contradiction. }
  destruct (string_descriptor_ascii dev (iProduct dev)) as [p|] eqn:Hp.
  2:{ eexists false, _. split; [reflexivity|].
      split; [split; [discriminate | intros (_ & m' & p & _ & _ & H & _); discriminate]|].
      split; [cbn; intuition discriminate|].
      split; [split; [auto | intros _; cbn; auto]|]. contradiction. }
  destruct (Z.eqb_spec (strcmp p product) 0) as [Hsp|Hsp]; cbn [negb].
  2:{ eexists false, _. split; [reflexivity|].
      split; [split; [discriminate |
                      intros (_ & m' & p' & _ & _ & H & Hc); injection H as <-;
                      apply strcmp_zero in Hc; contradiction]|].
      split; [cbn; intuition discriminate|].
      split; [split; [auto | intros _; cbn; auto]|]. contradiction. }
  destruct fuel; cbn [usb_match_loop].
  all: eexists true, _; (split; [reflexivity|]).
  all: split; [split; [intros _; split; [exact Hopen|]; exists m, p;
                        rewrite <- !strcmp_zero; auto | reflexivity]|].
  all: split; [cbn; intuition discriminate|].
  all: split; [split; [auto | intros _; cbn; auto]|]; contradiction.
Qed.

Lemma usb_match_closes_what_it_opens_witness :
  exists ret rest,
    usb_match_manuf_prod 1 named_device ["a"; "b"]%byte ["c"]%byte
    = Some (ret, [HostGetDeviceDescriptor; HostOpen] ++ rest) /\
    In HostClose rest.
Proof.
  destruct (usb_match_closes_what_it_opens 1 named_device ["a"; "b"]%byte ["c"]%byte)
    as (ret & rest & Heq & _ & _ & Hclose & _).
  - lia.
  - exists ret, rest. split; [exact Heq|]. apply Hclose. reflexivity.
Defined.
